(** * Experimental-Interpreter: the object layer (object.c, none.c) and the
    statement interpreter (parser.c)

    A shallow embedding of the two source files.  C objects live in a heap of
    reference-counted cells addressed by pointers; the interpreter's globals
    (scanner, reader, identifier table, loop flags, return slot) are the
    fields of an explicit state.  A C function [T f(args)] becomes a
    computation [f args : M S T] over the state [S] it touches. *)

From Stdlib Require Import ZArith Ascii String List Bool Lia.
From Stdlib Require Floats.PrimFloat Floats.SpecFloat Floats.FloatOps.
From stdpp Require Import base option list gmap strings pretty.

Local Open Scope Z_scope.

(** ** Outcomes of a C function *)

(** error.h is not part of the sources; the kinds are those the two files
    pass to [error()]. *)
Inductive errortype :=
| SyntaxError | NameError | TypeError | ValueError | IndexError
| ZeroDivisionError | OutOfMemoryError | SystemError.

(** Why a run stops without a result. *)
Inductive abort :=
| Raise (e : errortype)  (* error(e, ...): diagnostic, then exit *)
| Fault                  (* undefined behaviour: NULL or dangling pointer, failed assert *)
| OutOfFuel.             (* the recursion bound of the model was reached *)

(** [Jump s] is a [longjmp(return_address, 1)] in flight with globals [s]. *)
Inductive result (S A : Type) :=
| Ok (a : A) (s : S)
| Jump (s : S)
| Abort (x : abort).
Arguments Ok {S A} a s.
Arguments Jump {S A} s.
Arguments Abort {S A} x.

Definition M (S A : Type) : Type := S -> result S A.

Definition ret {S A} (a : A) : M S A := fun s => Ok a s.

Definition bind {S A B} (m : M S A) (k : A -> M S B) : M S B :=
  fun s => match m s with
           | Ok a s' => k a s'
           | Jump s' => Jump s'
           | Abort x => Abort x
           end.

Definition error {S A} (e : errortype) : M S A := fun _ => Abort (Raise e).
Definition fault {S A} : M S A := fun _ => Abort Fault.
Definition out_of_fuel {S A} : M S A := fun _ => Abort OutOfFuel.
Definition get {S} : M S S := fun s => Ok s s.
Definition put {S} (s : S) : M S unit := fun _ => Ok tt s.

Declare Scope c_scope.
Delimit Scope c_scope with c.
Notation "'let*' x ':=' m 'in' k" := (bind m (fun x => k))
  (at level 10, x name, m at level 100, k at level 200) : c_scope.
Notation "m ';;' k" := (bind m (fun _ => k))
  (at level 100, k at level 200, right associativity) : c_scope.
Local Open Scope c_scope.

(** [when c m]: [if (c) m;] *)
Definition when {S} (c : bool) (m : M S unit) : M S unit :=
  if c then m else ret tt.

(** Left-to-right traversal of a list. *)
Fixpoint traverse {S A B} (f : A -> M S B) (l : list A) : M S (list B) :=
  match l with
  | [] => ret []
  | x :: l' => let* y := f x in let* ys := traverse f l' in ret (y :: ys)
  end.

Fixpoint for_each {S A} (f : A -> M S unit) (l : list A) : M S unit :=
  match l with
  | [] => ret tt
  | x :: l' => f x ;; for_each f l'
  end.

(** ** Tokens (scanner.h is not part of the sources)

    The kinds the two files name, and the literal and operator kinds of the
    expression grammar. *)
Inductive token_t :=
| IDENTIFIER | INT | FLOAT | CHAR | STR
| LPAR | RPAR | COMMA | EQUAL
| OPERATOR (lexeme : string)
| DEFFUNC | DEFCHAR | DEFINT | DEFFLOAT | DEFSTR | DEFLIST
| IF | ELSE | WHILE | DO | FOR | IN | BREAK | CONTINUE | RETURN | PASS
| PRINT | INPUT | IMPORT
| NEWLINE | INDENT | DEDENT | ENDMARKER.

#[global] Instance token_t_eq_dec : EqDecision token_t.
Proof. solve_decision. Defined.

Definition token_eqb (t u : token_t) : bool := bool_decide (t = u).

(** ** Objects

    object.h is not part of the sources.  The layout follows the casts of
    object.c: [((CharObject * )op)->cval], [->ival], [->fval], [->sptr], and
    the [refcount] and [type] fields of none.c. *)
Inductive objecttype_t :=
| CHAR_T | INT_T | FLOAT_T | STR_T | LIST_T | LISTNODE_T | POSITION_T | NONE_T.

#[global] Instance objecttype_t_eq_dec : EqDecision objecttype_t.
Proof. solve_decision. Defined.

(** A pointer to an object.  [option ptr] where the code tests for NULL. *)
Abbreviation ptr := positive.

(** What reader.save() records: the offset in the source, and the scanner's
    current token and lexeme. *)
Record position := mkPosition {
  pos_offset : nat;
  pos_token : token_t;
  pos_string : string
}.

(** [char_t] is an 8-bit code, [int_t] a 64-bit long (printed with %ld),
    [float_t] a double. *)
Inductive payload :=
| CharData (cval : ascii)
| IntData (ival : Z)
| FloatData (fval : PrimFloat.float)
| StrData (sptr : string)
| ListData (nodes : list ptr)
| ListNodeData (obj : option ptr)
| PositionData (p : position)
| NoneData.

Record Object := mkObject {
  refcount : Z;
  data : payload
}.

Abbreviation heap := (gmap positive Object).

Definition type_of (d : payload) : objecttype_t :=
  match d with
  | CharData _ => CHAR_T
  | IntData _ => INT_T
  | FloatData _ => FLOAT_T
  | StrData _ => STR_T
  | ListData _ => LIST_T
  | ListNodeData _ => LISTNODE_T
  | PositionData _ => POSITION_T
  | NoneData => NONE_T
  end.

(** *** Machine integers and casts *)

(** Two's complement wrap-around to [w] bits, signed. *)
Definition wrap (w : Z) (z : Z) : Z :=
  let m := 2 ^ w in
  let r := z mod m in
  if r <? 2 ^ (w - 1) then r else r - m.

(** [(int)i] for the [int index] parameters, [(int_t)x] for 64-bit results. *)
Definition to_int (z : Z) : Z := wrap 32 z.
Definition to_int_t (z : Z) : Z := wrap 64 z.

(** [(int_t)c]: [char_t] is taken as a plain, signed [char]. *)
Definition char_to_int (c : ascii) : Z := wrap 8 (Z.of_N (N_of_ascii c)).
(** [(char_t)i]: the low eight bits. *)
Definition int_to_char (i : Z) : ascii := ascii_of_N (Z.to_N (i mod 256)).

(** [(float_t)i] *)
Definition int_to_float (i : Z) : PrimFloat.float :=
  FloatOps.SF2Prim (SpecFloat.binary_normalize FloatOps.prec FloatOps.emax i 0 false).

(** [(int_t)f]: truncation toward zero (undefined in C when out of range;
    wrapped here). *)
Definition float_to_int (f : PrimFloat.float) : Z :=
  match FloatOps.Prim2SF f with
  | SpecFloat.S754_finite s m e =>
      let mag := if (0 <=? e) then Z.pos m * 2 ^ e else Z.pos m / 2 ^ (- e) in
      to_int_t (if s then - mag else mag)
  | _ => 0
  end.

Definition float_zero : PrimFloat.float := int_to_float 0.
(** [f ? true : false] *)
Definition float_to_bool (f : PrimFloat.float) : bool := negb (PrimFloat.eqb f float_zero).

(** *** The heap *)

(** [*obj]: reading through a pointer that is not live is undefined. *)
Definition load (obj : ptr) : M heap Object :=
  fun h => match h !! obj with
           | Some o => Ok o h
           | None => Abort Fault
           end.

Definition store (obj : ptr) (o : Object) : M heap unit :=
  fun h => Ok tt (<[obj := o]> h).

(** [free(obj)] of the C library. *)
Definition release (obj : ptr) : M heap unit :=
  fun h => Ok tt (delete obj h).

(** Assignment to the payload of [*obj], the count left as it is. *)
Definition set_data (obj : ptr) (d : payload) : M heap unit :=
  let* o := load obj in store obj (mkObject (refcount o) d).

(** The macros of object.h, as the spec and the code use them:
    [TYPE(o)], [isNumber], [isString], [isList], [isSequence], [isListNode]. *)
Definition TYPE (obj : ptr) : M heap objecttype_t :=
  let* o := load obj in ret (type_of (data o)).

Definition number_type (t : objecttype_t) : bool :=
  match t with CHAR_T | INT_T | FLOAT_T => true | _ => false end.
Definition sequence_type (t : objecttype_t) : bool :=
  match t with STR_T | LIST_T => true | _ => false end.

Definition isNumber (obj : ptr) : M heap bool :=
  let* t := TYPE obj in ret (number_type t).
Definition isString (obj : ptr) : M heap bool :=
  let* t := TYPE obj in ret (bool_decide (t = STR_T)).
Definition isList (obj : ptr) : M heap bool :=
  let* t := TYPE obj in ret (bool_decide (t = LIST_T)).
Definition isSequence (obj : ptr) : M heap bool :=
  let* t := TYPE obj in ret (sequence_type t).
Definition isListNode (obj : ptr) : M heap bool :=
  let* t := TYPE obj in ret (bool_decide (t = LISTNODE_T)).

(** [obj_from_listnode] (list.c): the object a node owns.  A node without
    an object yields NULL, which no caller tests before using it. *)
Definition obj_from_listnode (node : ptr) : M heap ptr :=
  let* o := load node in
  match data o with
  | ListNodeData (Some x) => ret x
  | _ => fault
  end.

(** [op = isListNode(op) ? obj_from_listnode(op) : op;] *)
Definition deref_listnode (op : ptr) : M heap ptr :=
  let* b := isListNode op in
  if b then obj_from_listnode op else ret op.

(** *** Reference counts (the macros obj_incref, obj_decref of object.h)

    Modelled from the spec: "Incref raises it. Decref lowers it; at zero the
    destructor frees children (list frees its nodes; node decrefs its inner
    value; string frees its buffer), then the value itself." *)
Definition obj_incref (obj : ptr) : M heap unit :=
  let* o := load obj in store obj (mkObject (refcount o + 1) (data o)).

(** The [free] method of each type.  [none_free] is in none.c and does
    nothing; the other destructors follow the spec. *)
Definition type_free (decref : ptr -> M heap unit) (obj : ptr) (d : payload)
  : M heap unit :=
  match d with
  | NoneData => ret tt
  | ListData nodes => for_each decref nodes ;; release obj
  | ListNodeData (Some x) => decref x ;; release obj
  | _ => release obj
  end.

(** [obj_free]: [TYPEOBJ(obj)->free(obj)] (the debug queue left out). *)
Definition obj_free (decref : ptr -> M heap unit) (obj : ptr) : M heap unit :=
  let* o := load obj in type_free decref obj (data o).

(** [if (--obj->refcount == 0) obj_free(obj)].  [fuel] bounds the depth of
    the nested destruction. *)
Fixpoint obj_decref (fuel : nat) (obj : ptr) : M heap unit :=
  match fuel with
  | O => out_of_fuel
  | S n =>
      let* o := load obj in
      store obj (mkObject (refcount o - 1) (data o)) ;;
      if refcount o - 1 =? 0 then obj_free (obj_decref n) obj else ret tt
  end.

(** *** Allocation *)

(** The [none] object of none.c is static, with [.refcount = 1]. *)
Definition none : ptr := 1%positive.
Definition none_object : Object := mkObject 1 NoneData.
Definition heap_init : heap := {[ none := none_object ]}.

(** The value a type's [alloc] method gives the new object.  Modelled from
    the spec: "allocate a default value of type (numeric 0, empty
    string/list)". *)
Definition default_data (t : objecttype_t) : payload :=
  match t with
  | CHAR_T => CharData Ascii.zero
  | INT_T => IntData 0
  | FLOAT_T => FloatData float_zero
  | STR_T => StrData EmptyString
  | LIST_T => ListData []
  | LISTNODE_T => ListNodeData None
  | POSITION_T => PositionData (mkPosition 0 ENDMARKER EmptyString)
  | NONE_T => NoneData
  end.

(** [chartype.alloc()] ... [nonetype.alloc()].  [none_alloc] (none.c)
    returns [&none]; the other allocators return new memory whose count
    obj_alloc raises to 1.  The allocator of the model always finds
    memory. *)
Definition type_alloc (t : objecttype_t) : M heap ptr :=
  match t with
  | NONE_T => ret none
  | _ => fun h => let obj := fresh (dom h) in
                  Ok obj (<[obj := mkObject 0 (default_data t)]> h)
  end.

(** [Object *obj_alloc(objecttype_t type)] *)
Definition obj_alloc (type : objecttype_t) : M heap ptr :=
  let* obj := type_alloc type in
  obj_incref obj ;;  (* initial refcount = 1 *)
  ret obj.

(** ** What object.c calls and the sources do not contain *)

(** The C library: strtol, strtod and the %.16lG conversion of snprintf.
    A conversion yields its value, the unparsed rest ([*e]) and whether
    [errno] was set. *)
Class Libc := {
  strtol : string -> Z * string * bool;
  strtod : string -> PrimFloat.float * string * bool;
  format_G16 : PrimFloat.float -> string
}.

(** The method table [numbertype] of number.c. *)
Class NumberType := {
  number_add : ptr -> ptr -> M heap ptr;
  number_sub : ptr -> ptr -> M heap ptr;
  number_mul : ptr -> ptr -> M heap ptr;
  number_div : ptr -> ptr -> M heap ptr;
  number_mod : ptr -> ptr -> M heap ptr;
  number_inv : ptr -> M heap ptr;
  number_eql : ptr -> ptr -> M heap ptr;
  number_neq : ptr -> ptr -> M heap ptr;
  number_lss : ptr -> ptr -> M heap ptr;
  number_leq : ptr -> ptr -> M heap ptr;
  number_gtr : ptr -> ptr -> M heap ptr;
  number_geq : ptr -> ptr -> M heap ptr;
  number_or : ptr -> ptr -> M heap ptr;
  number_and : ptr -> ptr -> M heap ptr;
  number_negate : ptr -> M heap ptr
}.

(** The method table [strtype] of str.c. *)
Class StrType := {
  str_concat : ptr -> ptr -> M heap ptr;
  str_repeat : ptr -> ptr -> M heap ptr;
  str_eql : ptr -> ptr -> M heap ptr;
  str_neq : ptr -> ptr -> M heap ptr;
  str_item : ptr -> Z -> M heap ptr;
  str_slice : ptr -> Z -> Z -> M heap ptr;
  str_length : ptr -> M heap ptr
}.

(** The method table [listtype] of list.c. *)
Class ListType := {
  list_concat : ptr -> ptr -> M heap ptr;
  list_repeat : ptr -> ptr -> M heap ptr;
  list_eql : ptr -> ptr -> M heap ptr;
  list_neq : ptr -> ptr -> M heap ptr;
  list_item : ptr -> Z -> M heap ptr;
  list_slice : ptr -> Z -> Z -> M heap ptr;
  list_length : ptr -> M heap ptr
}.

(** ** object.c: conversions *)

(** [*s] and [s + 1] on a NUL-terminated buffer: past the last character
    the buffer holds the terminator. *)
Definition peek (s : string) : ascii :=
  match s with
  | String c _ => c
  | EmptyString => Ascii.zero
  end.

Definition advance (s : string) : string :=
  match s with
  | String _ s' => s'
  | EmptyString => EmptyString
  end.

Definition is_nul (c : ascii) : bool := Ascii.eqb c Ascii.zero.

(** The [switch] of str_to_char on the character after the backslash. *)
Definition escape_sequence (c : ascii) : option ascii :=
  if Ascii.eqb c "0" then Some "000"%char
  else if Ascii.eqb c "b" then Some "008"%char
  else if Ascii.eqb c "f" then Some "012"%char
  else if Ascii.eqb c "n" then Some "010"%char
  else if Ascii.eqb c "r" then Some "013"%char
  else if Ascii.eqb c "t" then Some "009"%char
  else if Ascii.eqb c "v" then Some "011"%char
  else if Ascii.eqb c "\" then Some "\"%char
  else if Ascii.eqb c "'" then Some "'"%char
  else if Ascii.eqb c "034" then Some "034"%char
  else None.

(** [char_t str_to_char(const char *s)] *)
Definition str_to_char {S} (s : string) : M S ascii :=
  let* cs :=
    if Ascii.eqb (peek s) "\" then  (* is an escape sequence *)
      let s := advance s in
      match escape_sequence (peek s) with
      | Some c => ret (c, s)
      | None => error ValueError
      end
    else  (* not an escape sequence *)
      if is_nul (peek s) then error SyntaxError
      else ret (peek s, s)
  in
  let s := advance (snd cs) in
  if negb (is_nul (peek s)) then error SyntaxError
  else ret (fst cs).

Section Conversions.
Context `{Libc}.

(** [int_t str_to_int(const char *s)] *)
Definition str_to_int {S} (s : string) : M S Z :=
  match strtol s with
  | (i, e, errno) =>
      if negb (is_nul (peek e)) || errno then error ValueError
      else ret (to_int_t i)
  end.

(** [float_t str_to_float(const char *s)] *)
Definition str_to_float {S} (s : string) : M S PrimFloat.float :=
  match strtod s with
  | (f, e, errno) =>
      if negb (is_nul (peek e)) || errno then error ValueError
      else ret f
  end.

(** [char_t obj_as_char(Object *op1)] *)
Definition obj_as_char (op1 : ptr) : M heap ascii :=
  let* op1 := deref_listnode op1 in
  let* o := load op1 in
  match data o with
  | CharData cval => ret cval
  | IntData ival => ret (int_to_char ival)
  | FloatData fval => ret (int_to_char (float_to_int fval))
  | StrData sptr => str_to_char sptr
  | _ => error ValueError
  end.

(** [int_t obj_as_int(Object *op1)] *)
Definition obj_as_int (op1 : ptr) : M heap Z :=
  let* op1 := deref_listnode op1 in
  let* o := load op1 in
  match data o with
  | CharData cval => ret (char_to_int cval)
  | IntData ival => ret ival
  | FloatData fval => ret (float_to_int fval)
  | StrData sptr => str_to_int sptr
  | _ => error ValueError
  end.

(** [float_t obj_as_float(Object *op1)] *)
Definition obj_as_float (op1 : ptr) : M heap PrimFloat.float :=
  let* op1 := deref_listnode op1 in
  let* o := load op1 in
  match data o with
  | CharData cval => ret (int_to_float (char_to_int cval))
  | IntData ival => ret (int_to_float ival)
  | FloatData fval => ret fval
  | StrData sptr => str_to_float sptr
  | _ => error ValueError
  end.

(** [char *obj_as_str(Object *op1)]: the buffer of a string object. *)
Definition obj_as_str (op1 : ptr) : M heap string :=
  let* op1 := deref_listnode op1 in
  let* o := load op1 in
  match data o with
  | StrData sptr => ret sptr
  | _ => error ValueError
  end.

(** [ListObject *obj_as_list(Object *op1)] *)
Definition obj_as_list (op1 : ptr) : M heap ptr :=
  let* op1 := deref_listnode op1 in
  let* o := load op1 in
  match data o with
  | ListData _ => ret op1
  | _ => error ValueError
  end.

(** [bool obj_as_bool(Object *op1)] *)
Definition obj_as_bool (op1 : ptr) : M heap bool :=
  let* op1 := deref_listnode op1 in
  let* o := load op1 in
  match data o with
  | CharData _ => let* c := obj_as_char op1 in ret (negb (is_nul c))
  | IntData _ => let* i := obj_as_int op1 in ret (negb (i =? 0))
  | FloatData _ => let* f := obj_as_float op1 in ret (float_to_bool f)
  | _ => error ValueError
  end.

End Conversions.

(** ** object.c: creation, copy and assignment *)

(** The value handed to a [set] or [vset] method through its variable
    arguments. *)
Inductive argument :=
| ArgChar (c : ascii)
| ArgInt (i : Z)
| ArgFloat (f : PrimFloat.float)
| ArgStr (s : string)
| ArgList (l : ptr)
| ArgObject (o : option ptr).

(** A new node that owns [x]. *)
Definition listnode_new (x : ptr) : M heap ptr :=
  let* node := obj_alloc LISTNODE_T in
  set_data node (ListNodeData (Some x)) ;;
  ret node.

(** The [set] and [vset] methods of the types ([none_set] and [none_vset]
    are in none.c and leave the object alone).  Modelled from the spec:
    scalars and strings store the value (a string's buffer is exclusively
    owned); "list -> list stores nodes owning freshly deep-copied
    children"; a node releases the object it owned and owns the new one.
    Reading an argument of the wrong type through va_arg is undefined. *)
Definition type_set (copy : ptr -> M heap ptr) (decref : ptr -> M heap unit)
    (obj : ptr) (arg : argument) : M heap unit :=
  let* o := load obj in
  match data o, arg with
  | CharData _, ArgChar c => set_data obj (CharData c)
  | IntData _, ArgInt i => set_data obj (IntData i)
  | FloatData _, ArgFloat f => set_data obj (FloatData f)
  | StrData _, ArgStr s => set_data obj (StrData s)
  | ListData old, ArgList src =>
      let* s := load src in
      match data s with
      | ListData nodes =>
          let* new := traverse (fun node =>
                              let* x := obj_from_listnode node in
                              let* c := copy x in
                              listnode_new c) nodes in
          for_each decref old ;;
          set_data obj (ListData new)
      | _ => fault
      end
  | ListNodeData old, ArgObject x =>
      match old with Some y => decref y | None => ret tt end ;;
      set_data obj (ListNodeData x)
  | NoneData, _ => ret tt
  | _, _ => fault
  end.

Section Objects.
Context `{Libc}.

(** [Object *obj_create(objecttype_t type, ...)], with the recursive calls
    of the list setter passed in. *)
Definition obj_create_with (copy : ptr -> M heap ptr) (decref : ptr -> M heap unit)
    (type : objecttype_t) (arg : argument) : M heap ptr :=
  let* obj := obj_alloc type in  (* sets refcount to 1 *)
  type_set copy decref obj arg ;;
  ret obj.

(** [Object *obj_copy(Object *op1)].  [fuel] bounds the nesting of lists. *)
Fixpoint obj_copy (fuel : nat) (op1 : ptr) : M heap ptr :=
  match fuel with
  | O => out_of_fuel
  | S n =>
      let create := obj_create_with (obj_copy n) (obj_decref n) in
      let* t := TYPE op1 in
      match t with
      | CHAR_T => let* c := obj_as_char op1 in create CHAR_T (ArgChar c)
      | INT_T => let* i := obj_as_int op1 in create INT_T (ArgInt i)
      | FLOAT_T => let* f := obj_as_float op1 in create FLOAT_T (ArgFloat f)
      | STR_T => let* s := obj_as_str op1 in create STR_T (ArgStr s)
      | LIST_T => let* l := obj_as_list op1 in create LIST_T (ArgList l)
      | LISTNODE_T => let* x := obj_from_listnode op1 in obj_copy n x
      | _ => error TypeError
      end
  end.

Definition obj_create (fuel : nat) : objecttype_t -> argument -> M heap ptr :=
  obj_create_with (obj_copy fuel) (obj_decref fuel).

(** [TYPEOBJ(obj)->set(obj, ...)] *)
Definition obj_set (fuel : nat) : ptr -> argument -> M heap unit :=
  type_set (obj_copy fuel) (obj_decref fuel).

(** [snprintf(buffer, BUFSIZE, "%c", c)]: a NUL ends the buffer at once. *)
Definition format_c (c : ascii) : string :=
  if is_nul c then EmptyString else String c EmptyString.

(** [Object *obj_to_strobj(Object *obj)] *)
Definition obj_to_strobj (fuel : nat) (obj : ptr) : M heap ptr :=
  let* t := TYPE obj in
  match t with
  | STR_T => obj_incref obj ;; ret obj
  | CHAR_T => let* c := obj_as_char obj in obj_create fuel STR_T (ArgStr (format_c c))
  | INT_T => let* i := obj_as_int obj in obj_create fuel STR_T (ArgStr (pretty i))
  | FLOAT_T => let* f := obj_as_float obj in obj_create fuel STR_T (ArgStr (format_G16 f))
  | NONE_T => obj_create fuel STR_T (ArgStr "None")
  | POSITION_T => obj_create fuel STR_T (ArgStr "")
  | _ => obj_create fuel STR_T (ArgStr "")
  end.

(** [void obj_assign(Object *op1, Object *op2)] *)
Definition obj_assign (fuel : nat) (op1 op2 : ptr) : M heap unit :=
  let* t := TYPE op1 in
  match t with
  | CHAR_T => let* c := obj_as_char op2 in obj_set fuel op1 (ArgChar c)
  | INT_T => let* i := obj_as_int op2 in obj_set fuel op1 (ArgInt i)
  | FLOAT_T => let* f := obj_as_float op2 in obj_set fuel op1 (ArgFloat f)
  | STR_T =>
      let* obj := obj_to_strobj fuel op2 in
      let* s := obj_as_str obj in
      obj_set fuel op1 (ArgStr s) ;;
      obj_decref fuel obj
  | LIST_T => let* l := obj_as_list op2 in obj_set fuel op1 (ArgList l)
  | LISTNODE_T => let* c := obj_copy fuel op2 in obj_set fuel op1 (ArgObject (Some c))
  | _ => error TypeError
  end.

End Objects.

(** ** object.c: operators *)

Section Operators.
Context `{Libc} `{NumberType} `{StrType} `{ListType}.

(** The shape shared by the arithmetic, relational and logical operators
    that admit numbers only:
    [if (isNumber(op1) && isNumber(op2)) return numbertype.f(op1, op2);
     else error(TypeError, ...);] after both operands left their list
    nodes. *)
Definition number_only (f : ptr -> ptr -> M heap ptr) (op1 op2 : ptr)
  : M heap ptr :=
  let* op1 := deref_listnode op1 in
  let* op2 := deref_listnode op2 in
  let* n1 := isNumber op1 in
  let* n2 := isNumber op2 in
  if n1 && n2 then f op1 op2
  else error TypeError.

(** [Object *obj_add(Object *op1, Object *op2)] *)
Definition obj_add (op1 op2 : ptr) : M heap ptr :=
  let* op1 := deref_listnode op1 in
  let* op2 := deref_listnode op2 in
  let* n1 := isNumber op1 in
  let* n2 := isNumber op2 in
  let* s1 := isString op1 in
  let* s2 := isString op2 in
  let* l1 := isList op1 in
  let* l2 := isList op2 in
  if n1 && n2 then number_add op1 op2
  else if s1 || s2 then str_concat op1 op2
  else if l1 && l2 then list_concat op1 op2
  else error TypeError.

(** [Object *obj_sub(Object *op1, Object *op2)] *)
Definition obj_sub : ptr -> ptr -> M heap ptr := number_only number_sub.

(** [Object *obj_mult(Object *op1, Object *op2)] *)
Definition obj_mult (op1 op2 : ptr) : M heap ptr :=
  let* op1 := deref_listnode op1 in
  let* op2 := deref_listnode op2 in
  let* n1 := isNumber op1 in
  let* n2 := isNumber op2 in
  let* s1 := isString op1 in
  let* s2 := isString op2 in
  let* l1 := isList op1 in
  let* l2 := isList op2 in
  if n1 && n2 then number_mul op1 op2
  else if (n1 || n2) && (s1 || s2) then str_repeat op1 op2
  else if (n1 || n2) && (l1 || l2) then list_repeat op1 op2
  else error TypeError.

(** [obj_divs], [obj_mod] *)
Definition obj_divs : ptr -> ptr -> M heap ptr := number_only number_div.
Definition obj_mod : ptr -> ptr -> M heap ptr := number_only number_mod.

(** The shape of the unary operators. *)
Definition number_only1 (f : ptr -> M heap ptr) (op1 : ptr) : M heap ptr :=
  let* op1 := deref_listnode op1 in
  let* n1 := isNumber op1 in
  if n1 then f op1
  else error TypeError.

(** [Object *obj_invert(Object *op1)] *)
Definition obj_invert : ptr -> M heap ptr := number_only1 number_inv.

(** The shape shared by obj_eql and obj_neq: numbers, strings and lists are
    compared by their type's method; "operands of different types are by
    definition not equal". *)
Definition equality (fuel : nat) (fnum fstr flist : ptr -> ptr -> M heap ptr)
    (different : Z) (op1 op2 : ptr) : M heap ptr :=
  let* op1 := deref_listnode op1 in
  let* op2 := deref_listnode op2 in
  let* n1 := isNumber op1 in
  let* n2 := isNumber op2 in
  let* s1 := isString op1 in
  let* s2 := isString op2 in
  let* l1 := isList op1 in
  let* l2 := isList op2 in
  if n1 && n2 then fnum op1 op2
  else if s1 && s2 then fstr op1 op2
  else if l1 && l2 then flist op1 op2
  else obj_create fuel INT_T (ArgInt different).

(** [Object *obj_eql(Object *op1, Object *op2)] *)
Definition obj_eql (fuel : nat) : ptr -> ptr -> M heap ptr :=
  equality fuel number_eql str_eql list_eql 0.

(** [Object *obj_neq(Object *op1, Object *op2)] *)
Definition obj_neq (fuel : nat) : ptr -> ptr -> M heap ptr :=
  equality fuel number_neq str_neq list_neq 1.

(** [obj_lss], [obj_leq], [obj_gtr], [obj_geq], [obj_or], [obj_and] *)
Definition obj_lss : ptr -> ptr -> M heap ptr := number_only number_lss.
Definition obj_leq : ptr -> ptr -> M heap ptr := number_only number_leq.
Definition obj_gtr : ptr -> ptr -> M heap ptr := number_only number_gtr.
Definition obj_geq : ptr -> ptr -> M heap ptr := number_only number_geq.
Definition obj_or : ptr -> ptr -> M heap ptr := number_only number_or.
Definition obj_and : ptr -> ptr -> M heap ptr := number_only number_and.

(** [Object *obj_negate(Object *op1)] *)
Definition obj_negate : ptr -> M heap ptr := number_only1 number_negate.

(** [Object *obj_item(Object *sequence, int index)] *)
Definition obj_item (sequence : ptr) (index : Z) : M heap ptr :=
  let* sequence := deref_listnode sequence in
  let* t := TYPE sequence in
  if bool_decide (t = STR_T) then str_item sequence index
  else if bool_decide (t = LIST_T) then list_item sequence index
  else error TypeError.

(** [Object *obj_slice(Object *sequence, int start, int end)] *)
Definition obj_slice (sequence : ptr) (start stop : Z) : M heap ptr :=
  let* sequence := deref_listnode sequence in
  let* t := TYPE sequence in
  if bool_decide (t = STR_T) then str_slice sequence start stop
  else if bool_decide (t = LIST_T) then list_slice sequence start stop
  else error TypeError.

(** [int_t obj_length(Object *sequence)] *)
Definition obj_length (fuel : nat) (sequence : ptr) : M heap Z :=
  let* sequence := deref_listnode sequence in
  let* t := TYPE sequence in
  let* obj :=
    if bool_decide (t = STR_T) then str_length sequence
    else if bool_decide (t = LIST_T) then list_length sequence
    else error TypeError in
  let* len := obj_as_int obj in
  obj_decref fuel obj ;;
  ret len.

(** The [for] loop of obj_in, [remaining] iterations before [i] reaches
    [len]. *)
Fixpoint obj_in_loop (fuel : nat) (remaining : nat) (i : Z) (op1 op2 : ptr)
    (result : option ptr) : M heap (option ptr) :=
  match remaining with
  | O => ret result
  | S k =>
      match result with Some r => obj_decref fuel r | None => ret tt end ;;
      let* item := obj_item op2 (to_int i) in
      let* result := obj_eql fuel op1 item in
      obj_decref fuel item ;;
      let* v := obj_as_int result in
      if v =? 1 then ret (Some result)
      else obj_in_loop fuel k (i + 1) op1 op2 (Some result)
  end.

(** [Object *obj_in(Object *op1, Object *op2)].  The result starts as NULL
    and is what the last comparison returned. *)
Definition obj_in (fuel : nat) (op1 op2 : ptr) : M heap (option ptr) :=
  let* op1 := deref_listnode op1 in
  let* op2 := deref_listnode op2 in
  let* sq := isSequence op2 in
  when (negb sq) (error TypeError) ;;
  let* len := obj_length fuel op2 in
  obj_in_loop fuel (Z.to_nat len) 0 op1 op2 None.

End Operators.

(** ** The interpreter's globals *)

(** One level of the identifier table: the names declared there, each with
    the object bound to it ([id->object], NULL when unbound). *)
Abbreviation frame := (list (string * option positive)).

(** What the scanner, the reader, the identifier table and the expression
    evaluator work on: everything but the variables private to parser.c. *)
Record Shared := mkShared {
  objects : heap;
  source : list (token_t * string);  (* the tokens of the source text *)
  offset : nat;                      (* reader: how many of them were read *)
  token : token_t;                   (* scanner.token *)
  lexeme : string;                   (* scanner.string *)
  levels : list frame;               (* scope levels, the module's first *)
  stdin : list string;               (* the lines fgets will deliver *)
  stdout : list string               (* the texts printed so far *)
}.

(** With parser.c's [static int do_break, do_continue] and the return slot
    ([return_value]; [return_address] is the nesting of [function_call]). *)
Record State := mkState {
  shared : Shared;
  do_break : bool;
  do_continue : bool;
  return_value : option ptr
}.

Definition set_objects (h : heap) (sh : Shared) : Shared :=
  mkShared h (source sh) (offset sh) (token sh) (lexeme sh) (levels sh)
           (stdin sh) (stdout sh).
Definition set_cursor (n : nat) (t : token_t) (str : string) (sh : Shared) : Shared :=
  mkShared (objects sh) (source sh) n t str (levels sh) (stdin sh) (stdout sh).
Definition set_levels (l : list frame) (sh : Shared) : Shared :=
  mkShared (objects sh) (source sh) (offset sh) (token sh) (lexeme sh) l
           (stdin sh) (stdout sh).
Definition set_stdin (l : list string) (sh : Shared) : Shared :=
  mkShared (objects sh) (source sh) (offset sh) (token sh) (lexeme sh) (levels sh)
           l (stdout sh).
Definition set_stdout (l : list string) (sh : Shared) : Shared :=
  mkShared (objects sh) (source sh) (offset sh) (token sh) (lexeme sh) (levels sh)
           (stdin sh) l.

Definition set_shared (sh : Shared) (s : State) : State :=
  mkState sh (do_break s) (do_continue s) (return_value s).
Definition set_do_break (b : bool) (s : State) : State :=
  mkState (shared s) b (do_continue s) (return_value s).
Definition set_do_continue (b : bool) (s : State) : State :=
  mkState (shared s) (do_break s) b (return_value s).
Definition set_return_value (v : option ptr) (s : State) : State :=
  mkState (shared s) (do_break s) (do_continue s) v.

Definition modify {S} (f : S -> S) : M S unit := fun s => Ok tt (f s).

(** A function of the object layer run on the interpreter's heap.  The
    only longjmp of the sources is in return_stmt: below parser.c a [Jump]
    has no meaning. *)
Definition in_heap {A} (m : M heap A) : M Shared A :=
  fun sh => match m (objects sh) with
            | Ok a h => Ok a (set_objects h sh)
            | Jump _ => Abort Fault
            | Abort x => Abort x
            end.

(** A function of the scanner, the reader or the identifier table run on
    the interpreter's globals. *)
Definition in_shared {A} (m : M Shared A) : M State A :=
  fun s => match m (shared s) with
           | Ok a sh => Ok a (set_shared sh s)
           | Jump _ => Abort Fault
           | Abort x => Abort x
           end.

(** Use of a pointer that must not be NULL. *)
Definition nonnull {S A} (p : option A) : M S A :=
  match p with
  | Some a => ret a
  | None => fault
  end.

(** ** Scanner and reader (scanner.c and reader.c are not part of the sources)

    Modelled from the spec: the scanner "exposes [token] (kind), [string]
    (lexeme), and [next()] which advances and sets both"; past the end of
    the source it delivers ENDMARKER. *)
Definition scanner_next : M Shared unit :=
  modify (fun sh =>
    match source sh !! offset sh with
    | Some (t, str) => set_cursor (S (offset sh)) t str sh
    | None => set_cursor (offset sh) ENDMARKER EmptyString sh
    end).

(** Modelled from the spec: "save() - return a fresh position value
    capturing enough state to resume tokenization at exactly this point ...
    Refcount 1." *)
Definition reader_save : M Shared ptr :=
  let* p := in_heap (obj_alloc POSITION_T) in
  let* sh := get in
  in_heap (set_data p (PositionData (mkPosition (offset sh) (token sh) (lexeme sh)))) ;;
  ret p.

(** Modelled from the spec: "jump(p) - restore reader to p"; the callers in
    parser.c go on with the token that was current at the save. *)
Definition reader_jump (p : ptr) : M Shared unit :=
  let* o := in_heap (load p) in
  match data o with
  | PositionData pos =>
      modify (set_cursor (pos_offset pos) (pos_token pos) (pos_string pos))
  | _ => fault
  end.

(** Modelled from the spec: "reset() - rewind to start of current file";
    the first token is read by the next advance. *)
Definition reader_reset : M Shared unit :=
  modify (fun sh => set_cursor 0 (token sh) (lexeme sh) sh).

(** ** Identifier table (identifier.c is not part of the sources) *)

(** An [Identifier *]: the level the identifier was declared at, counted
    from the module's, and its name. *)
Record Identifier := mkIdentifier {
  id_level : nat;
  id_name : string
}.

Fixpoint frame_lookup (name : string) (f : frame) : option (option ptr) :=
  match f with
  | [] => None
  | (n, o) :: f' => if String.eqb n name then Some o else frame_lookup name f'
  end.

Fixpoint frame_update (name : string) (o : option ptr) (f : frame) : frame :=
  match f with
  | [] => []
  | (n, o') :: f' =>
      if String.eqb n name then (n, o) :: f' else (n, o') :: frame_update name o f'
  end.

(** Modelled from the spec: "add(name) - insert in current (innermost)
    frame; fails ... if name already present there" (with NULL; the caller
    raises NameError). *)
Definition identifier_add (name : string) : M Shared (option Identifier) :=
  let* sh := get in
  match last (levels sh) with
  | None => fault
  | Some f =>
      match frame_lookup name f with
      | Some _ => ret None
      | None =>
          let level := pred (length (levels sh)) in
          modify (set_levels (<[level := f ++ [(name, None)]]> (levels sh))) ;;
          ret (Some (mkIdentifier level name))
      end
  end.

(** The innermost level, of the first [n], that declares [name]. *)
Fixpoint search_levels (name : string) (l : list frame) (n : nat) : option Identifier :=
  match n with
  | O => None
  | S k =>
      match l !! k with
      | Some f =>
          match frame_lookup name f with
          | Some _ => Some (mkIdentifier k name)
          | None => search_levels name l k
          end
      | None => search_levels name l k
      end
  end.

(** Modelled from the spec: "search(name) - scan innermost-first across all
    frames; return first hit or none". *)
Definition identifier_search (name : string) : M Shared (option Identifier) :=
  let* sh := get in
  ret (search_levels name (levels sh) (length (levels sh))).

(** [id->object] *)
Definition identifier_object (id : Identifier) : M Shared (option ptr) :=
  let* sh := get in
  match levels sh !! id_level id with
  | Some f =>
      match frame_lookup (id_name id) f with
      | Some o => ret o
      | None => fault
      end
  | None => fault
  end.

Definition identifier_set_object (id : Identifier) (o : option ptr) : M Shared unit :=
  let* sh := get in
  match levels sh !! id_level id with
  | Some f =>
      modify (set_levels (<[id_level id := frame_update (id_name id) o f]> (levels sh)))
  | None => fault
  end.

(** Modelled from the spec: "bind(id, value) - attach value to id; previous
    attachment is decref'd; new attachment is incref'd". *)
Definition identifier_bind (fuel : nat) (id : Identifier) (obj : ptr) : M Shared unit :=
  let* old := identifier_object id in
  match old with Some o => in_heap (obj_decref fuel o) | None => ret tt end ;;
  in_heap (obj_incref obj) ;;
  identifier_set_object id (Some obj).

(** Modelled from the spec: "unbind(id) - decref and detach". *)
Definition identifier_unbind (fuel : nat) (id : Identifier) : M Shared unit :=
  let* old := identifier_object id in
  match old with Some o => in_heap (obj_decref fuel o) | None => ret tt end ;;
  identifier_set_object id None.

(** Modelled from the spec: "append_level(), remove_level() - push/pop a
    frame; pop releases every binding in it". *)
Definition scope_append_level : M Shared unit :=
  modify (fun sh => set_levels (levels sh ++ [[]]) sh).

Definition scope_remove_level (fuel : nat) : M Shared unit :=
  let* sh := get in
  match last (levels sh) with
  | None => fault
  | Some f =>
      for_each (fun b : string * option ptr =>
               match snd b with
               | Some o => in_heap (obj_decref fuel o)
               | None => ret tt
               end) f ;;
      modify (fun sh => set_levels (removelast (levels sh)) sh)
  end.

(** ** List nodes of an argument list (list.c is not part of the sources) *)

(** [listnode_append(list, obj)]: a new node that owns [obj], at the end. *)
Definition listnode_append (list : ptr) (obj : ptr) : M heap unit :=
  let* l := load list in
  match data l with
  | ListData nodes =>
      let* node := listnode_new obj in
      set_data list (ListData (nodes ++ [node]))
  | _ => fault
  end.

(** [listnode_remove(list, index)]: unlinks the node and hands its object
    to the caller; NULL when the list has no such node. *)
Definition listnode_remove (list : ptr) (index : nat) : M heap (option ptr) :=
  let* l := load list in
  match data l with
  | ListData nodes =>
      match nodes !! index with
      | None => ret None
      | Some node =>
          let* x := obj_from_listnode node in
          set_data list (ListData (delete index nodes)) ;;
          release node ;;
          ret (Some x)
      end
  | _ => fault
  end.

(** ** The expression evaluator (expression.c is not part of the sources)

    parser.c calls [comma_expr()] and [assignment_expr()], and the evaluator
    calls back [function_call(addr)] for a call [IDENTIFIER ( args )].  A
    run of the evaluator is therefore taken as a parameter, in the form of
    a tree: it ends with a result (for an expression an object, or NULL),
    stops, or asks for a call of the function at [addr] and goes on with
    what the call returned.  The evaluator works on the shared globals;
    [do_break], [do_continue] are static in parser.c, and the return slot is
    written by parser.c only. *)
Inductive Expr (A : Type) :=
| Value (a : A) (sh : Shared)
| Stop (x : abort)
| Call (addr : ptr) (sh : Shared) (k : option ptr -> Shared -> Expr A).
Arguments Value {A} a sh.
Arguments Stop {A} x.
Arguments Call {A} addr sh k.

Class Evaluator := {
  comma_expr : Shared -> Expr (option ptr);
  assignment_expr : Shared -> Expr (option ptr)
}.

(** The rest of what parser.c calls: the [print] methods of the types
    (except none.c's), and reader.import(), which reads another source file
    to its end. *)
Class Collaborators := {
  type_print : ptr -> M heap string;
  reader_import : string -> M State unit
}.

(** [void obj_print(Object *obj)]; [none_print] writes "none". *)
Definition obj_print `{Collaborators} (obj : option ptr) : M Shared unit :=
  let* obj := nonnull obj in  (* assert(obj) *)
  let* t := in_heap (TYPE obj) in
  let* text := if bool_decide (t = NONE_T) then ret "none"%string
               else in_heap (type_print obj) in
  modify (fun sh => set_stdout (stdout sh ++ [text]) sh).

(** [buffer[strcspn(buffer, "\r\n")] = 0] *)
Fixpoint strip_newline (s : string) : string :=
  match s with
  | EmptyString => EmptyString
  | String c s' =>
      if Ascii.eqb c "013" || Ascii.eqb c "010" then EmptyString
      else String c (strip_newline s')
  end.

(** [Object *obj_scan(objecttype_t type)]: fgets leaves the buffer empty at
    the end of the input. *)
Definition obj_scan `{Libc} (fuel : nat) (type : objecttype_t) : M Shared ptr :=
  let* sh := get in
  let line := match stdin sh with l :: _ => l | [] => EmptyString end in
  modify (set_stdin (tail (stdin sh))) ;;
  let buffer := strip_newline line in
  match type with
  | CHAR_T => let* c := str_to_char buffer in
              in_heap (obj_create fuel CHAR_T (ArgChar c))
  | INT_T => let* i := str_to_int buffer in
             in_heap (obj_create fuel INT_T (ArgInt i))
  | FLOAT_T => let* f := str_to_float buffer in
               in_heap (obj_create fuel FLOAT_T (ArgFloat f))
  | STR_T => in_heap (obj_create fuel STR_T (ArgStr buffer))
  | _ => error TypeError
  end.

(** ** parser.c *)

Definition current_token : M State token_t :=
  let* s := get in ret (token (shared s)).
Definition current_string : M State string :=
  let* s := get in ret (lexeme (shared s)).

(** [int accept(token_t t)] *)
Definition accept (t : token_t) : M State bool :=
  let* tok := current_token in
  if token_eqb tok t then in_shared scanner_next ;; ret true
  else ret false.

(** [int expect(token_t t)] *)
Definition expect (t : token_t) : M State unit :=
  let* ok := accept t in
  if ok then ret tt else error SyntaxError.

(** The loop that skips to the DEDENT closing the current block, in
    skip_block and in block:
    [do { scanner.next(); if (token == INDENT) level++;
          if (token == DEDENT) level--; }
     while (level && token != ENDMARKER);]
    [fuel] counts the tokens left and the ENDMARKER. *)
Fixpoint skip_to_dedent (fuel : nat) (level : Z) : M Shared unit :=
  match fuel with
  | O => out_of_fuel
  | S n =>
      scanner_next ;;
      let* sh := get in
      let level := if token_eqb (token sh) INDENT then level + 1 else level in
      let level := if token_eqb (token sh) DEDENT then level - 1 else level in
      if negb (level =? 0) && negb (token_eqb (token sh) ENDMARKER)
      then skip_to_dedent n level
      else ret tt
  end.

Definition tokens_left (sh : Shared) : nat := S (length (source sh) - offset sh).

Definition skip_rest_of_block : M State unit :=
  in_shared (let* sh := get in skip_to_dedent (tokens_left sh) 1).

(** [static void skip_block(void)] *)
Definition skip_block : M State unit :=
  expect NEWLINE ;;
  expect INDENT ;;
  skip_rest_of_block ;;
  in_shared scanner_next.

(** [while (token != NEWLINE && token != ENDMARKER) scanner.next();] *)
Fixpoint skip_line (fuel : nat) : M Shared unit :=
  match fuel with
  | O => out_of_fuel
  | S n =>
      let* sh := get in
      if negb (token_eqb (token sh) NEWLINE) && negb (token_eqb (token sh) ENDMARKER)
      then scanner_next ;; skip_line n
      else ret tt
  end.

(** [static void skip_function(void)] *)
Definition skip_function : M State unit :=
  expect IDENTIFIER ;;
  expect LPAR ;;
  in_shared (let* sh := get in skip_line (tokens_left sh)) ;;
  skip_block.

(** [longjmp(return_address, 1)] and [if (setjmp(return_address) == 0) m;] *)
Definition longjmp {A} : M State A := fun s => Jump s.
Definition setjmp (m : M State unit) : M State unit :=
  fun s => match m s with
           | Jump s' => Ok tt s'
           | r => r
           end.

Section Level.
Context `{Libc} `{NumberType} `{StrType} `{ListType} `{Evaluator} `{Collaborators}.

(** The bound on loops and nested destruction at this level of calls, and
    the two functions of parser.c that the others reach recursively. *)
Variable fuel : nat.
Variable statement : M State unit.
Variable function_call : ptr -> M State (option ptr).

(** A run of the evaluator, its calls served by [function_call]. *)
Fixpoint eval {A} (e : Expr A) : M State A :=
  fun s =>
    match e with
    | Value a sh => Ok a (set_shared sh s)
    | Stop x => Abort x
    | Call addr sh k =>
        match function_call addr (set_shared sh s) with
        | Ok obj s' => eval (k obj (shared s')) s'
        | Jump s' => Jump s'
        | Abort x => Abort x
        end
    end.

Definition run_comma_expr : M State (option ptr) :=
  fun s => eval (comma_expr (shared s)) s.
Definition run_assignment_expr : M State (option ptr) :=
  fun s => eval (assignment_expr (shared s)) s.

Definition decref (obj : option ptr) : M State unit :=
  let* obj := nonnull obj in in_shared (in_heap (obj_decref fuel obj)).

(** The [while (1)] of block. *)
Fixpoint block_loop (n : nat) : M State unit :=
  match n with
  | O => out_of_fuel
  | S n =>
      statement ;;
      let* s := get in
      if token_eqb (token (shared s)) DEDENT || token_eqb (token (shared s)) ENDMARKER
      then ret tt
      else if do_break s || do_continue s then skip_rest_of_block
      else block_loop n
  end.

(** [static void block(void)] *)
Definition block : M State unit :=
  expect NEWLINE ;;
  expect INDENT ;;
  block_loop fuel.

(** [static void expression_stmnt(void)] *)
Definition expression_stmnt : M State unit :=
  let* obj := run_comma_expr in
  decref obj ;;
  expect NEWLINE.

(** The [while (1)] of variable_declaration. *)
Fixpoint variable_declaration_loop (n : nat) (type : objecttype_t) : M State unit :=
  match n with
  | O => out_of_fuel
  | S n =>
      let* tok := current_token in
      when (negb (token_eqb tok IDENTIFIER)) (error SyntaxError) ;;
      let* name := current_string in
      let* id := in_shared (identifier_add name) in
      let* id := match id with Some id => ret id | None => error NameError end in
      let* obj := in_shared (in_heap (obj_alloc type)) in
      in_shared (identifier_bind fuel id obj) ;;
      in_shared scanner_next ;;
      let* eq := accept EQUAL in
      when eq (let* obj := run_assignment_expr in
               let* obj := nonnull obj in
               let* target := in_shared (identifier_object id) in
               let* target := nonnull target in
               in_shared (in_heap (obj_assign fuel target obj)) ;;
               decref (Some obj)) ;;
      let* nl := accept NEWLINE in
      if nl then ret tt
      else expect COMMA ;; variable_declaration_loop n type
  end.

(** [static void variable_declaration(objecttype_t type)] *)
Definition variable_declaration : objecttype_t -> M State unit :=
  variable_declaration_loop fuel.

(** [static int condition(void)] *)
Definition condition : M State bool :=
  let* obj := run_comma_expr in
  let* o := nonnull obj in
  let* result := in_shared (in_heap (obj_as_bool o)) in
  decref obj ;;
  ret result.

(** [static void if_stmnt(void)] *)
Definition if_stmnt : M State unit :=
  let* c := condition in
  if c then
    block ;;
    expect DEDENT ;;
    let* e := accept ELSE in
    when e skip_block
  else
    skip_block ;;
    let* e := accept ELSE in
    when e (block ;; expect DEDENT).

(** [while (condition() && !do_break) { block(); do_continue = 0;
    reader.jump(loop); }] *)
Fixpoint while_loop (n : nat) (loop : ptr) : M State unit :=
  match n with
  | O => out_of_fuel
  | S n =>
      let* c := condition in
      let* s := get in
      if c && negb (do_break s) then
        block ;;
        modify (set_do_continue false) ;;
        in_shared (reader_jump loop) ;;
        while_loop n loop
      else ret tt
  end.

(** [static void while_stmnt(void)] *)
Definition while_stmnt : M State unit :=
  modify (set_do_continue false) ;;
  modify (set_do_break false) ;;
  let* loop := in_shared reader_save in
  while_loop fuel loop ;;
  modify (set_do_break false) ;;
  skip_block ;;
  decref (Some loop).

(** [do { reader.jump(loop); block(); do_continue = 0; expect(DEDENT);
    expect(WHILE); } while (condition() && !do_break);] *)
Fixpoint do_loop (n : nat) (loop : ptr) : M State unit :=
  match n with
  | O => out_of_fuel
  | S n =>
      in_shared (reader_jump loop) ;;
      block ;;
      modify (set_do_continue false) ;;
      expect DEDENT ;;
      expect WHILE ;;
      let* c := condition in
      let* s := get in
      if c && negb (do_break s) then do_loop n loop
      else ret tt
  end.

(** [static void do_stmnt(void)] *)
Definition do_stmnt : M State unit :=
  let* tok := current_token in
  when (negb (token_eqb tok NEWLINE)) (error SyntaxError) ;;
  modify (set_do_continue false) ;;
  modify (set_do_break false) ;;
  let* loop := in_shared reader_save in
  do_loop fuel loop ;;
  modify (set_do_break false) ;;
  expect NEWLINE ;;
  decref (Some loop).

(** [for (int_t i = 0; i < len && !do_break; i++) { identifier.bind(id,
    obj_item(sequence, i)); block(); identifier.unbind(id); do_continue = 0;
    reader.jump(loop); }], [remaining] iterations before [i] reaches
    [len]. *)
Fixpoint for_loop (remaining : nat) (i : Z) (id : option Identifier)
    (sequence : option ptr) (loop : ptr) : M State unit :=
  match remaining with
  | O => ret tt
  | S k =>
      let* s := get in
      if negb (do_break s) then
        let* sq := nonnull sequence in
        let* item := in_shared (in_heap (obj_item sq (to_int i))) in
        let* ident := nonnull id in
        in_shared (identifier_bind fuel ident item) ;;
        block ;;
        in_shared (identifier_unbind fuel ident) ;;
        modify (set_do_continue false) ;;
        in_shared (reader_jump loop) ;;
        for_loop k (i + 1) id sequence loop
      else ret tt
  end.

(** for_stmnt up to the check for the NEWLINE: the identifier, the
    sequence and its length. *)
Definition for_header : M State (option Identifier * option ptr * Z) :=
  let* tok := current_token in
  let* id :=
    if token_eqb tok IDENTIFIER then
      let* name := current_string in
      let* id := in_shared (identifier_search name) in
      match id with
      | Some id => ret (Some id)
      | None => in_shared (identifier_add name)
      end
    else ret None in
  expect IDENTIFIER ;;
  expect IN ;;
  let* sequence := run_comma_expr in
  let* sq := nonnull sequence in
  let* len := in_shared (in_heap (obj_length fuel sq)) in
  let* tok := current_token in
  when (negb (token_eqb tok NEWLINE)) (error SyntaxError) ;;
  ret (id, sequence, len).

(** for_stmnt from [do_break = do_continue = 0] on. *)
Definition for_iterate (id : option Identifier) (sequence : option ptr) (len : Z)
  : M State unit :=
  modify (set_do_continue false) ;;
  modify (set_do_break false) ;;
  let* loop := in_shared reader_save in
  for_loop (Z.to_nat len) 0 id sequence loop ;;
  modify (set_do_break false) ;;
  skip_block ;;
  decref (Some loop).

(** [static void for_stmnt(void)] *)
Definition for_stmnt : M State unit :=
  let* h := for_header in
  match h with
  | (id, sequence, len) => for_iterate id sequence len
  end.

(** The [do ... while (accept(COMMA))] of import_stmt. *)
Fixpoint import_loop (n : nat) : M State unit :=
  match n with
  | O => out_of_fuel
  | S n =>
      let* obj := run_assignment_expr in
      let* pos := in_shared reader_save in
      let* o := nonnull obj in
      let* path := in_shared (in_heap (obj_as_str o)) in
      reader_import path ;;
      in_shared (reader_jump pos) ;;
      decref (Some pos) ;;
      decref obj ;;
      let* more := accept COMMA in
      if more then import_loop n else ret tt
  end.

(** [static void import_stmt(void)] *)
Definition import_stmt : M State unit :=
  import_loop fuel ;;
  expect NEWLINE.

(** The [do ... while (accept(COMMA))] of print_stmnt. *)
Fixpoint print_loop (n : nat) : M State unit :=
  match n with
  | O => out_of_fuel
  | S n =>
      let* obj := run_assignment_expr in
      in_shared (obj_print obj) ;;
      decref obj ;;
      let* more := accept COMMA in
      if more then print_loop n else ret tt
  end.

(** [static void print_stmnt(void)] *)
Definition print_stmnt : M State unit :=
  print_loop fuel ;;
  expect NEWLINE.

(** The [do ... while (accept(COMMA))] of input_stmnt. *)
Fixpoint input_loop (n : nat) : M State unit :=
  match n with
  | O => out_of_fuel
  | S n =>
      let* tok := current_token in
      when (token_eqb tok STR)
           (let* prompt := current_string in
            modify (fun s => set_shared (set_stdout (stdout (shared s) ++ [prompt])
                                                    (shared s)) s) ;;
            in_shared scanner_next) ;;
      let* tok := current_token in
      when (negb (token_eqb tok IDENTIFIER)) (error SyntaxError) ;;
      let* name := current_string in
      let* id := in_shared (identifier_search name) in
      let* id := match id with Some id => ret id | None => error NameError end in
      let* target := in_shared (identifier_object id) in
      let* target := nonnull target in
      let* type := in_shared (in_heap (TYPE target)) in
      let* obj := in_shared (obj_scan fuel type) in
      in_shared (identifier_bind fuel id obj) ;;
      accept IDENTIFIER ;;
      let* more := accept COMMA in
      if more then input_loop n else ret tt
  end.

(** [static void input_stmnt(void)] *)
Definition input_stmnt : M State unit :=
  input_loop fuel ;;
  expect NEWLINE.

(** The [while (scanner.token != RPAR)] of push_arguments. *)
Fixpoint push_arguments_loop (n : nat) (list : ptr) : M State unit :=
  match n with
  | O => out_of_fuel
  | S n =>
      let* tok := current_token in
      if negb (token_eqb tok RPAR) then
        let* obj := run_assignment_expr in
        let* o := nonnull obj in
        let* c := in_shared (in_heap (obj_copy fuel o)) in
        in_shared (in_heap (listnode_append list c)) ;;
        decref obj ;;
        let* tok := current_token in
        (if token_eqb tok RPAR then ret tt else expect COMMA) ;;
        push_arguments_loop n list
      else ret tt
  end.

(** [static ListObject *push_arguments(void)] *)
Definition push_arguments : M State ptr :=
  let* list := in_shared (in_heap (obj_alloc LIST_T)) in
  expect LPAR ;;
  push_arguments_loop fuel list ;;
  ret list.

(** The [while (scanner.token != RPAR)] of pop_arguments. *)
Fixpoint pop_arguments_loop (n : nat) (list : ptr) : M State unit :=
  match n with
  | O => out_of_fuel
  | S n =>
      let* tok := current_token in
      if negb (token_eqb tok RPAR) then
        when (negb (token_eqb tok IDENTIFIER)) (error SyntaxError) ;;
        let* name := current_string in
        let* id := in_shared (identifier_add name) in
        let* id := match id with Some id => ret id | None => error NameError end in
        let* obj := in_shared (in_heap (listnode_remove list 0)) in
        let* obj := match obj with Some obj => ret obj | None => error SyntaxError end in
        in_shared (identifier_bind fuel id obj) ;;
        expect IDENTIFIER ;;
        accept COMMA ;;
        pop_arguments_loop n list
      else ret tt
  end.

(** [static void pop_arguments(ListObject *list)] *)
Definition pop_arguments (list : ptr) : M State unit :=
  expect LPAR ;;
  pop_arguments_loop fuel list.

(** [static void return_stmt(void)] *)
Definition return_stmt : M State unit :=
  let* tok := current_token in
  (if token_eqb tok NEWLINE then
     let* zero := in_shared (in_heap (obj_create fuel INT_T (ArgInt 0))) in
     modify (set_return_value (Some zero))
   else
     let* obj := run_comma_expr in
     modify (set_return_value obj)) ;;
  expect NEWLINE ;;
  longjmp.

(** [void statement(void)], one level down. *)
Definition statement_body : M State unit :=
  let* b := accept DEFCHAR in if b then variable_declaration CHAR_T else
  let* b := accept DEFINT in if b then variable_declaration INT_T else
  let* b := accept DEFFLOAT in if b then variable_declaration FLOAT_T else
  let* b := accept DEFSTR in if b then variable_declaration STR_T else
  let* b := accept DEFLIST in if b then variable_declaration LIST_T else
  let* b := accept DEFFUNC in if b then skip_function else
  let* b := accept FOR in if b then for_stmnt else
  let* b := accept DO in if b then do_stmnt else
  let* b := accept IF in if b then if_stmnt else
  let* b := accept IMPORT in if b then import_stmt else
  let* b := accept INPUT in if b then input_stmnt else
  let* b := accept PASS in if b then expect NEWLINE else
  let* b := accept PRINT in if b then print_stmnt else
  let* b := accept RETURN in if b then return_stmt else
  let* b := accept DEDENT in if b then return_stmt else
  let* b := accept WHILE in if b then while_stmnt else
  let* b := accept BREAK in if b then modify (set_do_break true) else
  let* b := accept CONTINUE in if b then modify (set_do_continue true) else
  let* b := accept ENDMARKER in if b then ret tt else
  expression_stmnt.

(** [Object *function_call(PositionObject *addr)], one level down. *)
Definition function_call_body (addr : ptr) : M State (option ptr) :=
  let* arglist := push_arguments in
  (* token is now RPAR of function call *)
  in_shared scope_append_level ;;
  let* return_to := in_shared reader_save in  (* continue here after return *)
  in_shared (reader_jump addr) ;;  (* jump to function definition *)
  expect IDENTIFIER ;;
  pop_arguments arglist ;;
  expect RPAR ;;
  setjmp block ;;
  (* now returned from function *)
  let* s := get in
  when (bool_decide (return_value s = None))
       (let* zero := in_shared (in_heap (obj_create fuel INT_T (ArgInt 0))) in
        modify (set_return_value (Some zero))) ;;
  decref (Some arglist) ;;
  in_shared (reader_jump return_to) ;;  (* continue at end of function call *)
  accept RPAR ;;
  in_shared (scope_remove_level fuel) ;;
  decref (Some return_to) ;;
  let* s := get in
  let obj := return_value s in
  modify (set_return_value None) ;;
  ret obj.

End Level.

Section Interpreter.
Context `{Libc} `{NumberType} `{StrType} `{ListType} `{Evaluator} `{Collaborators}.

(** [statement] and [function_call]: [fuel] bounds the nesting of
    statements and calls, the iterations of each loop, and the nesting of
    copies and destructions. *)
Fixpoint statement (fuel : nat) (s : State) {struct fuel} : result State unit :=
  match fuel with
  | O => Abort OutOfFuel
  | S n => statement_body n (statement n) (function_call n) s
  end
with function_call (fuel : nat) (addr : ptr) (s : State) {struct fuel}
  : result State (option ptr) :=
  match fuel with
  | O => Abort OutOfFuel
  | S n => function_call_body n (statement n) (function_call n) addr s
  end.

(** The [do ... while (scanner.token != ENDMARKER)] of
    function_declaration. *)
Fixpoint function_declaration_loop (n : nat) : M State unit :=
  match n with
  | O => out_of_fuel
  | S n =>
      let* def := accept DEFFUNC in
      (if def then
         let* tok := current_token in
         when (negb (token_eqb tok IDENTIFIER)) (error SyntaxError) ;;
         let* name := current_string in
         let* id := in_shared (identifier_add name) in
         let* id := match id with Some id => ret id | None => error NameError end in
         let* pos := in_shared reader_save in
         in_shared (identifier_bind n id pos) ;;
         skip_function
       else in_shared scanner_next) ;;
      let* tok := current_token in
      if negb (token_eqb tok ENDMARKER) then function_declaration_loop n
      else ret tt
  end.

(** [static void function_declaration(void)] (the debug switches left
    out). *)
Definition function_declaration (fuel : nat) : M State unit :=
  in_shared reader_reset ;;
  function_declaration_loop fuel ;;
  in_shared reader_reset.

(** The [while (1)] of parser. *)
Fixpoint parser_loop (n : nat) : M State unit :=
  match n with
  | O => out_of_fuel
  | S n =>
      statement n ;;
      let* e := accept ENDMARKER in
      if e then ret tt else parser_loop n
  end.

(** [void parser(void)].  A [Jump] out of it is a [return] outside any
    function, which ends the run in main(). *)
Definition parser (fuel : nat) : M State unit :=
  function_declaration fuel ;;
  in_shared scanner_next ;;
  parser_loop fuel.

End Interpreter.

(** ** The queue of live objects (object.c, DEBUG builds)

    With DEBUG defined every object carries two more fields, [prevobj] and
    [nextobj], and object.c keeps two static pointers, [head] and [tail].
    The fields of the objects are a map from pointers; a pointer outside the
    map is not an allocated object, and reading or writing its fields is a
    fault, as for NULL. *)
Module ObjectQueue.

(** The link fields of one object. *)
Record Links := mkLinks { prevobj : option ptr; nextobj : option ptr }.

(** The link fields of the allocated objects and the two statics. *)
Record Queue := mkQueue {
  links : gmap positive Links;
  head : option ptr;
  tail : option ptr
}.

(** [obj->prevobj] and [obj->nextobj], read. *)
Definition get_links (obj : option ptr) : M Queue Links :=
  let* p := nonnull obj in
  let* q := get in
  nonnull (links q !! p).

(** [obj->prevobj = v] *)
Definition set_prevobj (obj : option ptr) (v : option ptr) : M Queue unit :=
  let* l := get_links obj in
  let* p := nonnull obj in
  modify (fun q => mkQueue (<[p := mkLinks v (nextobj l)]> (links q)) (head q) (tail q)).

(** [obj->nextobj = v] *)
Definition set_nextobj (obj : option ptr) (v : option ptr) : M Queue unit :=
  let* l := get_links obj in
  let* p := nonnull obj in
  modify (fun q => mkQueue (<[p := mkLinks (prevobj l) v]> (links q)) (head q) (tail q)).

(** [head = v] and [tail = v] *)
Definition set_head (v : option ptr) : M Queue unit :=
  modify (fun q => mkQueue (links q) v (tail q)).
Definition set_tail (v : option ptr) : M Queue unit :=
  modify (fun q => mkQueue (links q) (head q) v).

(** [static void _enqueue(Object *item)] *)
Definition _enqueue (item : ptr) : M Queue unit :=
  let* q := get in
  (match head q with
   | None =>
       set_head (Some item) ;;
       set_prevobj (Some item) None
   | Some _ =>
       set_prevobj (Some item) (tail q) ;;
       set_nextobj (tail q) (Some item)
   end) ;;
  set_tail (Some item) ;;
  set_nextobj (Some item) None.

(** [static void _dequeue(Object *item)] *)
Definition _dequeue (item : ptr) : M Queue unit :=
  let* l := get_links (Some item) in
  match nextobj l with
  | None =>  (* last element *)
      match prevobj l with
      | None =>  (* also first element *)
          set_tail None ;; set_head None
      | Some _ =>  (* not also the first element *)
          set_tail (prevobj l) ;;
          let* q := get in
          set_nextobj (tail q) None
      end
  | Some _ =>  (* not the last element *)
      match prevobj l with
      | None =>  (* but the first element *)
          set_head (nextobj l) ;;
          let* q := get in
          set_prevobj (head q) None
      | Some _ =>  (* somewhere in the middle of the list *)
          set_nextobj (prevobj l) (nextobj l) ;;
          let* l := get_links (Some item) in
          set_prevobj (nextobj l) (prevobj l)
      end
  end.

(** *** What a well-formed queue is

    [chain lk prev l after]: the objects of [l] are linked to each other in
    both directions, the first of them back to [prev] and the last of them
    on to [after]. *)
Fixpoint chain (lk : gmap positive Links) (prev : option ptr) (l : list ptr)
    (after : option ptr) : Prop :=
  match l with
  | [] => True
  | p :: l' =>
      lk !! p = Some (mkLinks prev (match l' with [] => after | n :: _ => Some n end)) /\
      chain lk (Some p) l' after
  end.

(** [queue_is q l]: the queue holds the objects [l], each once, from
    [head] to [tail]; the first has no predecessor, the last no
    successor. *)
Definition queue_is (q : Queue) (l : list ptr) : Prop :=
  NoDup l /\ head q = l !! 0%nat /\ tail q = last l /\ chain (links q) None l None.


(** The first of [l], or [d]. *)
Definition first_or (l : list ptr) (d : option ptr) : option ptr :=
  match l with [] => d | n :: _ => Some n end.

(** The last of [l], or [d]. *)
Definition last_or (l : list ptr) (d : option ptr) : option ptr :=
  match last l with Some p => Some p | None => d end.

End ObjectQueue.


(** ** A reference environment

    Implementations of what the sources call and do not contain, written
    after the spec, to run the embedded code on concrete programs.  The
    theorems below hold for every environment; the examples are computed
    in this one. *)

Module Reference.

(** *** C library *)

Definition digit (c : ascii) : option Z :=
  let n := Z.of_N (N_of_ascii c) in
  if (48 <=? n) && (n <=? 57) then Some (n - 48) else None.

Fixpoint digits (s : string) (acc : Z) (count : nat) : Z * nat * string :=
  match s with
  | String c s' =>
      match digit c with
      | Some d => digits s' (10 * acc + d) (S count)
      | None => (acc, count, s)
      end
  | EmptyString => (acc, count, s)
  end.

Definition sign (s : string) : bool * string :=
  match s with
  | String c s' =>
      if Ascii.eqb c "-" then (true, s')
      else if Ascii.eqb c "+" then (false, s')
      else (false, s)
  | EmptyString => (false, s)
  end.

Fixpoint skip_spaces (s : string) : string :=
  match s with
  | String c s' => if Ascii.eqb c " " || Ascii.eqb c "009" then skip_spaces s' else s
  | EmptyString => s
  end.

(** strtol(s, &e, 10): without digits nothing is converted and [e] is [s];
    a value outside of long sets errno. *)
Definition strtol (s : string) : Z * string * bool :=
  let '(neg, body) := sign (skip_spaces s) in
  let '(v, count, rest) := digits body 0 O in
  match count with
  | O => (0, s, false)
  | _ =>
      let v := if neg then - v else v in
      if (v <? - 2 ^ 63) then (- 2 ^ 63, rest, true)
      else if (2 ^ 63 <=? v) then (2 ^ 63 - 1, rest, true)
      else (v, rest, false)
  end.

(** strtod(s, &e) on decimal notation [digits [. digits]]. *)
Definition strtod (s : string) : PrimFloat.float * string * bool :=
  let '(neg, body) := sign (skip_spaces s) in
  let '(v, count, rest) := digits body 0 O in
  let '(v, count, scale, rest) :=
    match rest with
    | String c frac =>
        if Ascii.eqb c "." then
          let '(v', count', rest') := digits frac v O in
          (v', (count + count')%nat, count', rest')
        else (v, count, O, rest)
    | EmptyString => (v, count, O, rest)
    end in
  match count with
  | O => (float_zero, s, false)
  | _ =>
      let f := PrimFloat.div (int_to_float v) (int_to_float (10 ^ Z.of_nat scale)) in
      (if neg then PrimFloat.opp f else f, rest, false)
  end.

(** The decimal digits of [n] rounded to at most [k] significant ones, and
    how many digits were dropped. *)
Definition round_digits (k : Z) (n : Z) : Z * Z :=
  let len := Z.of_nat (String.length (pretty n)) in
  if len <=? k then (n, 0)
  else
    let drop := len - k in
    let q := n / 10 ^ drop in
    let r := n mod 10 ^ drop in
    let q := if 2 * r <? 10 ^ drop then q
             else if (2 * r =? 10 ^ drop) && Z.even q then q
             else q + 1 in
    (q, drop).

Fixpoint strip_zeros (fuel : nat) (n : Z) (e : Z) : Z * Z :=
  match fuel with
  | O => (n, e)
  | S k => if (n mod 10 =? 0) && negb (n =? 0) then strip_zeros k (n / 10) (e + 1)
           else (n, e)
  end.

Fixpoint zeros (n : nat) : string :=
  match n with
  | O => EmptyString
  | S k => String "0" (zeros k)
  end.

(** snprintf("%.16lG") of a finite double [m * 2^e], in fixed notation
    when the decimal exponent allows it. *)
Definition format_G16 (f : PrimFloat.float) : string :=
  match FloatOps.Prim2SF f with
  | SpecFloat.S754_zero s => if s then "-0" else "0"
  | SpecFloat.S754_infinity s => if s then "-INF" else "INF"
  | SpecFloat.S754_nan => "NAN"
  | SpecFloat.S754_finite s m e =>
      (* m * 2^e = n * 10^d *)
      let '(n, d) := if 0 <=? e then (Z.pos m * 2 ^ e, 0)
                     else (Z.pos m * 5 ^ (- e), e) in
      let '(n, dropped) := round_digits 16 n in
      let '(n, d) := strip_zeros 400 n (d + dropped) in
      let text := pretty n in
      let len := Z.of_nat (String.length text) in
      let exp10 := len - 1 + d in
      let body :=
        if (exp10 <? -4) || (16 <=? exp10) then
          let frac := String.substring 1 (String.length text - 1) text in
          String.append (String.substring 0 1 text)
            (String.append (if String.eqb frac "" then "" else String.append "." frac)
               (String.append (if exp10 <? 0 then "E-" else "E+")
                  (String.append (if Z.abs exp10 <? 10 then "0" else "")
                                 (pretty (Z.abs exp10)))))
        else if 0 <=? d then String.append text (zeros (Z.to_nat d))
        else if 0 <=? exp10 then
          String.append (String.substring 0 (Z.to_nat (exp10 + 1)) text)
            (String.append "." (String.substring (Z.to_nat (exp10 + 1))
                                                 (String.length text) text))
        else String.append "0." (String.append (zeros (Z.to_nat (- exp10 - 1))) text)
      in
      if s then String.append "-" body else body
  end.

#[export] Instance libc : Libc := Build_Libc strtol strtod format_G16.

(** *** number.c

    Modelled from the spec: "Let rank(char)=0, rank(int)=1, rank(float)=2.
    For binary numeric op, result type = max-rank of operands.  Integer
    division by zero fails with ZeroDivisionError.  Modulus follows the sign
    of the dividend for integers"; comparisons and logical operators return
    int 0/1. *)
Inductive number :=
| CharNum (c : ascii)
| IntNum (i : Z)
| FloatNum (f : PrimFloat.float).

Definition read_number (op : ptr) : M heap number :=
  let* o := load op in
  match data o with
  | CharData c => ret (CharNum c)
  | IntData i => ret (IntNum i)
  | FloatData f => ret (FloatNum f)
  | _ => fault
  end.

Definition number_int (n : number) : Z :=
  match n with
  | CharNum c => char_to_int c
  | IntNum i => i
  | FloatNum f => float_to_int f
  end.

Definition number_float (n : number) : PrimFloat.float :=
  match n with
  | CharNum c => int_to_float (char_to_int c)
  | IntNum i => int_to_float i
  | FloatNum f => f
  end.

Definition number_bool (n : number) : bool :=
  match n with
  | CharNum c => negb (is_nul c)
  | IntNum i => negb (i =? 0)
  | FloatNum f => float_to_bool f
  end.

Definition number_data (n : number) : payload :=
  match n with
  | CharNum c => CharData c
  | IntNum i => IntData i
  | FloatNum f => FloatData f
  end.

(** A new object for a result: [obj_alloc] and the assignment of the
    value. *)
Definition new_object (d : payload) : M heap ptr :=
  let* obj := obj_alloc (type_of d) in
  set_data obj d ;;
  ret obj.

Definition arithmetic (fi : Z -> Z -> option Z)
    (ff : PrimFloat.float -> PrimFloat.float -> PrimFloat.float)
    (a b : number) : option number :=
  match a, b with
  | FloatNum _, _ | _, FloatNum _ =>
      Some (FloatNum (ff (number_float a) (number_float b)))
  | IntNum _, _ | _, IntNum _ =>
      i ← fi (number_int a) (number_int b); Some (IntNum (to_int_t i))
  | CharNum _, CharNum _ =>
      i ← fi (number_int a) (number_int b); Some (CharNum (int_to_char i))
  end.

Definition comparison (fi : Z -> Z -> bool)
    (ff : PrimFloat.float -> PrimFloat.float -> bool) (a b : number) : option number :=
  let r := match a, b with
           | FloatNum _, _ | _, FloatNum _ => ff (number_float a) (number_float b)
           | _, _ => fi (number_int a) (number_int b)
           end in
  Some (IntNum (if r then 1 else 0)).

(** A binary method: the operands are read, the result is a new object;
    [None] is the division by zero. *)
Definition binary (f : number -> number -> option number) (op1 op2 : ptr) : M heap ptr :=
  let* a := read_number op1 in
  let* b := read_number op2 in
  match f a b with
  | Some r => new_object (number_data r)
  | None => error ZeroDivisionError
  end.

Definition unary (f : number -> number) (op1 : ptr) : M heap ptr :=
  let* a := read_number op1 in
  new_object (number_data (f a)).

Definition total (f : Z -> Z -> Z) (x y : Z) : option Z := Some (f x y).
Definition nonzero (f : Z -> Z -> Z) (x y : Z) : option Z :=
  if y =? 0 then None else Some (f x y).

(** fmod, for quotients in the range of [int_t]. *)
Definition float_mod (x y : PrimFloat.float) : PrimFloat.float :=
  PrimFloat.sub x (PrimFloat.mul y (int_to_float (float_to_int (PrimFloat.div x y)))).

Definition invert (a : number) : number :=
  match a with
  | CharNum c => CharNum (int_to_char (- char_to_int c))
  | IntNum i => IntNum (to_int_t (- i))
  | FloatNum f => FloatNum (PrimFloat.opp f)
  end.

Definition logical (f : bool -> bool -> bool) (a b : number) : option number :=
  Some (IntNum (if f (number_bool a) (number_bool b) then 1 else 0)).

#[export] Instance numbertype : NumberType := {|
  number_add := binary (arithmetic (total Z.add) PrimFloat.add);
  number_sub := binary (arithmetic (total Z.sub) PrimFloat.sub);
  number_mul := binary (arithmetic (total Z.mul) PrimFloat.mul);
  number_div := binary (arithmetic (nonzero Z.quot) PrimFloat.div);
  number_mod := binary (arithmetic (nonzero Z.rem) float_mod);
  number_inv := unary invert;
  number_eql := binary (comparison Z.eqb PrimFloat.eqb);
  number_neq := binary (comparison (fun x y => negb (x =? y))
                                   (fun x y => negb (PrimFloat.eqb x y)));
  number_lss := binary (comparison Z.ltb PrimFloat.ltb);
  number_leq := binary (comparison Z.leb PrimFloat.leb);
  number_gtr := binary (comparison Z.gtb (fun x y => PrimFloat.ltb y x));
  number_geq := binary (comparison Z.geb (fun x y => PrimFloat.leb y x));
  number_or := binary (logical orb);
  number_and := binary (logical andb);
  number_negate := unary (fun a => IntNum (if number_bool a then 0 else 1))
|}.

(** *** str.c

    Modelled from the spec: "str+str -> str (concat) ... str+num or num+str
    -> coerce non-string to its textual form then concat"; "(str,int) or
    (int,str) -> repeat"; "indexing s[i]: ... negative i counts from end;
    out-of-range => IndexError"; "slicing s[a:b]: ... bounds clamped to
    [0, len]; a > b => empty; negative indices count from end". *)

(** The textual form of obj_to_strobj. *)
Definition text_of (op : ptr) : M heap string :=
  let* o := load op in
  match data o with
  | StrData s => ret s
  | CharData c => ret (format_c c)
  | IntData i => ret (pretty i)
  | FloatData f => ret (format_G16 f)
  | NoneData => ret "None"%string
  | _ => ret EmptyString
  end.

Fixpoint repeat_string (n : nat) (s : string) : string :=
  match n with
  | O => EmptyString
  | S k => String.append s (repeat_string k s)
  end.

(** The string and the count of a repetition, whichever comes first. *)
Definition sequence_and_count (is_seq : ptr -> M heap bool) (op1 op2 : ptr)
  : M heap (ptr * Z) :=
  let* first := is_seq op1 in
  let '(sq, n) := if first then (op1, op2) else (op2, op1) in
  let* times := obj_as_int n in
  ret (sq, times).

(** An index counted from the end when negative. *)
Definition from_end (len i : Z) : Z := if i <? 0 then i + len else i.
(** A slice bound, clamped to [0, len]. *)
Definition clamp (len i : Z) : Z := Z.max 0 (Z.min len (from_end len i)).

Definition str_concat (op1 op2 : ptr) : M heap ptr :=
  let* a := text_of op1 in
  let* b := text_of op2 in
  new_object (StrData (String.append a b)).

Definition str_repeat (op1 op2 : ptr) : M heap ptr :=
  let* sn := sequence_and_count isString op1 op2 in
  let* s := obj_as_str (fst sn) in
  new_object (StrData (repeat_string (Z.to_nat (snd sn)) s)).

Definition str_compare (eq : bool) (op1 op2 : ptr) : M heap ptr :=
  let* a := obj_as_str op1 in
  let* b := obj_as_str op2 in
  new_object (IntData (if Bool.eqb (String.eqb a b) eq then 1 else 0)).

Definition str_item (s : ptr) (index : Z) : M heap ptr :=
  let* text := obj_as_str s in
  let len := Z.of_nat (String.length text) in
  let i := from_end len index in
  if (i <? 0) || (len <=? i) then error IndexError
  else new_object (StrData (String.substring (Z.to_nat i) 1 text)).

Definition str_slice (s : ptr) (start stop : Z) : M heap ptr :=
  let* text := obj_as_str s in
  let len := Z.of_nat (String.length text) in
  let a := clamp len start in
  let b := clamp len stop in
  new_object (StrData (String.substring (Z.to_nat a) (Z.to_nat (b - a)) text)).

Definition str_length (s : ptr) : M heap ptr :=
  let* text := obj_as_str s in
  new_object (IntData (Z.of_nat (String.length text))).

#[export] Instance strtype : StrType :=
  Build_StrType str_concat str_repeat (str_compare true) (str_compare false)
                str_item str_slice str_length.

(** *** list.c

    Modelled from the spec: "list+list -> list (concat, deep-copied
    elements)"; "(list,int) or (int,list) -> repeat"; indexing and slicing
    as for strings.  An indexed element is handed out as its node, which
    obj_assign and the operators of object.c know how to enter. *)
Definition list_nodes (l : ptr) : M heap (list ptr) :=
  let* o := load l in
  match data o with
  | ListData nodes => ret nodes
  | _ => fault
  end.

Definition list_items (l : ptr) : M heap (list ptr) :=
  let* nodes := list_nodes l in
  traverse obj_from_listnode nodes.

(** The bound on the nesting of the values of a heap. *)
Definition nesting (h : heap) : nat := S (size h).

(** A new list of deep copies of [items]. *)
Definition list_build (items : list ptr) : M heap ptr :=
  let* l := obj_alloc LIST_T in
  for_each (fun x => let* h := get in
                  let* c := obj_copy (nesting h) x in
                  listnode_append l c) items ;;
  ret l.

Definition list_concat (op1 op2 : ptr) : M heap ptr :=
  let* xs := list_items op1 in
  let* ys := list_items op2 in
  list_build (xs ++ ys).

Definition list_repeat (op1 op2 : ptr) : M heap ptr :=
  let* ln := sequence_and_count isList op1 op2 in
  let* xs := list_items (fst ln) in
  list_build (List.concat (List.repeat xs (Z.to_nat (snd ln)))).

(** Equality of two values, lists element by element. *)
Fixpoint same_value (fuel : nat) (h : heap) (a b : ptr) : bool :=
  match fuel with
  | O => false
  | S n =>
      match h !! a, h !! b with
      | Some x, Some y =>
          match data x, data y with
          | ListNodeData (Some a'), _ => same_value n h a' b
          | _, ListNodeData (Some b') => same_value n h a b'
          | StrData s, StrData t => String.eqb s t
          | ListData xs, ListData ys =>
              bool_decide (length xs = length ys) &&
              forallb (fun p => same_value n h (fst p) (snd p)) (combine xs ys)
          | CharData c, CharData d => Ascii.eqb c d
          | CharData c, IntData i | IntData i, CharData c => char_to_int c =? i
          | IntData i, IntData j => i =? j
          | FloatData f, d | d, FloatData f =>
              match d with
              | CharData c => PrimFloat.eqb f (int_to_float (char_to_int c))
              | IntData i => PrimFloat.eqb f (int_to_float i)
              | FloatData g => PrimFloat.eqb f g
              | _ => false
              end
          | _, _ => false
          end
      | _, _ => false
      end
  end.

Definition list_compare (eq : bool) (op1 op2 : ptr) : M heap ptr :=
  let* h := get in
  new_object (IntData (if Bool.eqb (same_value (nesting h) h op1 op2) eq then 1 else 0)).

Definition list_item (l : ptr) (index : Z) : M heap ptr :=
  let* nodes := list_nodes l in
  let len := Z.of_nat (length nodes) in
  let i := from_end len index in
  if (i <? 0) || (len <=? i) then error IndexError
  else
    let* node := nonnull (nodes !! Z.to_nat i) in
    obj_incref node ;;
    ret node.

Definition list_slice (l : ptr) (start stop : Z) : M heap ptr :=
  let* xs := list_items l in
  let len := Z.of_nat (length xs) in
  let a := clamp len start in
  let b := clamp len stop in
  list_build (take (Z.to_nat (b - a)) (drop (Z.to_nat a) xs)).

Definition list_length (l : ptr) : M heap ptr :=
  let* nodes := list_nodes l in
  new_object (IntData (Z.of_nat (length nodes))).

#[export] Instance listtype : ListType :=
  Build_ListType list_concat list_repeat (list_compare true) (list_compare false)
                 list_item list_slice list_length.

(** *** expression.c

    Modelled from the spec (4.5.14): comma, assignment, [or], [and],
    equality, relational and [in], additive, multiplicative, unary, postfix
    (subscript and slice) and primary expressions, with list displays
    [[e, ...]].  A primary that is an identifier bound to a position is a
    call. *)

(** The evaluator's computations: runs over the shared globals. *)
Definition E (A : Type) : Type := Shared -> Expr A.

Fixpoint expr_bind {A B} (e : Expr A) (k : A -> E B) : Expr B :=
  match e with
  | Value a sh => k a sh
  | Stop x => Stop x
  | Call addr sh k' => Call addr sh (fun v sh' => expr_bind (k' v sh') k)
  end.

Definition e_ret {A} (a : A) : E A := fun sh => Value a sh.
Definition e_bind {A B} (m : E A) (k : A -> E B) : E B :=
  fun sh => expr_bind (m sh) k.
Definition e_stop {A} (x : abort) : E A := fun _ => Stop x.

(** A computation on the shared globals, as a run without calls. *)
Definition run {A} (m : M Shared A) : E A :=
  fun sh => match m sh with
            | Ok a sh' => Value a sh'
            | Jump _ => Stop Fault
            | Abort x => Stop x
            end.

(** [function_call(addr)] *)
Definition call (addr : ptr) : E (option ptr) :=
  fun sh => Call addr sh (fun v sh' => Value v sh').

Notation "'let+' x ':=' m 'in' k" := (e_bind m (fun x => k))
  (at level 10, x name, m at level 100, k at level 200).
Notation "m ';;+' k" := (e_bind m (fun _ => k))
  (at level 100, k at level 200, right associativity).

Definition scan_token : E token_t := run (let* sh := get in ret (token sh)).
Definition scan_string : E string := run (let* sh := get in ret (lexeme sh)).
Definition scan_operator (op : string) : E bool :=
  let+ tok := scan_token in e_ret (token_eqb tok (OPERATOR op)).
Definition scan_next : E unit := run scanner_next.
Definition scan_expect (t : token_t) : E unit :=
  let+ tok := scan_token in
  if token_eqb tok t then scan_next else e_stop (Raise SyntaxError).
Definition on_heap {A} (m : M heap A) : E A := run (in_heap m).
Definition object_of (v : option ptr) : E ptr := run (nonnull v).
Definition drop_ref (v : option ptr) : E unit :=
  let+ o := object_of v in
  on_heap (let* h := get in obj_decref (nesting h) o).

(** The operator of a binary level, if the current token is one. *)
Definition operator_table := token_t -> option (ptr -> ptr -> M heap (option ptr)).

Definition some (f : ptr -> ptr -> M heap ptr) (a b : ptr) : M heap (option ptr) :=
  let* r := f a b in ret (Some r).

Definition multiplicative : operator_table := fun t =>
  if token_eqb t (OPERATOR "*") then Some (some obj_mult)
  else if token_eqb t (OPERATOR "/") then Some (some obj_divs)
  else if token_eqb t (OPERATOR "%") then Some (some obj_mod)
  else None.

Definition additive : operator_table := fun t =>
  if token_eqb t (OPERATOR "+") then Some (some obj_add)
  else if token_eqb t (OPERATOR "-") then Some (some obj_sub)
  else None.

Definition relational : operator_table := fun t =>
  if token_eqb t (OPERATOR "<") then Some (some obj_lss)
  else if token_eqb t (OPERATOR "<=") then Some (some obj_leq)
  else if token_eqb t (OPERATOR ">") then Some (some obj_gtr)
  else if token_eqb t (OPERATOR ">=") then Some (some obj_geq)
  else if token_eqb t IN then Some (fun a b => let* h := get in obj_in (nesting h) a b)
  else None.

Definition equalities : operator_table := fun t =>
  if token_eqb t (OPERATOR "==") then Some (some (obj_eql 0))
  else if token_eqb t (OPERATOR "!=") || token_eqb t (OPERATOR "<>")
  then Some (some (obj_neq 0))
  else None.

Definition conjunction : operator_table := fun t =>
  if token_eqb t (OPERATOR "and") then Some (some obj_and) else None.

Definition disjunction : operator_table := fun t =>
  if token_eqb t (OPERATOR "or") then Some (some obj_or) else None.

(** A left-associative level: [operand (op operand)*]. *)
Fixpoint binary_loop (n : nat) (table : operator_table) (next : E (option ptr))
    (left : option ptr) : E (option ptr) :=
  match n with
  | O => e_stop OutOfFuel
  | S n =>
      let+ tok := scan_token in
      match table tok with
      | None => e_ret left
      | Some f =>
          scan_next ;;+
          let+ right := next in
          let+ a := object_of left in
          let+ b := object_of right in
          let+ v := on_heap (f a b) in
          drop_ref left ;;+
          drop_ref right ;;+
          binary_loop n table next v
      end
  end.

Definition binary_level (n : nat) (table : operator_table) (next : E (option ptr))
  : E (option ptr) :=
  let+ left := next in binary_loop n table next left.

Section Grammar.
Variable n : nat.
Variable comma : E (option ptr).
Variable assignment : E (option ptr).
Variable unary_expr : E (option ptr).

(** [e (, e)* ] up to the closing bracket of a list display. *)
Fixpoint display_loop (k : nat) (l : ptr) : E unit :=
  match k with
  | O => e_stop OutOfFuel
  | S k =>
      let+ close := scan_operator "]" in
      if close then e_ret tt
      else
        let+ v := assignment in
        let+ o := object_of v in
        let+ c := on_heap (let* h := get in obj_copy (nesting h) o) in
        on_heap (listnode_append l c) ;;+
        drop_ref v ;;+
        let+ tok := scan_token in
        (if token_eqb tok COMMA then scan_next else e_ret tt) ;;+
        display_loop k l
  end.

Definition literal (type : objecttype_t) (convert : string -> M heap payload)
  : E (option ptr) :=
  let+ text := scan_string in
  let+ d := on_heap (convert text) in
  let+ v := on_heap (new_object d) in
  scan_next ;;+
  e_ret (Some v).

Definition primary : E (option ptr) :=
  let+ tok := scan_token in
  match tok with
  | INT => literal INT_T (fun s => let* i := str_to_int s in ret (IntData i))
  | FLOAT => literal FLOAT_T (fun s => let* f := str_to_float s in ret (FloatData f))
  | CHAR => literal CHAR_T (fun s => let* c := str_to_char s in ret (CharData c))
  | STR => literal STR_T (fun s => ret (StrData s))
  | LPAR =>
      scan_next ;;+
      let+ v := comma in
      scan_expect RPAR ;;+
      e_ret v
  | OPERATOR op =>
      if String.eqb op "[" then
        scan_next ;;+
        let+ l := on_heap (obj_alloc LIST_T) in
        display_loop n l ;;+
        scan_next ;;+
        e_ret (Some l)
      else e_stop (Raise SyntaxError)
  | IDENTIFIER =>
      let+ name := scan_string in
      let+ id := run (identifier_search name) in
      match id with
      | None => e_stop (Raise NameError)
      | Some id =>
          let+ obj := run (identifier_object id) in
          let+ o := object_of obj in
          let+ t := on_heap (TYPE o) in
          scan_next ;;+
          if bool_decide (t = POSITION_T) then call o
          else on_heap (obj_incref o) ;;+ e_ret obj
      end
  | _ => e_stop (Raise SyntaxError)
  end.

(** A subscript [[i]] or a slice [[a:b]] after a primary. *)
Fixpoint postfix_loop (k : nat) (v : option ptr) : E (option ptr) :=
  match k with
  | O => e_stop OutOfFuel
  | S k =>
      let+ open := scan_operator "[" in
      if open then
        scan_next ;;+
        let+ sq := object_of v in
        let+ i := comma in
        let+ io := object_of i in
        let+ start := on_heap (obj_as_int io) in
        drop_ref i ;;+
        let+ colon := scan_operator ":" in
        let+ r :=
          if colon then
            scan_next ;;+
            let+ j := comma in
            let+ jo := object_of j in
            let+ stop := on_heap (obj_as_int jo) in
            drop_ref j ;;+
            on_heap (obj_slice sq (to_int start) (to_int stop))
          else on_heap (obj_item sq (to_int start)) in
        scan_expect (OPERATOR "]") ;;+
        drop_ref v ;;+
        postfix_loop k (Some r)
      else e_ret v
  end.

Definition postfix : E (option ptr) :=
  let+ v := primary in postfix_loop n v.

Definition prefix (f : ptr -> M heap ptr) : E (option ptr) :=
  scan_next ;;+
  let+ v := unary_expr in
  let+ o := object_of v in
  let+ r := on_heap (f o) in
  drop_ref v ;;+
  e_ret (Some r).

Definition unary_body : E (option ptr) :=
  let+ tok := scan_token in
  if token_eqb tok (OPERATOR "-") then prefix obj_invert
  else if token_eqb tok (OPERATOR "+")
  then prefix (fun o => let* h := get in obj_copy (nesting h) o)
  else if token_eqb tok (OPERATOR "!") then prefix obj_negate
  else postfix.

Definition or_expr : E (option ptr) :=
  binary_level n disjunction
    (binary_level n conjunction
       (binary_level n equalities
          (binary_level n relational
             (binary_level n additive
                (binary_level n multiplicative unary_body))))).

(** [identifier = assignment_expr], or a logical-or expression. *)
Definition assignment_body : E (option ptr) :=
  let+ tok := scan_token in
  let+ ahead := run (let* sh := get in ret (fst <$> source sh !! offset sh)) in
  if token_eqb tok IDENTIFIER && bool_decide (ahead = Some EQUAL) then
    let+ name := scan_string in
    let+ id := run (identifier_search name) in
    match id with
    | None => e_stop (Raise NameError)
    | Some id =>
        scan_next ;;+
        scan_next ;;+
        let+ v := assignment in
        let+ o := object_of v in
        let+ target := run (identifier_object id) in
        let+ t := object_of target in
        on_heap (let* h := get in obj_assign (nesting h) t o) ;;+
        drop_ref v ;;+
        on_heap (obj_incref t) ;;+
        e_ret target
    end
  else or_expr.

Fixpoint comma_loop (k : nat) (v : option ptr) : E (option ptr) :=
  match k with
  | O => e_stop OutOfFuel
  | S k =>
      let+ tok := scan_token in
      if token_eqb tok COMMA then
        scan_next ;;+
        drop_ref v ;;+
        let+ v := assignment_body in
        comma_loop k v
      else e_ret v
  end.

Definition comma_body : E (option ptr) :=
  let+ v := assignment_body in comma_loop n v.

End Grammar.

Fixpoint comma_at (n : nat) (sh : Shared) {struct n} : Expr (option ptr) :=
  match n with
  | O => Stop OutOfFuel
  | S k => comma_body k (comma_at k) (assignment_at k) (unary_at k) sh
  end
with assignment_at (n : nat) (sh : Shared) {struct n} : Expr (option ptr) :=
  match n with
  | O => Stop OutOfFuel
  | S k => assignment_body k (comma_at k) (assignment_at k) (unary_at k) sh
  end
with unary_at (n : nat) (sh : Shared) {struct n} : Expr (option ptr) :=
  match n with
  | O => Stop OutOfFuel
  | S k => unary_body k (comma_at k) (assignment_at k) (unary_at k) sh
  end.

#[export] Instance evaluator : Evaluator :=
  Build_Evaluator (fun sh => comma_at (tokens_left sh) sh)
                  (fun sh => assignment_at (tokens_left sh) sh).

(** *** The print methods and the reader

    Modelled from the spec: "Char prints its glyph; int prints decimal;
    float prints general %.16g; string prints raw contents; list prints
    [e1, e2, ...] with each element printed recursively".  The reference
    environment has no other source files: an import finds none. *)
Fixpoint print_text (fuel : nat) (h : heap) (obj : ptr) : option string :=
  match fuel with
  | O => None
  | S n =>
      o ← h !! obj;
      match data o with
      | CharData c => Some (String c EmptyString)
      | IntData i => Some (pretty i)
      | FloatData f => Some (format_G16 f)
      | StrData s => Some s
      | ListData nodes =>
          texts ← mapM (print_text n h) nodes;
          Some (String.append "[" (String.append (String.concat ", " texts) "]"))
      | ListNodeData (Some x) => print_text n h x
      | ListNodeData None => None
      | PositionData _ => Some EmptyString
      | NoneData => Some "none"%string
      end
  end.

Definition type_print (obj : ptr) : M heap string :=
  let* h := get in nonnull (print_text (nesting h) h obj).

#[export] Instance collaborators : Collaborators :=
  Build_Collaborators type_print (fun _ => error SystemError).

(** *** Running a program *)

(** The globals before main() calls parser(): the heap holds [none], the
    identifier table has the module's level. *)
Definition start (src : list (token_t * string)) (input : list string) : State :=
  mkState (mkShared heap_init src 0 ENDMARKER EmptyString [[]] input []) false false None.

(** The texts a program prints. *)
Definition output (fuel : nat) (src : list (token_t * string)) (input : list string)
  : result (list string) unit :=
  match parser fuel (start src input) with
  | Ok _ s => Ok tt (stdout (shared s))
  | Jump s => Jump (stdout (shared s))
  | Abort x => Abort x
  end.

End Reference.

(** * Vocabulary of the properties

    The predicates in which the theorems below are stated. *)

Section Vocabulary.
Context `{Libc} `{NumberType} `{StrType} `{ListType} `{Evaluator} `{Collaborators}.

(** ** Objects and operands *)

(** A computation that reads the heap and leaves it as it is. *)
Definition reads {A} (m : M heap A) : Prop :=
  forall h, match m h with
            | Ok _ h' => h' = h
            | Jump _ => False
            | Abort _ => True
            end.

(** The type of a live object. *)
Definition has_type (h : heap) (obj : ptr) (t : objecttype_t) : Prop :=
  exists o, h !! obj = Some o /\ type_of (data o) = t.

(** [operand h op a t]: the operand [op], once it has left its list node,
    is the object [a], of type [t]. *)
Definition operand (h : heap) (op a : ptr) (t : objecttype_t) : Prop :=
  deref_listnode op h = Ok a h /\ has_type h a t.

(** ** Character constants and operand types *)

(** The escape sequences, each with the character it stands for. *)
Definition escapes : list (ascii * ascii) :=
  [ ("0", "000"); ("b", "008"); ("f", "012"); ("n", "010"); ("r", "013");
    ("t", "009"); ("v", "011"); ("\", "\"); ("'", "'"); ("034", "034") ]%char.

(** What a C function sees of a buffer: the characters before the first
    NUL. *)
Fixpoint c_string (s : string) : string :=
  match s with
  | EmptyString => EmptyString
  | String c s' => if is_nul c then EmptyString else String c (c_string s')
  end.

(** The operand shapes of [*]: a product of two numbers, a repetition of a
    string or of a list by a number, in either order. *)
Inductive mult_shape := Product | RepeatString | RepeatList | Inadmissible.

(** The shape of a pair of operand types. *)
Definition mult_shape_of (t1 t2 : objecttype_t) : mult_shape :=
  match t1, t2 with
  | (CHAR_T | INT_T | FLOAT_T), (CHAR_T | INT_T | FLOAT_T) => Product
  | STR_T, (CHAR_T | INT_T | FLOAT_T) | (CHAR_T | INT_T | FLOAT_T), STR_T => RepeatString
  | LIST_T, (CHAR_T | INT_T | FLOAT_T) | (CHAR_T | INT_T | FLOAT_T), LIST_T => RepeatList
  | _, _ => Inadmissible
  end.

(** The pairs of types that [==] and [!=] compare by value. *)
Definition comparable (t1 t2 : objecttype_t) : bool :=
  (number_type t1 && number_type t2)
  || (bool_decide (t1 = STR_T) && bool_decide (t2 = STR_T))
  || (bool_decide (t1 = LIST_T) && bool_decide (t2 = LIST_T)).

(** A type method that does not stop with TypeError on the operands it is
    made for. *)
Definition admits (f : ptr -> ptr -> M heap ptr) (t : objecttype_t -> bool) : Prop :=
  forall (h : heap) a b t1 t2,
    has_type h a t1 -> has_type h b t2 -> t t1 = true -> t t2 = true ->
    f a b h <> Abort (Raise TypeError).

(** ** Results of the operators *)

(** A computation that, when it returns, returns a new object with
    reference count 1, and that does not leave by a longjmp. *)
Definition allocates (m : M heap ptr) : Prop :=
  forall h : heap,
    match m h with
    | Ok r h' => h !! r = None /\ exists d, h' !! r = Some (mkObject 1 d)
    | Jump _ => False
    | Abort _ => True
    end.

(** What a returning operator owes its caller: a new object, its count 1,
    that is neither operand. *)
Definition fresh_result (h : heap) (ops : list ptr) (res : result heap ptr) : Prop :=
  match res with
  | Ok r h' =>
      h !! r = None /\ (exists d, h' !! r = Some (mkObject 1 d)) /\ Forall (fun op => r <> op) ops
  | Jump _ => False
  | Abort _ => True
  end.

(** The methods behind the operators. *)
Definition binary_methods : list (ptr -> ptr -> M heap ptr) :=
  [ number_add; number_sub; number_mul; number_div; number_mod;
    number_eql; number_neq; number_lss; number_leq; number_gtr; number_geq;
    number_or; number_and;
    str_concat; str_repeat; str_eql; str_neq;
    list_concat; list_repeat; list_eql; list_neq ].

(** The methods behind the unary operators. *)
Definition unary_methods : list (ptr -> M heap ptr) := [ number_inv; number_negate ].

(** The arithmetic, comparison and logical operators of object.c, but
    [in]. *)
Definition binary_operators (fuel : nat) : list (ptr -> ptr -> M heap ptr) :=
  [ obj_add; obj_sub; obj_mult; obj_divs; obj_mod;
    obj_eql fuel; obj_neq fuel; obj_lss; obj_leq; obj_gtr; obj_geq;
    obj_or; obj_and ].

(** The unary operators of object.c. *)
Definition unary_operators : list (ptr -> M heap ptr) := [ obj_invert; obj_negate ].

(** The binary operators that admit numbers only. *)
Definition numeric_operators : list (ptr -> ptr -> M heap ptr) :=
  [ obj_sub; obj_divs; obj_mod; obj_lss; obj_leq; obj_gtr; obj_geq; obj_or; obj_and ].

(** ** Values and copies *)

Local Unset Elimination Schemes.
(** The value of an object: scalars, strings, and lists of values. *)
Inductive value :=
| VChar (c : ascii)
| VInt (i : Z)
| VFloat (f : PrimFloat.float)
| VStr (s : string)
| VList (items : list value).
Local Set Elimination Schemes.

(** A node of a list: a list-node cell whose object is related to the
    element by [R]. *)
Definition node_holds (P : ptr -> Prop) (R : ptr -> value -> Prop) (h : heap)
    (node : ptr) (w : value) : Prop :=
  P node /\
  exists o x, h !! node = Some o /\ data o = ListNodeData (Some x) /\ R x w.

(** [holds P n h a v]: in the heap [h], the object at [a] (or the object of
    the list node at [a]) has the value [v], lists nested at most [n] deep,
    and every cell that takes part in it satisfies [P]. *)
Fixpoint holds (P : ptr -> Prop) (n : nat) (h : heap) (a : ptr) (v : value) : Prop :=
  match n with
  | O => False
  | S k =>
      P a /\
      exists o, h !! a = Some o /\
        match data o with
        | CharData c => v = VChar c
        | IntData i => v = VInt i
        | FloatData f => v = VFloat f
        | StrData s => v = VStr s
        | ListData nodes =>
            exists vs, v = VList vs /\ Forall2 (node_holds P (holds P k h) h) nodes vs
        | ListNodeData (Some x) => holds P k h x v
        | _ => False
        end
  end.

(** [has_value n h a v]: the object at [a] has the value [v]. *)
Definition has_value : nat -> heap -> ptr -> value -> Prop := holds (fun _ => True).

(** The cells that a heap [h0] does not have. *)
Definition new_in (h0 : heap) (x : ptr) : Prop := h0 !! x = None.

(** What a copy function owes: the copy holds the value in new cells, and
    the cells that were there are left as they were. *)
Definition copies (copy : ptr -> M heap ptr) (k : nat) : Prop :=
  forall (h : heap) x v, has_value k h x v ->
    exists c h', copy x h = Ok c h' /\ h ⊆ h' /\ holds (new_in h) k h' c v.

(** ** Frames *)

(** [framed hN m]: [m] runs in a heap extended by the cells [hN] as it runs
    without them, and leaves them alone. *)
Definition framed (hN : heap) (m : M heap unit) : Prop :=
  forall hc hr : heap, hc ##ₘ hN -> m hc = Ok tt hr ->
    hr ##ₘ hN /\ m (hc ∪ hN) = Ok tt (hr ∪ hN).

(** ** Computations that only add objects *)

(** A computation that leaves the objects of the heap as they are, and
    may add new ones. *)
Definition extends {A} (m : M heap A) : Prop :=
  forall h, match m h with
            | Ok _ h' => h ⊆ h'
            | Jump _ => False
            | Abort _ => True
            end.

(** ** The flags of the loops *)

(** The state a statement is entered in when a break and a continue are
    pending or not: [do_break = b], [do_continue = c]. *)
Definition pending (b c : bool) (s : State) : State :=
  set_do_break b (set_do_continue c s).

(** [do_continue = 0; do_break = 0; loop = reader.save();], the way each
    of the three loop statements starts. *)
Definition loop_entry : M State ptr :=
  modify (set_do_continue false) ;;
  modify (set_do_break false) ;;
  in_shared reader_save.

(** ** Shared globals and the token cursor *)

(** [shared_only m]: [m] leaves do_break, do_continue and the return slot
    as they are, and does not jump. *)
Definition shared_only {A} (m : M State A) : Prop :=
  forall s, match m s with
            | Ok _ s' => do_break s' = do_break s /\ do_continue s' = do_continue s /\
                         return_value s' = return_value s
            | Jump _ => False
            | Abort _ => True
            end.

(** The tokens that the scanner has not delivered yet. *)
Definition upcoming (sh : Shared) : list (token_t * string) :=
  drop (offset sh) (source sh).

(** The cursor is at the first of [l], the tokens that follow are still to
    be read; at the end of the source the token is ENDMARKER. *)
Definition at_tokens (sh : Shared) (l : list (token_t * string)) : Prop :=
  match l with
  | (t, x) :: l' => token sh = t /\ lexeme sh = x /\ upcoming sh = l'
  | [] => token sh = ENDMARKER /\ upcoming sh = []
  end.

(** A token that opens or closes no block and does not end the source. *)
Definition plain (t : token_t) : Prop :=
  t <> INDENT /\ t <> DEDENT /\ t <> ENDMARKER.

(** Tokens in which every INDENT has its DEDENT. *)
Inductive balanced : list (token_t * string) -> Prop :=
| balanced_nil : balanced []
| balanced_plain t x l : plain t -> balanced l -> balanced ((t, x) :: l)
| balanced_nested i d l1 l2 :
    balanced l1 -> balanced l2 -> balanced ((INDENT, i) :: l1 ++ (DEDENT, d) :: l2).

(** The tokens of a block after its INDENT: a first token, of a statement,
    and balanced tokens up to the DEDENT of the block. *)
Definition block_body (body : list (token_t * string)) : Prop :=
  match body with
  | (t, _) :: l => plain t /\ balanced l
  | [] => False
  end.

(** The tokens from the NEWLINE that ends a header line to the DEDENT of
    the block below it. *)
Definition block_tokens (n i : string) (body : list (token_t * string)) (d : string)
  : list (token_t * string) :=
  (NEWLINE, n) :: (INDENT, i) :: body ++ [(DEDENT, d)].

(** ** The end of a loop statement *)

(** [do_break = 0; skip_block(); obj_decref(loop);], the way a while and a
    for statement end; a do-while statement has [expect(NEWLINE)] for
    [skip_block()]. *)
Definition loop_exit (fuel : nat) (move : M State unit) (loop : ptr) : M State unit :=
  modify (set_do_break false) ;;
  move ;;
  decref fuel (Some loop).

(** The reader is at the same place in the same source. *)
Definition same_cursor (sh sh' : Shared) : Prop :=
  offset sh' = offset sh /\ token sh' = token sh /\ lexeme sh' = lexeme sh /\
  source sh' = source sh.

(** What reader.jump(loop) restores is the position that the object
    [loop] holds. *)
Definition restored (loop : ptr) (s : State) : Prop :=
  exists s0 o pos,
    in_shared (reader_jump loop) s0 = Ok tt s /\
    objects (shared s0) !! loop = Some o /\ data o = PositionData pos /\
    offset (shared s) = pos_offset pos /\ token (shared s) = pos_token pos /\
    lexeme (shared s) = pos_string pos /\ source (shared s) = source (shared s0).

(** ** The return slot *)

(** [calm m]: entered with the return slot empty, [m] leaves it empty and
    does not jump. *)
Definition calm {A} (m : M State A) : Prop :=
  forall s, return_value s = None ->
            match m s with
            | Ok _ s' => return_value s' = None
            | Jump _ => False
            | Abort _ => True
            end.

(** [returned s']: [s'] is the state in which a return statement, entered
    with the return slot empty, has jumped. *)
Definition returned (s' : State) : Prop :=
  exists n s0, return_value s0 = None /\ return_stmt n (function_call n) s0 = Jump s'.

(** [quiet m]: entered with the return slot empty, [m] leaves it empty,
    unless it is left by the jump of a return statement. *)
Definition quiet {A} (m : M State A) : Prop :=
  forall s, return_value s = None ->
            match m s with
            | Ok _ s' => return_value s' = None
            | Jump s' => returned s'
            | Abort _ => True
            end.

(** function_call up to the body of the function: the arguments are
    pushed, the reader jumps to the definition, the formal parameters are
    bound.  The result is [arglist] and [return_to]. *)
Definition call_entry (fuel : nat) (function_call : ptr -> M State (option ptr))
    (addr : ptr) : M State (ptr * ptr) :=
  let* arglist := push_arguments fuel function_call in
  in_shared scope_append_level ;;
  let* return_to := in_shared reader_save in
  in_shared (reader_jump addr) ;;
  expect IDENTIFIER ;;
  pop_arguments fuel arglist ;;
  expect RPAR ;;
  ret (arglist, return_to).

(** [zero_created s z]: [z] is the object that obj_create(INT_T, 0)
    makes in [s]: not there before, an int 0 with count 1 after. *)
Definition zero_created (s : State) (z : ptr) : Prop :=
  objects (shared s) !! z = None /\
  forall fuel,
    in_shared (in_heap (obj_create fuel INT_T (ArgInt 0))) s =
    Ok z (set_shared (set_objects (<[z := mkObject 1 (IntData 0)]> (objects (shared s)))
                                  (shared s)) s).

(** [call_value n sb v]: what a call whose body is entered in [sb]
    produces.  The body ends without a return statement and [v] is a new
    int 0; or a return statement jumps out of it: at NEWLINE, and [v] is
    the int 0 it made; else with the result [e] of the comma-expression,
    which is [v] (a comma-expression without a result, [e = NULL], leaves
    the slot empty, and [v] is a new int 0). *)
Definition call_value (n : nat) (sb : State) (v : option ptr) : Prop :=
  (exists s1 z,
     block n (statement n) sb = Ok tt s1 /\ zero_created s1 z /\ v = Some z) \/
  (exists s1 k s0,
     block n (statement n) sb = Jump s1 /\
     return_stmt k (function_call k) s0 = Jump s1 /\
     ((token (shared s0) = NEWLINE /\ exists z, zero_created s0 z /\ v = Some z) \/
      (token (shared s0) <> NEWLINE /\
       exists e s2,
         run_comma_expr (function_call k) s0 = Ok e s2 /\
         match e with
         | Some x => v = Some x
         | None => exists z, zero_created s1 z /\ v = Some z
         end))).

(** ** The arguments of a call *)

(** The formal parameters between the parentheses of a definition. *)
Fixpoint formal_tokens (names : list string) : list (token_t * string) :=
  match names with
  | [] => []
  | x :: l =>
      match l with
      | [] => [(IDENTIFIER, x)]
      | _ :: _ => (IDENTIFIER, x) :: (COMMA, EmptyString) :: formal_tokens l
      end
  end.

(** The node [node] owns the object [a]. *)
Definition owns (h : heap) (node a : ptr) : Prop :=
  exists o, h !! node = Some o /\ data o = ListNodeData (Some a).

(** The argument list that push_arguments has built: the list object with
    its nodes, each the owner of one argument, all of them different
    objects. *)
Record arglist (h : heap) (alist : ptr) (rc : Z) (nodes args : list ptr) : Prop := {
  arglist_list : h !! alist = Some (mkObject rc (ListData nodes));
  arglist_nodes : Forall2 (owns h) nodes args;
  arglist_live : Forall (fun a => is_Some (h !! a)) args;
  arglist_distinct : NoDup (alist :: nodes ++ args)
}.

(** ** The [+] operator and the text of an object *)

(** The operand shapes of [+]: a sum of two numbers, a concatenation with
    a string on either side, a concatenation of two lists. *)
Inductive add_shape := Sum | Concatenation | JoinedLists | NoSum.

(** The shape of a pair of operand types. *)
Definition add_shape_of (t1 t2 : objecttype_t) : add_shape :=
  match t1, t2 with
  | (CHAR_T | INT_T | FLOAT_T), (CHAR_T | INT_T | FLOAT_T) => Sum
  | STR_T, _ | _, STR_T => Concatenation
  | LIST_T, LIST_T => JoinedLists
  | _, _ => NoSum
  end.

(** The text of the string object that obj_to_strobj makes of an
    object. *)
Definition strobj_text (d : payload) : string :=
  match d with
  | StrData s => s
  | CharData c => format_c c
  | IntData i => pretty i
  | FloatData f => format_G16 f
  | NoneData => "None"
  | _ => EmptyString
  end.

(** ** Lines of input *)

(** A carriage return or a line feed. *)
Definition line_end (c : ascii) : bool := Ascii.eqb c "013" || Ascii.eqb c "010".

(** A text without a line end. *)
Fixpoint one_line (s : string) : bool :=
  match s with
  | EmptyString => true
  | String c s' => negb (line_end c) && one_line s'
  end.

(** What fgets delivers next: the empty buffer at the end of the input. *)
Definition next_line (sh : Shared) : string :=
  match stdin sh with
  | l :: _ => l
  | [] => EmptyString
  end.

(** ** Header lines and else branches *)

(** The tokens of a header line before its NEWLINE. *)
Definition same_line (l : list (token_t * string)) : Prop :=
  Forall (fun p => fst p <> NEWLINE /\ fst p <> ENDMARKER) l.

(** Tokens that do not start with [else]. *)
Definition no_else (l : list (token_t * string)) : Prop :=
  match l with
  | (t, _) :: _ => t <> ELSE
  | [] => True
  end.

(** ** The functions of a module *)

(** A module as the pre-scan of function_declaration goes over it: a
    function definition, from its [def] to the DEDENT of its block, or one
    token of anything else. *)
Inductive module_item :=
| FunctionDef (k f l : string) (params : list (token_t * string)) (n i : string)
              (body : list (token_t * string)) (d : string)
| OtherToken (t : token_t) (x : string).

Definition item_tokens (it : module_item) : list (token_t * string) :=
  match it with
  | FunctionDef k f l params n i body d =>
      (DEFFUNC, k) :: (IDENTIFIER, f) :: (LPAR, l) :: params ++ block_tokens n i body d
  | OtherToken t x => [(t, x)]
  end.

Definition module_tokens (items : list module_item) : list (token_t * string) :=
  concat (item_tokens <$> items).

(** A definition has a header line and a block; another token is no [def]
    and not the ENDMARKER. *)
Definition item_ok (it : module_item) : Prop :=
  match it with
  | FunctionDef _ _ _ params _ _ body _ => same_line params /\ block_body body
  | OtherToken t _ => t <> DEFFUNC /\ t <> ENDMARKER
  end.

(** The item under the cursor when the loop of the pre-scan is entered:
    its token was not compared with the ENDMARKER. *)
Definition head_ok (it : module_item) : Prop :=
  match it with
  | FunctionDef _ _ _ params _ _ body _ => same_line params /\ block_body body
  | OtherToken t _ => t <> DEFFUNC
  end.

(** The names of the functions that a module defines, in their order. *)
Fixpoint defined (items : list module_item) : list string :=
  match items with
  | [] => []
  | FunctionDef _ f _ _ _ _ _ _ :: l => f :: defined l
  | OtherToken _ _ :: l => defined l
  end.

(** The definitions of a module. *)
Fixpoint definitions (items : list module_item) : list module_item :=
  match items with
  | [] => []
  | OtherToken _ _ :: l => definitions l
  | it :: l => it :: definitions l
  end.

(** [registered sh it p]: [p] is the position object of the definition
    [it]: it holds the identifier of the function as the current token and
    the place of the LPAR after it. *)
Definition registered (sh : Shared) (it : module_item) (p : ptr) : Prop :=
  match it with
  | FunctionDef _ f l params n i body d =>
      exists off more o,
        objects sh !! p = Some o /\
        data o = PositionData (mkPosition off IDENTIFIER f) /\
        drop off (source sh) = (LPAR, l) :: params ++ block_tokens n i body d ++ more
  | OtherToken _ _ => False
  end.

(** What the pre-scan leaves as it found it: the source, the objects
    that were there, the input and the output, the flags and the return
    slot. *)
Definition prescan_keeps (s s' : State) : Prop :=
  source (shared s') = source (shared s) /\ objects (shared s) ⊆ objects (shared s') /\
  stdin (shared s') = stdin (shared s) /\ stdout (shared s') = stdout (shared s) /\
  do_break s' = do_break s /\ do_continue s' = do_continue s /\
  return_value s' = return_value s.

End Vocabulary.

(** ** Heaps and programs of the examples *)

Module Samples.
Import Reference.

(** The list that the reference list_build has allocated: a list with
    count 1. *)
Definition list_at (l : ptr) (h : heap) : Prop :=
  exists nodes, h !! l = Some (mkObject 1 (ListData nodes)).

(** An int 1, an empty string, the string "ab" and the float 2.5. *)
Definition sample : heap :=
  <[5%positive := mkObject 1 (FloatData (PrimFloat.div (int_to_float 5) (int_to_float 2)))]>
    (<[4%positive := mkObject 1 (StrData "ab")]>
       (<[3%positive := mkObject 1 (StrData EmptyString)]>
          (<[2%positive := mkObject 1 (IntData 1)]> heap_init))).

(** A list node that owns the int 5, and the list [[7]]. *)
Definition element : heap :=
  <[6%positive := mkObject 1 (ListData [5%positive])]>
    (<[5%positive := mkObject 1 (ListNodeData (Some 4%positive))]>
       (<[4%positive := mkObject 1 (IntData 7)]>
          (<[3%positive := mkObject 1 (ListNodeData (Some 2%positive))]>
             (<[2%positive := mkObject 1 (IntData 5)]> heap_init)))).

(** The state and the value that a run has ended with. *)
Definition state_of {A} (r : result State A) : State :=
  match r with
  | Ok _ s => s
  | Jump s => s
  | Abort _ => start [] []
  end.

Definition value_of {A} (r : result State (option A)) : option A :=
  match r with
  | Ok v _ => v
  | _ => None
  end.

(** The formal parameters [(a, b)] and the arguments 1, 2 and 3. *)
Definition arguments : heap :=
  <[8%positive := mkObject 1 (IntData 3)]>
    (<[7%positive := mkObject 1 (IntData 2)]>
       (<[6%positive := mkObject 1 (IntData 1)]>
          (<[5%positive := mkObject 1 (ListNodeData (Some 8%positive))]>
             (<[4%positive := mkObject 1 (ListNodeData (Some 7%positive))]>
                (<[3%positive := mkObject 1 (ListNodeData (Some 6%positive))]>
                   (<[2%positive := mkObject 1 (ListData [3; 4; 5]%positive)]>
                      heap_init)))))).

(** The reader at the LPAR of the formal parameters, in a new level of
    the identifier table. *)
Definition formals : State :=
  mkState (mkShared arguments
             [(LPAR, EmptyString); (IDENTIFIER, "a"%string); (COMMA, EmptyString);
              (IDENTIFIER, "b"%string); (RPAR, EmptyString); (NEWLINE, EmptyString)]
             1 LPAR EmptyString [[]; []] [] [])
          false false None.

(** [def f(a)] / [return a + 1] / [print f(4)]. *)
Definition call_program : list (token_t * string) :=
  [(DEFFUNC, EmptyString); (IDENTIFIER, "f"%string); (LPAR, EmptyString);
   (IDENTIFIER, "a"%string); (RPAR, EmptyString); (NEWLINE, EmptyString);
   (INDENT, EmptyString); (RETURN, EmptyString); (IDENTIFIER, "a"%string);
   (OPERATOR "+", "+"%string); (INT, "1"%string); (NEWLINE, EmptyString);
   (DEDENT, EmptyString); (PRINT, EmptyString); (IDENTIFIER, "f"%string);
   (LPAR, EmptyString); (INT, "4"%string); (RPAR, EmptyString); (NEWLINE, EmptyString)].

(** The call of [f]: the address of the function and the state in which
    the evaluator asks for the call. *)
Definition call_site : option (ptr * State) :=
  match (function_declaration 30 ;; in_shared scanner_next ;; statement 30 ;;
         accept PRINT) (start call_program []) with
  | Ok _ s =>
      match assignment_expr (shared s) with
      | Call addr sh _ => Some (addr, set_shared sh s)
      | _ => None
      end
  | _ => None
  end.

Definition call_addr : ptr :=
  match call_site with Some (addr, _) => addr | None => none end.

Definition call_state : State :=
  match call_site with Some (_, s) => s | None => start [] [] end.

(** [def f()] / [continue] / [while f()] / [pass]. *)
Definition leak_program : list (token_t * string) :=
  [(DEFFUNC, EmptyString); (IDENTIFIER, "f"%string); (LPAR, EmptyString);
   (RPAR, EmptyString); (NEWLINE, EmptyString); (INDENT, EmptyString);
   (CONTINUE, EmptyString); (NEWLINE, EmptyString); (DEDENT, EmptyString);
   (WHILE, EmptyString); (IDENTIFIER, "f"%string); (LPAR, EmptyString);
   (RPAR, EmptyString); (NEWLINE, EmptyString); (INDENT, EmptyString);
   (PASS, EmptyString); (NEWLINE, EmptyString); (DEDENT, EmptyString)].

(** The state in which statement() calls while_stmnt. *)
Definition at_while : result State bool :=
  (function_declaration 30 ;; in_shared scanner_next ;; statement 30 ;;
   accept WHILE) (start leak_program []).

(** The run of the while statement from there. *)
Definition after_while : result State unit :=
  while_stmnt 30 (statement 30) (function_call 30) (state_of at_while).

(** The object and the heap that a run on the heap has ended with. *)
Definition pointer_of (r : result heap ptr) : ptr :=
  match r with
  | Ok p _ => p
  | _ => none
  end.

Definition heap_of {A} (r : result heap A) : heap :=
  match r with
  | Ok _ h => h
  | Jump h => h
  | Abort _ => heap_init
  end.

(** The items of [call_program]: the definition of [f], and the tokens of
    the print statement. *)
Definition call_items : list module_item :=
  [FunctionDef EmptyString "f" EmptyString
     [(IDENTIFIER, "a"%string); (RPAR, EmptyString)] EmptyString EmptyString
     [(RETURN, EmptyString); (IDENTIFIER, "a"%string); (OPERATOR "+", "+"%string);
      (INT, "1"%string); (NEWLINE, EmptyString)] EmptyString;
   OtherToken PRINT EmptyString; OtherToken IDENTIFIER "f"; OtherToken LPAR EmptyString;
   OtherToken INT "4"; OtherToken RPAR EmptyString; OtherToken NEWLINE EmptyString].

(** The reader at the name of [f] in its definition, after the [def]. *)
Definition at_def : State :=
  mkState (mkShared heap_init call_program 2 IDENTIFIER "f" [[]] [] []) false false None.

(** The formal parameters [(a, a)] and the arguments 1, 2 and 3. *)
Definition repeated_formals : State :=
  mkState (mkShared arguments
             [(LPAR, EmptyString); (IDENTIFIER, "a"%string); (COMMA, EmptyString);
              (IDENTIFIER, "a"%string); (RPAR, EmptyString); (NEWLINE, EmptyString)]
             1 LPAR EmptyString [[]; []] [] [])
          false false None.

(** [if 0] / [print 1] / [else] / [print 2]. *)
Definition if_program : list (token_t * string) :=
  [(IF, EmptyString); (INT, "0"%string); (NEWLINE, EmptyString); (INDENT, EmptyString);
   (PRINT, EmptyString); (INT, "1"%string); (NEWLINE, EmptyString); (DEDENT, EmptyString);
   (ELSE, EmptyString); (NEWLINE, EmptyString); (INDENT, EmptyString);
   (PRINT, EmptyString); (INT, "2"%string); (NEWLINE, EmptyString); (DEDENT, EmptyString)].

(** The state in which statement() calls if_stmnt, and the state after the
    condition. *)
Definition at_if : State :=
  state_of ((function_declaration 30 ;; in_shared scanner_next ;; accept IF)
              (start if_program [])).

Definition after_condition : State := state_of (condition 30 (function_call 30) at_if).

(** In a block, at [break] / [print 1]. *)
Definition at_break : State :=
  mkState (mkShared heap_init
             [(NEWLINE, EmptyString); (INDENT, EmptyString); (BREAK, EmptyString);
              (NEWLINE, EmptyString); (PRINT, EmptyString); (INT, "1"%string);
              (NEWLINE, EmptyString); (DEDENT, EmptyString)]
             3 BREAK EmptyString [[]] [] [])
          false false None.

(** Three queued objects, 2, 3 and 4, and an allocated object, 5, that is
    not queued. *)
Definition three_queued : ObjectQueue.Queue :=
  ObjectQueue.mkQueue
    (<[2%positive := ObjectQueue.mkLinks None (Some 3%positive)]>
       (<[3%positive := ObjectQueue.mkLinks (Some 2%positive) (Some 4%positive)]>
          (<[4%positive := ObjectQueue.mkLinks (Some 3%positive) None]>
             (<[5%positive := ObjectQueue.mkLinks None None]> ∅))))
    (Some 2%positive) (Some 4%positive).

End Samples.

(** * Properties *)

(** ** The monad *)

Lemma bind_Ok {S A B} (m : M S A) (k : A -> M S B) s b s2 :
  bind m k s = Ok b s2 <-> exists a s1, m s = Ok a s1 /\ k a s1 = Ok b s2.
Proof.
  unfold bind. split.
  - destruct (m s) as [a s1| |]; try discriminate. eauto.
  - intros (a & s1 & -> & Hk). exact Hk.
Qed.

Lemma bind_Jump {S A B} (m : M S A) (k : A -> M S B) s s2 :
  bind m k s = Jump s2 <->
  m s = Jump s2 \/ exists a s1, m s = Ok a s1 /\ k a s1 = Jump s2.
Proof.
  unfold bind. split.
  - destruct (m s) as [a s1|s1|]; try discriminate; eauto.
    intros [= ->]. now left.
  - intros [-> | (a & s1 & -> & Hk)]; [reflexivity | exact Hk].
Qed.

Lemma bind_step {S A B} (m : M S A) (k : A -> M S B) s a s1 :
  m s = Ok a s1 -> bind m k s = k a s1.
Proof. unfold bind. now intros ->. Qed.

Lemma bind_abort {S A B} (m : M S A) (k : A -> M S B) s x :
  m s = Abort x -> bind m k s = Abort x.
Proof. unfold bind. now intros ->. Qed.

(** ** Reading the heap *)

Lemma load_Ok obj h o h' : load obj h = Ok o h' <-> h !! obj = Some o /\ h' = h.
Proof.
  unfold load. destruct (h !! obj) eqn:E; split; try discriminate.
  - intros [= -> ->]. auto.
  - intros [[= ->] ->]. reflexivity.
  - intros [? _]. discriminate.
Qed.

Lemma load_some obj h o : h !! obj = Some o -> load obj h = Ok o h.
Proof. intros E. apply load_Ok. auto. Qed.

Lemma reads_Ok {A} (m : M heap A) h a h' : reads m -> m h = Ok a h' -> h' = h.
Proof. intros Hm E. specialize (Hm h). now rewrite E in Hm. Qed.

Lemma reads_ret {A} (a : A) : reads (ret a).
Proof. intros h. reflexivity. Qed.

Lemma reads_error {A} e : reads (@error heap A e).
Proof. intros h. exact I. Qed.

Lemma reads_fault {A} : reads (@fault heap A).
Proof. intros h. exact I. Qed.

Lemma reads_load obj : reads (load obj).
Proof. intros h. unfold load. now destruct (h !! obj). Qed.

Lemma reads_bind {A B} (m : M heap A) (k : A -> M heap B) :
  reads m -> (forall a, reads (k a)) -> reads (bind m k).
Proof.
  intros Hm Hk h. unfold bind. specialize (Hm h).
  destruct (m h) as [a h1| |]; try easy. subst h1. apply Hk.
Qed.

Create HintDb reads.
#[global] Hint Resolve reads_ret reads_error reads_fault reads_load : reads.

Ltac reads :=
  repeat first
    [ progress auto with reads
    | apply reads_bind; [|intros ?]
    | match goal with
      | |- reads (match ?x with _ => _ end) => destruct x
      | |- reads (if ?b then _ else _) => destruct b
      end ].

Lemma reads_TYPE obj : reads (TYPE obj).
Proof. unfold TYPE. reads. Qed.
#[global] Hint Resolve reads_TYPE : reads.

Lemma reads_isNumber obj : reads (isNumber obj).
Proof. unfold isNumber. reads. Qed.
Lemma reads_isString obj : reads (isString obj).
Proof. unfold isString. reads. Qed.
Lemma reads_isList obj : reads (isList obj).
Proof. unfold isList. reads. Qed.
Lemma reads_isSequence obj : reads (isSequence obj).
Proof. unfold isSequence. reads. Qed.
Lemma reads_isListNode obj : reads (isListNode obj).
Proof. unfold isListNode. reads. Qed.
#[global] Hint Resolve reads_isNumber reads_isString reads_isList reads_isSequence
  reads_isListNode : reads.

Lemma reads_obj_from_listnode node : reads (obj_from_listnode node).
Proof. unfold obj_from_listnode. reads. Qed.
#[global] Hint Resolve reads_obj_from_listnode : reads.

Lemma reads_deref_listnode op : reads (deref_listnode op).
Proof. unfold deref_listnode. reads. Qed.
#[global] Hint Resolve reads_deref_listnode : reads.

Lemma TYPE_Ok obj h t h' : TYPE obj h = Ok t h' <-> has_type h obj t /\ h' = h.
Proof.
  unfold TYPE, has_type. rewrite bind_Ok. split.
  - intros (o & h1 & Hl & Hr). apply load_Ok in Hl as [Hl ->].
    injection Hr as <- <-. eauto.
  - intros [(o & Ho & <-) ->]. exists o, h. split; [now apply load_some|reflexivity].
Qed.

Lemma TYPE_has_type obj h t : has_type h obj t -> TYPE obj h = Ok t h.
Proof. intros. apply TYPE_Ok. auto. Qed.

Lemma has_type_fun h obj t u : has_type h obj t -> has_type h obj u -> t = u.
Proof. intros (o & Ho & <-) (o' & Ho' & <-). congruence. Qed.

Lemma has_type_live h obj t : has_type h obj t -> is_Some (h !! obj).
Proof. intros (o & Ho & _). eauto. Qed.

Lemma operand_live h op a t : operand h op a t -> is_Some (h !! op) /\ is_Some (h !! a).
Proof.
  intros [Hd Ht]. split; [|eapply has_type_live; eauto].
  unfold deref_listnode, isListNode in Hd.
  apply bind_Ok in Hd as (b & h1 & Hb & _).
  apply bind_Ok in Hb as (t' & h2 & Hb & _).
  apply TYPE_Ok in Hb as [Hb _]. eapply has_type_live; eauto.
Qed.

Lemma isListNode_has_type h a t :
  has_type h a t -> isListNode a h = Ok (bool_decide (t = LISTNODE_T)) h.
Proof. intros Ht. unfold isListNode. now rewrite (bind_step _ _ _ _ _ (TYPE_has_type _ _ _ Ht)). Qed.

(** An object that is no list node is its own operand. *)
Lemma operand_self h a t : has_type h a t -> t <> LISTNODE_T -> operand h a a t.
Proof.
  intros Ht Hn. split; [|exact Ht].
  unfold deref_listnode.
  rewrite (bind_step _ _ _ _ _ (isListNode_has_type _ _ _ Ht)).
  now rewrite bool_decide_false.
Qed.

Lemma isNumber_has_type h a t : has_type h a t -> isNumber a h = Ok (number_type t) h.
Proof. intros Ht. unfold isNumber. now rewrite (bind_step _ _ _ _ _ (TYPE_has_type _ _ _ Ht)). Qed.
Lemma isString_has_type h a t :
  has_type h a t -> isString a h = Ok (bool_decide (t = STR_T)) h.
Proof. intros Ht. unfold isString. now rewrite (bind_step _ _ _ _ _ (TYPE_has_type _ _ _ Ht)). Qed.
Lemma isList_has_type h a t :
  has_type h a t -> isList a h = Ok (bool_decide (t = LIST_T)) h.
Proof. intros Ht. unfold isList. now rewrite (bind_step _ _ _ _ _ (TYPE_has_type _ _ _ Ht)). Qed.
Lemma isSequence_has_type h a t :
  has_type h a t -> isSequence a h = Ok (sequence_type t) h.
Proof. intros Ht. unfold isSequence. now rewrite (bind_step _ _ _ _ _ (TYPE_has_type _ _ _ Ht)). Qed.

(** ** Allocation *)

Lemma fresh_not_live (h : heap) : h !! fresh (dom h) = None.
Proof. apply not_elem_of_dom. apply is_fresh. Qed.

(** obj_alloc of any type but none: a new object, its count 1. *)
Lemma obj_alloc_new t h :
  t <> NONE_T ->
  obj_alloc t h = Ok (fresh (dom h)) (<[fresh (dom h) := mkObject 1 (default_data t)]> h).
Proof.
  intros Ht. unfold obj_alloc.
  assert (E : type_alloc t h =
              Ok (fresh (dom h)) (<[fresh (dom h) := mkObject 0 (default_data t)]> h))
    by (destruct t; try reflexivity; contradiction).
  rewrite (bind_step _ _ _ _ _ E).
  unfold obj_incref.
  assert (L : load (fresh (dom h)) (<[fresh (dom h) := mkObject 0 (default_data t)]> h) =
              Ok (mkObject 0 (default_data t))
                 (<[fresh (dom h) := mkObject 0 (default_data t)]> h))
    by (apply load_some, lookup_insert_eq).
  unfold bind at 1. unfold bind at 1. rewrite L. unfold store, ret. cbn.
  now rewrite insert_insert_eq.
Qed.

(** obj_alloc(NONE_T): the static object, its count raised. *)
Lemma obj_alloc_none h o :
  h !! none = Some o ->
  obj_alloc NONE_T h = Ok none (<[none := mkObject (refcount o + 1) (data o)]> h).
Proof.
  intros Ho. unfold obj_alloc. cbn. unfold bind, ret, obj_incref, bind.
  now rewrite (load_some _ _ _ Ho).
Qed.

Lemma set_data_live obj d h o :
  h !! obj = Some o -> set_data obj d h = Ok tt (<[obj := mkObject (refcount o) d]> h).
Proof. intros Ho. unfold set_data. now rewrite (bind_step _ _ _ _ _ (load_some _ _ _ Ho)). Qed.

Section ObjectFacts.
Context `{Libc}.

(** obj_create of a scalar or a string: one new object that holds the
    value, its count 1. *)
Lemma obj_create_with_scalar copy decref t arg d h :
  match t, arg with
  | CHAR_T, ArgChar c => d = CharData c
  | INT_T, ArgInt i => d = IntData i
  | FLOAT_T, ArgFloat f => d = FloatData f
  | STR_T, ArgStr s => d = StrData s
  | _, _ => False
  end ->
  obj_create_with copy decref t arg h =
  Ok (fresh (dom h)) (<[fresh (dom h) := mkObject 1 d]> h).
Proof.
  intros Hd. unfold obj_create_with.
  assert (Ht : t <> NONE_T) by (destruct t, arg; try contradiction; discriminate).
  rewrite (bind_step _ _ _ _ _ (obj_alloc_new t h Ht)).
  set (a := fresh (dom h)). set (h1 := <[a := _]> h).
  assert (L : h1 !! a = Some (mkObject 1 (default_data t))) by apply lookup_insert_eq.
  unfold type_set. unfold bind at 1. unfold bind at 1.
  rewrite (load_some _ _ _ L).
  destruct t, arg; try contradiction; subst d; cbn;
    rewrite (set_data_live _ _ _ _ L); unfold ret; cbn; subst h1;
    now rewrite insert_insert_eq.
Qed.

Lemma obj_create_int fuel i h :
  obj_create fuel INT_T (ArgInt i) h =
  Ok (fresh (dom h)) (<[fresh (dom h) := mkObject 1 (IntData i)]> h).
Proof. unfold obj_create. now apply obj_create_with_scalar. Qed.

End ObjectFacts.

(** ** str_to_char *)

Lemma escape_sequence_spec e c : escape_sequence e = Some c <-> In (e, c) escapes.
Proof.
  unfold escape_sequence, escapes. split.
  - repeat match goal with
           | |- context [Ascii.eqb e ?x] =>
               destruct (Ascii.eqb_spec e x) as [->|?]; [intros [= <-]; cbn; tauto|]
           end.
    discriminate.
  - cbn. intros Hin.
    repeat (destruct Hin as [[= <- <-]|Hin]; [reflexivity|]).
    contradiction.
Qed.

Lemma escape_sequence_none e : (forall c, ~ In (e, c) escapes) -> escape_sequence e = None.
Proof.
  intros Hn. destruct (escape_sequence e) as [c|] eqn:E; [|reflexivity].
  apply escape_sequence_spec in E. now apply Hn in E.
Qed.

Lemma is_nul_false c : c <> Ascii.zero -> is_nul c = false.
Proof. intros Hc. unfold is_nul. now apply Ascii.eqb_neq. Qed.

Lemma not_backslash c : c <> "\"%char -> Ascii.eqb c "\" = false.
Proof. apply Ascii.eqb_neq. Qed.

(** C6, as the code has it: str_to_char accepts exactly the ten escape
    sequences and the single characters; any other escape sequence stops
    with ValueError; an empty constant and a constant of more than one
    character stop with SyntaxError. *)
Theorem str_to_char_spec (S : Type) (st : S) :
  (forall e c, In (e, c) escapes ->
     str_to_char (String "\" (String e EmptyString)) st = Ok c st) /\
  (forall c, c <> "\"%char -> c <> Ascii.zero ->
     str_to_char (String c EmptyString) st = Ok c st) /\
  (forall e rest, (forall c, ~ In (e, c) escapes) ->
     str_to_char (String "\" (String e rest)) st = Abort (Raise ValueError)) /\
  str_to_char (String "\" EmptyString) st = Abort (Raise ValueError) /\
  str_to_char EmptyString st = Abort (Raise SyntaxError) /\
  (forall c d rest, c <> "\"%char -> c <> Ascii.zero -> d <> Ascii.zero ->
     str_to_char (String c (String d rest)) st = Abort (Raise SyntaxError)) /\
  (forall e c d rest, In (e, c) escapes -> d <> Ascii.zero ->
     str_to_char (String "\" (String e (String d rest))) st = Abort (Raise SyntaxError)) /\
  (forall s c st', str_to_char s st = Ok c st' ->
     st' = st /\
     ((c_string s = String c EmptyString /\ c <> "\"%char) \/
      exists e, c_string s = String "\" (String e EmptyString) /\ In (e, c) escapes)).
Proof.
  repeat split.
  - intros e c Hin. apply escape_sequence_spec in Hin.
    unfold str_to_char, bind. cbn. now rewrite Hin.
  - intros c Hb Hz. unfold str_to_char, bind. cbn.
    rewrite (not_backslash _ Hb), (is_nul_false _ Hz). reflexivity.
  - intros e rest Hn. unfold str_to_char, bind. cbn.
    now rewrite (escape_sequence_none _ Hn).
  - intros c d rest Hb Hz Hd. unfold str_to_char, bind. cbn.
    rewrite (not_backslash _ Hb), (is_nul_false _ Hz). cbn.
    now rewrite (is_nul_false _ Hd).
  - intros e c d rest Hin Hd. apply escape_sequence_spec in Hin.
    unfold str_to_char, bind. cbn. rewrite Hin. cbn. now rewrite (is_nul_false _ Hd).
  - unfold str_to_char, bind in H.
    destruct (Ascii.eqb (peek s) "\"); cbn in H.
    + destruct (escape_sequence _); cbn in H; [|discriminate].
      destruct (negb _); now inversion H.
    + destruct (is_nul (peek s)); cbn in H; [discriminate|].
      destruct (negb _); now inversion H.
  - unfold str_to_char, bind in H.
    destruct s as [|a s]; cbn in H; [discriminate|].
    destruct (Ascii.eqb_spec a "\") as [->|Ha]; cbn in H.
    + right. destruct s as [|e s]; cbn in H; [discriminate|].
      destruct (escape_sequence e) as [x|] eqn:E; cbn in H; [|discriminate].
      destruct (is_nul (peek s)) eqn:Hn; cbn in H; [|discriminate].
      injection H as <- _. exists e. split; [|now apply escape_sequence_spec].
      cbn. assert (He : is_nul e = false).
      { destruct (is_nul e) eqn:Hz; [|reflexivity].
        apply Ascii.eqb_eq in Hz. subst e. discriminate. }
      rewrite He. do 2 f_equal.
      destruct s as [|d s]; [reflexivity|]. cbn in *. now rewrite Hn.
    + left. destruct (is_nul a) eqn:Hz; cbn in H; [discriminate|].
      destruct (is_nul (peek s)) eqn:Hn; cbn in H; [|discriminate].
      injection H as <- _. split; [|exact Ha]. cbn. rewrite Hz. f_equal.
      destruct s as [|d s]; [reflexivity|]. cbn in *. now rewrite Hn.
Qed.

(** C6, where the spec differs: the empty constant and the constant of two
    characters stop with SyntaxError, not with ValueError. *)
Lemma str_to_char_malformed_SyntaxError :
  str_to_char EmptyString tt = Abort (Raise SyntaxError) /\
  str_to_char "ab" tt = Abort (Raise SyntaxError) /\
  str_to_char EmptyString tt <> Abort (Raise ValueError) /\
  str_to_char "ab" tt <> Abort (Raise ValueError).
Proof. repeat split; discriminate. Qed.

(** ** The operators and their operand types *)

(** The reads of the heap stop with a fault only. *)
Lemma load_abort op (h : heap) x : load op h = Abort x -> x = Fault.
Proof. unfold load. destruct (h !! op); [discriminate|congruence]. Qed.

Lemma TYPE_abort op (h : heap) x : TYPE op h = Abort x -> x = Fault.
Proof.
  unfold TYPE, bind. destruct (load op h) eqn:E; try discriminate.
  intros [= <-]. eapply load_abort; eauto.
Qed.

Lemma isNumber_abort op (h : heap) x : isNumber op h = Abort x -> x = Fault.
Proof.
  unfold isNumber, bind. destruct (TYPE op h) eqn:E; try discriminate.
  intros [= <-]. eapply TYPE_abort; eauto.
Qed.

Lemma obj_from_listnode_abort op (h : heap) x :
  obj_from_listnode op h = Abort x -> x = Fault.
Proof.
  unfold obj_from_listnode, bind. destruct (load op h) as [o h1| |y] eqn:E; try discriminate.
  - destruct (data o) as [| | | | |[z|]| |]; unfold fault, ret; congruence.
  - intros [= <-]. eapply load_abort; eauto.
Qed.

Lemma deref_listnode_abort op (h : heap) x : deref_listnode op h = Abort x -> x = Fault.
Proof.
  unfold deref_listnode, isListNode, bind.
  destruct (TYPE op h) as [t h1| |y] eqn:E; try discriminate.
  - cbn. destruct (bool_decide _); [apply obj_from_listnode_abort|discriminate].
  - intros [= <-]. eapply TYPE_abort; eauto.
Qed.

Section OperatorFacts.
Context `{Libc} `{NumberType} `{StrType} `{ListType}.

(** The start of every binary operator: both operands leave their list
    nodes, and their types are read. *)
Lemma operands_step {A} (h : heap) op1 op2 a b t1 t2
    (k : ptr -> ptr -> bool -> bool -> bool -> bool -> bool -> bool -> M heap A) :
  operand h op1 a t1 -> operand h op2 b t2 ->
  (let* op1 := deref_listnode op1 in
   let* op2 := deref_listnode op2 in
   let* n1 := isNumber op1 in
   let* n2 := isNumber op2 in
   let* s1 := isString op1 in
   let* s2 := isString op2 in
   let* l1 := isList op1 in
   let* l2 := isList op2 in
   k op1 op2 n1 n2 s1 s2 l1 l2) h =
  k a b (number_type t1) (number_type t2)
    (bool_decide (t1 = STR_T)) (bool_decide (t2 = STR_T))
    (bool_decide (t1 = LIST_T)) (bool_decide (t2 = LIST_T)) h.
Proof.
  intros [D1 T1] [D2 T2].
  rewrite (bind_step _ _ _ _ _ D1), (bind_step _ _ _ _ _ D2).
  rewrite (bind_step _ _ _ _ _ (isNumber_has_type _ _ _ T1)).
  rewrite (bind_step _ _ _ _ _ (isNumber_has_type _ _ _ T2)).
  rewrite (bind_step _ _ _ _ _ (isString_has_type _ _ _ T1)).
  rewrite (bind_step _ _ _ _ _ (isString_has_type _ _ _ T2)).
  rewrite (bind_step _ _ _ _ _ (isList_has_type _ _ _ T1)).
  now rewrite (bind_step _ _ _ _ _ (isList_has_type _ _ _ T2)).
Qed.

Lemma number_only_step f (h : heap) op1 op2 a b t1 t2 :
  operand h op1 a t1 -> operand h op2 b t2 ->
  number_only f op1 op2 h =
  if number_type t1 && number_type t2 then f a b h else Abort (Raise TypeError).
Proof.
  intros [D1 T1] [D2 T2]. unfold number_only.
  rewrite (bind_step _ _ _ _ _ D1), (bind_step _ _ _ _ _ D2).
  rewrite (bind_step _ _ _ _ _ (isNumber_has_type _ _ _ T1)).
  rewrite (bind_step _ _ _ _ _ (isNumber_has_type _ _ _ T2)).
  now destruct (_ && _).
Qed.

Lemma number_only1_step f (h : heap) op1 a t1 :
  operand h op1 a t1 ->
  number_only1 f op1 h = if number_type t1 then f a h else Abort (Raise TypeError).
Proof.
  intros [D1 T1]. unfold number_only1.
  rewrite (bind_step _ _ _ _ _ D1).
  rewrite (bind_step _ _ _ _ _ (isNumber_has_type _ _ _ T1)).
  now destruct (number_type t1).
Qed.

(** An operator that returns has read both operands: they are live. *)
Lemma deref_listnode_Ok op h a h' :
  deref_listnode op h = Ok a h' -> h' = h /\ is_Some (h !! op).
Proof.
  intros E. split; [eapply reads_Ok; eauto with reads|].
  unfold deref_listnode in E. apply bind_Ok in E as (b & h1 & Hb & _).
  unfold isListNode in Hb. apply bind_Ok in Hb as (t & h2 & Ht & _).
  apply TYPE_Ok in Ht as [Ht _]. eapply has_type_live; eauto.
Qed.

Lemma isNumber_Ok op h n h' :
  isNumber op h = Ok n h' -> h' = h /\ exists t, has_type h op t /\ n = number_type t.
Proof.
  intros E. unfold isNumber in E. apply bind_Ok in E as (t & h1 & Ht & Hr).
  apply TYPE_Ok in Ht as [Ht ->]. injection Hr as <- <-. eauto.
Qed.

(** The operands of a binary operator that got past its first lines. *)
Lemma operands_of {A} (h : heap) op1 op2 (k : ptr -> ptr -> M heap A) r h' :
  (let* op1 := deref_listnode op1 in
   let* op2 := deref_listnode op2 in
   k op1 op2) h = Ok r h' ->
  exists a b, deref_listnode op1 h = Ok a h /\ deref_listnode op2 h = Ok b h /\
              is_Some (h !! op1) /\ is_Some (h !! op2) /\ k a b h = Ok r h'.
Proof.
  intros E. apply bind_Ok in E as (a & h1 & D1 & E).
  apply deref_listnode_Ok in D1 as D1'. destruct D1' as [-> L1].
  apply bind_Ok in E as (b & h2 & D2 & E).
  apply deref_listnode_Ok in D2 as D2'. destruct D2' as [-> L2].
  exists a, b. auto.
Qed.

(** *** The [*] operator *)


(** *** Equality *)

Lemma equality_step fuel fnum fstr flist different (h : heap) op1 op2 a b t1 t2 :
  operand h op1 a t1 -> operand h op2 b t2 ->
  equality fuel fnum fstr flist different op1 op2 h =
  if number_type t1 && number_type t2 then fnum a b h
  else if bool_decide (t1 = STR_T) && bool_decide (t2 = STR_T) then fstr a b h
  else if bool_decide (t1 = LIST_T) && bool_decide (t2 = LIST_T) then flist a b h
  else Ok (fresh (dom h)) (<[fresh (dom h) := mkObject 1 (IntData different)]> h).
Proof.
  intros O1 O2. unfold equality.
  rewrite (operands_step h op1 op2 a b t1 t2
             (fun op1 op2 n1 n2 s1 s2 l1 l2 =>
                if n1 && n2 then fnum op1 op2
                else if s1 && s2 then fstr op1 op2
                else if l1 && l2 then flist op1 op2
                else obj_create fuel INT_T (ArgInt different)) O1 O2).
  repeat (destruct (_ && _); [reflexivity|]).
  apply obj_create_int.
Qed.

Lemma equality_no_TypeError fuel fnum fstr flist different (h : heap) op1 op2 :
  admits fnum number_type ->
  admits fstr (fun t => bool_decide (t = STR_T)) ->
  admits flist (fun t => bool_decide (t = LIST_T)) ->
  equality fuel fnum fstr flist different op1 op2 h <> Abort (Raise TypeError).
Proof.
  intros Hn Hs Hl E.
  destruct (deref_listnode op1 h) as [a h1|h1|x] eqn:D1.
  2:{ pose proof (reads_deref_listnode op1 h) as R. now rewrite D1 in R. }
  2:{ unfold equality in E. rewrite (bind_abort _ _ _ _ D1) in E.
      apply deref_listnode_abort in D1. congruence. }
  apply deref_listnode_Ok in D1 as D1'. destruct D1' as [-> _].
  destruct (deref_listnode op2 h) as [b h2|h2|x] eqn:D2.
  2:{ pose proof (reads_deref_listnode op2 h) as R. now rewrite D2 in R. }
  2:{ unfold equality in E. rewrite (bind_step _ _ _ _ _ D1), (bind_abort _ _ _ _ D2) in E.
      apply deref_listnode_abort in D2. congruence. }
  apply deref_listnode_Ok in D2 as D2'. destruct D2' as [-> _].
  destruct (isNumber a h) as [n1 h1|h1|x] eqn:N1.
  2:{ pose proof (reads_isNumber a h) as R. now rewrite N1 in R. }
  2:{ unfold equality in E.
      rewrite (bind_step _ _ _ _ _ D1), (bind_step _ _ _ _ _ D2), (bind_abort _ _ _ _ N1) in E.
      apply isNumber_abort in N1. congruence. }
  apply isNumber_Ok in N1 as (-> & t1 & Ta & ->).
  destruct (isNumber b h) as [n2 h2|h2|x] eqn:N2.
  2:{ pose proof (reads_isNumber b h) as R. now rewrite N2 in R. }
  2:{ unfold equality in E.
      rewrite (bind_step _ _ _ _ _ D1), (bind_step _ _ _ _ _ D2) in E.
      rewrite (bind_step _ _ _ _ _ (isNumber_has_type _ _ _ Ta)), (bind_abort _ _ _ _ N2) in E.
      apply isNumber_abort in N2. congruence. }
  apply isNumber_Ok in N2 as (-> & t2 & Tb & ->).
  rewrite (equality_step fuel fnum fstr flist different h op1 op2 a b _ _
             (conj D1 Ta) (conj D2 Tb)) in E.
  destruct (number_type _ && number_type _) eqn:N.
  { apply andb_prop in N as [N1 N2]. exact (Hn h a b _ _ Ta Tb N1 N2 E). }
  destruct (bool_decide (t1 = STR_T) && bool_decide _) eqn:S.
  { apply andb_prop in S as [S1 S2]. exact (Hs h a b _ _ Ta Tb S1 S2 E). }
  destruct (bool_decide (t1 = LIST_T) && bool_decide _) eqn:L.
  { apply andb_prop in L as [L1 L2]. exact (Hl h a b _ _ Ta Tb L1 L2 E). }
  discriminate.
Qed.

(** C4: on operands whose types are not both numeric, not both string and
    not both list, [==] returns a new int 0 and [!=] a new int 1; and
    neither operator stops with TypeError, whatever the operands, as long
    as the comparison methods of the types do not on operands of their
    own type. *)
Theorem obj_eql_neq_never_TypeError fuel (h : heap) op1 op2 :
  admits number_eql number_type ->
  admits str_eql (fun t => bool_decide (t = STR_T)) ->
  admits list_eql (fun t => bool_decide (t = LIST_T)) ->
  admits number_neq number_type ->
  admits str_neq (fun t => bool_decide (t = STR_T)) ->
  admits list_neq (fun t => bool_decide (t = LIST_T)) ->
  (forall a b t1 t2,
     operand h op1 a t1 -> operand h op2 b t2 -> comparable t1 t2 = false ->
     obj_eql fuel op1 op2 h =
       Ok (fresh (dom h)) (<[fresh (dom h) := mkObject 1 (IntData 0)]> h) /\
     obj_neq fuel op1 op2 h =
       Ok (fresh (dom h)) (<[fresh (dom h) := mkObject 1 (IntData 1)]> h)) /\
  obj_eql fuel op1 op2 h <> Abort (Raise TypeError) /\
  obj_neq fuel op1 op2 h <> Abort (Raise TypeError).
Proof.
  intros Hne Hse Hle Hnn Hsn Hln. split; [|split].
  - intros a b t1 t2 O1 O2 Hc. unfold obj_eql, obj_neq.
    rewrite !(equality_step _ _ _ _ _ h op1 op2 a b t1 t2 O1 O2).
    unfold comparable in Hc.
    apply orb_false_elim in Hc as [Hc Hl]. apply orb_false_elim in Hc as [Hn Hs].
    now rewrite Hn, Hs, Hl.
  - now apply equality_no_TypeError.
  - now apply equality_no_TypeError.
Qed.

End OperatorFacts.

(** ** Results of the operators *)

Lemma allocates_error e : allocates (error e).
Proof. intros h. exact I. Qed.

Section OperatorResults.
Context `{Libc} `{NumberType} `{StrType} `{ListType}.

(** The first lines of a binary operator either find both operands, or
    read through a dangling pointer. *)
Lemma binary_prefix {A} (h : heap) op1 op2 (k : ptr -> ptr -> bool -> bool -> M heap A) :
  (exists a b t1 t2,
     operand h op1 a t1 /\ operand h op2 b t2 /\
     (let* op1 := deref_listnode op1 in
      let* op2 := deref_listnode op2 in
      let* n1 := isNumber op1 in
      let* n2 := isNumber op2 in
      k op1 op2 n1 n2) h = k a b (number_type t1) (number_type t2) h) \/
  (let* op1 := deref_listnode op1 in
   let* op2 := deref_listnode op2 in
   let* n1 := isNumber op1 in
   let* n2 := isNumber op2 in
   k op1 op2 n1 n2) h = Abort Fault.
Proof.
  destruct (deref_listnode op1 h) as [a h1|h1|x] eqn:D1.
  2:{ pose proof (reads_deref_listnode op1 h) as R. now rewrite D1 in R. }
  2:{ right. rewrite (bind_abort _ _ _ _ D1). apply deref_listnode_abort in D1. congruence. }
  apply deref_listnode_Ok in D1 as D1'. destruct D1' as [-> _].
  rewrite (bind_step _ _ _ _ _ D1).
  destruct (deref_listnode op2 h) as [b h2|h2|x] eqn:D2.
  2:{ pose proof (reads_deref_listnode op2 h) as R. now rewrite D2 in R. }
  2:{ right. rewrite (bind_abort _ _ _ _ D2). apply deref_listnode_abort in D2. congruence. }
  apply deref_listnode_Ok in D2 as D2'. destruct D2' as [-> _].
  rewrite (bind_step _ _ _ _ _ D2).
  destruct (isNumber a h) as [n1 h1|h1|x] eqn:N1.
  2:{ pose proof (reads_isNumber a h) as R. now rewrite N1 in R. }
  2:{ right. rewrite (bind_abort _ _ _ _ N1). apply isNumber_abort in N1. congruence. }
  apply isNumber_Ok in N1 as N1'. destruct N1' as (-> & t1 & Ta & ->).
  rewrite (bind_step _ _ _ _ _ N1).
  destruct (isNumber b h) as [n2 h2|h2|x] eqn:N2.
  2:{ pose proof (reads_isNumber b h) as R. now rewrite N2 in R. }
  2:{ right. rewrite (bind_abort _ _ _ _ N2). apply isNumber_abort in N2. congruence. }
  apply isNumber_Ok in N2 as N2'. destruct N2' as (-> & t2 & Tb & ->).
  rewrite (bind_step _ _ _ _ _ N2).
  left. exists a, b, t1, t2. repeat split; assumption.
Qed.

Lemma unary_prefix {A} (h : heap) op1 (k : ptr -> bool -> M heap A) :
  (exists a t1,
     operand h op1 a t1 /\
     (let* op1 := deref_listnode op1 in
      let* n1 := isNumber op1 in
      k op1 n1) h = k a (number_type t1) h) \/
  (let* op1 := deref_listnode op1 in
   let* n1 := isNumber op1 in
   k op1 n1) h = Abort Fault.
Proof.
  destruct (deref_listnode op1 h) as [a h1|h1|x] eqn:D1.
  2:{ pose proof (reads_deref_listnode op1 h) as R. now rewrite D1 in R. }
  2:{ right. rewrite (bind_abort _ _ _ _ D1). apply deref_listnode_abort in D1. congruence. }
  apply deref_listnode_Ok in D1 as D1'. destruct D1' as [-> _].
  rewrite (bind_step _ _ _ _ _ D1).
  destruct (isNumber a h) as [n1 h1|h1|x] eqn:N1.
  2:{ pose proof (reads_isNumber a h) as R. now rewrite N1 in R. }
  2:{ right. rewrite (bind_abort _ _ _ _ N1). apply isNumber_abort in N1. congruence. }
  apply isNumber_Ok in N1 as N1'. destruct N1' as (-> & t1 & Ta & ->).
  rewrite (bind_step _ _ _ _ _ N1).
  left. exists a, t1. repeat split; assumption.
Qed.

Lemma fresh_result_allocates m (h : heap) ops :
  allocates m -> Forall (fun op => is_Some (h !! op)) ops -> fresh_result h ops (m h).
Proof.
  intros Hm Hl. specialize (Hm h). unfold fresh_result.
  destruct (m h) as [r h'| |]; try easy.
  destruct Hm as [Hr Hd]. repeat split; try assumption.
  eapply Forall_impl; [exact Hl|]. intros op [o Ho] ->. cbn in Ho. congruence.
Qed.

Lemma allocates_obj_create_int fuel i : allocates (obj_create fuel INT_T (ArgInt i)).
Proof.
  intros h. rewrite obj_create_int. split; [apply fresh_not_live|].
  eexists. apply lookup_insert_eq.
Qed.

Lemma number_only_fresh f (h : heap) op1 op2 :
  (forall a b, allocates (f a b)) ->
  fresh_result h [op1; op2] (number_only f op1 op2 h).
Proof.
  intros Hf. unfold number_only.
  destruct (binary_prefix h op1 op2
              (fun op1 op2 n1 n2 => if n1 && n2 then f op1 op2 else error TypeError))
    as [(a & b & t1 & t2 & O1 & O2 & ->)| ->]; [|exact I].
  destruct (_ && _); [|exact I].
  apply fresh_result_allocates; [apply Hf|].
  repeat constructor; [apply (operand_live _ _ _ _ O1)|apply (operand_live _ _ _ _ O2)].
Qed.

Lemma number_only1_fresh f (h : heap) op1 :
  (forall a, allocates (f a)) ->
  fresh_result h [op1] (number_only1 f op1 h).
Proof.
  intros Hf. unfold number_only1.
  destruct (unary_prefix h op1 (fun op1 n1 => if n1 then f op1 else error TypeError))
    as [(a & t1 & O1 & ->)| ->]; [|exact I].
  destruct (number_type t1); [|exact I].
  apply fresh_result_allocates; [apply Hf|].
  repeat constructor. apply (operand_live _ _ _ _ O1).
Qed.

(** After the types of both operands were read, the three further tests
    of obj_add, obj_mult and the equalities read them again. *)
Lemma kinds_step {A} (h : heap) a b t1 t2
    (k : bool -> bool -> bool -> bool -> M heap A) :
  has_type h a t1 -> has_type h b t2 ->
  (let* s1 := isString a in
   let* s2 := isString b in
   let* l1 := isList a in
   let* l2 := isList b in
   k s1 s2 l1 l2) h =
  k (bool_decide (t1 = STR_T)) (bool_decide (t2 = STR_T))
    (bool_decide (t1 = LIST_T)) (bool_decide (t2 = LIST_T)) h.
Proof.
  intros T1 T2.
  rewrite (bind_step _ _ _ _ _ (isString_has_type _ _ _ T1)).
  rewrite (bind_step _ _ _ _ _ (isString_has_type _ _ _ T2)).
  rewrite (bind_step _ _ _ _ _ (isList_has_type _ _ _ T1)).
  now rewrite (bind_step _ _ _ _ _ (isList_has_type _ _ _ T2)).
Qed.

Lemma three_way_fresh (f1 f2 f3 : ptr -> ptr -> M heap ptr)
    (c2 c3 : bool -> bool -> bool -> bool -> bool -> bool -> bool)
    (last : M heap ptr) (h : heap) op1 op2 :
  (forall a b, allocates (f1 a b)) -> (forall a b, allocates (f2 a b)) ->
  (forall a b, allocates (f3 a b)) -> allocates last ->
  fresh_result h [op1; op2]
    ((let* op1 := deref_listnode op1 in
      let* op2 := deref_listnode op2 in
      let* n1 := isNumber op1 in
      let* n2 := isNumber op2 in
      let* s1 := isString op1 in
      let* s2 := isString op2 in
      let* l1 := isList op1 in
      let* l2 := isList op2 in
      if n1 && n2 then f1 op1 op2
      else if c2 n1 n2 s1 s2 l1 l2 then f2 op1 op2
      else if c3 n1 n2 s1 s2 l1 l2 then f3 op1 op2
      else last) h).
Proof.
  intros A1 A2 A3 Al.
  destruct (binary_prefix h op1 op2
              (fun op1 op2 n1 n2 =>
                 let* s1 := isString op1 in
                 let* s2 := isString op2 in
                 let* l1 := isList op1 in
                 let* l2 := isList op2 in
                 if n1 && n2 then f1 op1 op2
                 else if c2 n1 n2 s1 s2 l1 l2 then f2 op1 op2
                 else if c3 n1 n2 s1 s2 l1 l2 then f3 op1 op2
                 else last))
    as [(a & b & t1 & t2 & O1 & O2 & ->)| ->]; [|exact I].
  rewrite (kinds_step h a b t1 t2
             (fun s1 s2 l1 l2 =>
                if number_type t1 && number_type t2 then f1 a b
                else if c2 (number_type t1) (number_type t2) s1 s2 l1 l2 then f2 a b
                else if c3 (number_type t1) (number_type t2) s1 s2 l1 l2 then f3 a b
                else last) (proj2 O1) (proj2 O2)).
  assert (L : Forall (fun op => is_Some (h !! op)) [op1; op2]).
  { repeat constructor; [apply (operand_live _ _ _ _ O1)|apply (operand_live _ _ _ _ O2)]. }
  repeat (destruct (_ : bool); [apply fresh_result_allocates; auto|]).
  apply fresh_result_allocates; auto.
Qed.



(** ** The [in] operator *)

(** C1, as the code has it: [x in s] stops with TypeError when [s] is no
    sequence; when [s] is a sequence without elements, the loop is not
    entered and the result is the NULL pointer it started with, not an int
    object. *)
Theorem obj_in_empty_sequence fuel (h : heap) op1 op2 a b t1 t2 :
  operand h op1 a t1 -> operand h op2 b t2 ->
  (sequence_type t2 = false -> obj_in fuel op1 op2 h = Abort (Raise TypeError)) /\
  (sequence_type t2 = true ->
   forall len h', obj_length fuel b h = Ok len h' -> len <= 0 ->
                  obj_in fuel op1 op2 h = Ok None h').
Proof.
  intros [D1 T1] [D2 T2]. unfold obj_in.
  rewrite (bind_step _ _ _ _ _ D1), (bind_step _ _ _ _ _ D2).
  rewrite (bind_step _ _ _ _ _ (isSequence_has_type _ _ _ T2)).
  split; intros Hs; rewrite Hs; cbn [negb when].
  - reflexivity.
  - intros len h' Hlen Hle.
    unfold bind at 1. cbn [ret].
    rewrite (bind_step _ _ _ _ _ Hlen).
    replace (Z.to_nat len) with O by lia. reflexivity.
Qed.

End OperatorResults.

(** ** Deep copies *)

Lemma bind_bind {S A B C} (m : M S A) (f : A -> M S B) (g : B -> M S C) s :
  bind (bind m f) g s = bind m (fun x => bind (f x) g) s.
Proof. unfold bind. now destruct (m s). Qed.

Lemma node_holds_impl (P Q : ptr -> Prop) (R R' : ptr -> value -> Prop) (h h' : heap) node w :
  (P node -> Q node) ->
  (forall o, P node -> h !! node = Some o -> h' !! node = Some o) ->
  (forall x, R x w -> R' x w) ->
  node_holds P R h node w -> node_holds Q R' h' node w.
Proof.
  intros Hp Hh Hr (Pn & o & x & Ho & Hd & Hx).
  split; [auto|]. exists o, x. auto.
Qed.

(** How [holds] passes from one heap and predicate to another. *)
Lemma holds_transport (P Q : ptr -> Prop) n (h h' : heap) :
  (forall x, P x -> Q x) ->
  (forall x o, P x -> h !! x = Some o -> h' !! x = Some o) ->
  forall a v, holds P n h a v -> holds Q n h' a v.
Proof.
  intros Hpq Hh. induction n as [|n IH]; intros a v Hv; [contradiction|].
  cbn in *. destruct Hv as (Pa & o & Ho & Hd).
  split; [auto|]. exists o. split; [eauto|].
  destruct (data o) as [| | | |nodes|[x|]| |]; try assumption.
  - destruct Hd as (vs & -> & Hf). exists vs. split; [reflexivity|].
    eapply Forall2_impl; [exact Hf|]. intros node w.
    apply node_holds_impl; eauto.
  - now apply IH.
Qed.

Lemma holds_mono P n m (h : heap) a v : (n <= m)%nat -> holds P n h a v -> holds P m h a v.
Proof.
  revert m a v. induction n as [|n IH]; intros m a v Hle Hv; [contradiction|].
  destruct m as [|m]; [lia|]. cbn in *. destruct Hv as (Pa & o & Ho & Hd).
  split; [exact Pa|]. exists o. split; [exact Ho|].
  destruct (data o) as [| | | |nodes|[x|]| |]; try assumption.
  - destruct Hd as (vs & -> & Hf). exists vs. split; [reflexivity|].
    eapply Forall2_impl; [exact Hf|]. intros node w.
    apply node_holds_impl; auto. intros. apply IH; [lia|assumption].
  - apply IH; [lia|assumption].
Qed.

(** The value depends on the cells that take part in it only. *)
Lemma holds_local P n (h h' : heap) a v :
  (forall x, P x -> h' !! x = h !! x) -> holds P n h a v -> holds P n h' a v.
Proof.
  intros Hl. apply holds_transport; [auto|]. intros x o Px Hx. now rewrite Hl.
Qed.

Lemma holds_extend P n (h h' : heap) a v : h ⊆ h' -> holds P n h a v -> holds P n h' a v.
Proof.
  intros Hs. apply holds_transport; [auto|]. intros x o _ Hx. eapply lookup_weaken; eauto.
Qed.

Lemma holds_weaken (P Q : ptr -> Prop) n (h : heap) a v :
  (forall x, P x -> Q x) -> holds P n h a v -> holds Q n h a v.
Proof. intros Hpq. apply holds_transport; auto. Qed.

Lemma new_in_subseteq (h0 h1 : heap) x : h0 ⊆ h1 -> new_in h1 x -> new_in h0 x.
Proof.
  unfold new_in. intros Hs Hx. destruct (h0 !! x) as [o|] eqn:E; [|reflexivity].
  apply (lookup_weaken _ _ _ _ E) in Hs. congruence.
Qed.

Lemma insert_fresh_subseteq (h : heap) o : h ⊆ <[fresh (dom h) := o]> h.
Proof. apply insert_subseteq, fresh_not_live. Qed.

Section CopyFacts.
Context `{Libc}.

Lemma obj_from_listnode_some node (h : heap) o x :
  h !! node = Some o -> data o = ListNodeData (Some x) -> obj_from_listnode node h = Ok x h.
Proof.
  intros Ho Hd. unfold obj_from_listnode.
  rewrite (bind_step _ _ _ _ _ (load_some _ _ _ Ho)). now rewrite Hd.
Qed.

Lemma listnode_new_spec x (h : heap) :
  listnode_new x h =
  Ok (fresh (dom h)) (<[fresh (dom h) := mkObject 1 (ListNodeData (Some x))]> h).
Proof.
  unfold listnode_new.
  rewrite (bind_step _ _ _ _ _ (obj_alloc_new LISTNODE_T h ltac:(discriminate))).
  unfold bind at 1.
  rewrite (set_data_live _ _ _ _ (lookup_insert_eq _ _ _)). cbn.
  now rewrite insert_insert_eq.
Qed.

(** The copies of the elements of a list, made by the list setter. *)
Lemma copy_nodes_spec (copy : ptr -> M heap ptr) k nodes :
  copies copy k ->
  forall (h : heap) vs,
  Forall2 (node_holds (fun _ => True) (has_value k h) h) nodes vs ->
  exists new h',
    traverse (fun node => let* x := obj_from_listnode node in
                          let* c := copy x in
                          listnode_new c) nodes h = Ok new h' /\
    h ⊆ h' /\ Forall2 (node_holds (new_in h) (holds (new_in h) k h') h') new vs.
Proof.
  intros Hcopy. induction nodes as [|node nodes IH]; intros h vs Hf.
  - apply Forall2_nil_inv_l in Hf as ->. exists [], h. repeat split; [reflexivity|constructor].
  - apply Forall2_cons_inv_l in Hf as (v & vs' & Hv & Hf & ->).
    destruct Hv as (_ & o & x & Ho & Ed & Hx).
    destruct (Hcopy h x v Hx) as (c & h1 & Hc & Hs1 & Hcv).
    cbn [traverse].
    rewrite bind_bind, (bind_step _ _ _ _ _ (obj_from_listnode_some _ _ _ _ Ho Ed)).
    rewrite bind_bind, (bind_step _ _ _ _ _ Hc).
    rewrite (bind_step _ _ _ _ _ (listnode_new_spec c h1)).
    set (n' := fresh (dom h1)). set (h2 := <[n' := _]> h1).
    assert (Hs2 : h1 ⊆ h2) by apply insert_fresh_subseteq.
    assert (Hs02 : h ⊆ h2) by (etrans; eauto).
    destruct (IH h2 vs') as (new & h3 & Ht & Hs3 & Hnew).
    { eapply Forall2_impl; [exact Hf|]. intros node' w.
      apply node_holds_impl; auto.
      - intros o' _ Ho'. eapply lookup_weaken; eauto.
      - intros y. apply holds_extend. exact Hs02. }
    rewrite (bind_step _ _ _ _ _ Ht). cbn [ret].
    exists (n' :: new), h3. split; [reflexivity|]. split; [etrans; eauto|].
    constructor.
    + split; [eapply new_in_subseteq; [exact Hs1|]; apply fresh_not_live|].
      exists (mkObject 1 (ListNodeData (Some c))), c.
      split; [eapply lookup_weaken; [apply lookup_insert_eq|exact Hs3]|].
      split; [reflexivity|].
      apply (holds_extend _ _ h1 h3); [etrans; eauto|exact Hcv].
    + eapply Forall2_impl; [exact Hnew|]. intros a' w.
      apply node_holds_impl; auto.
      * apply new_in_subseteq. exact Hs02.
      * intros y. apply holds_weaken. intros z. apply new_in_subseteq. exact Hs02.
Qed.

Lemma deref_not_listnode (h : heap) a o :
  h !! a = Some o -> type_of (data o) <> LISTNODE_T -> deref_listnode a h = Ok a h.
Proof.
  intros Ho Ht. eapply operand_self; [|exact Ht]. exists o. eauto.
Qed.

(** obj_copy: a deep copy.  On an object that has a value, nested at most
    [n] deep, obj_copy returns with enough fuel; the copy has the same
    value, held in cells that are all new, and the cells that were there
    are left as they were. *)
Lemma obj_copy_spec n : forall fuel, (n <= fuel)%nat -> copies (obj_copy fuel) n.
Proof.
  induction n as [|n IH]; intros fuel Hfuel h a v Hv; [contradiction|].
  destruct fuel as [|fuel]; [lia|].
  cbn in Hv. destruct Hv as (_ & o & Ho & Hd).
  assert (Ht : has_type h a (type_of (data o))) by (exists o; auto).
  cbn [obj_copy]. rewrite (bind_step _ _ _ _ _ (TYPE_has_type _ _ _ Ht)).
  assert (Hscalar : forall t arg d,
            match t, arg with
            | CHAR_T, ArgChar c => d = CharData c
            | INT_T, ArgInt i => d = IntData i
            | FLOAT_T, ArgFloat f => d = FloatData f
            | STR_T, ArgStr s => d = StrData s
            | _, _ => False
            end ->
            exists c h',
              obj_create_with (obj_copy fuel) (obj_decref fuel) t arg h = Ok c h' /\
              h ⊆ h' /\
              new_in h c /\ h' !! c = Some (mkObject 1 d)).
  { intros t arg d Hm. eexists _, _.
    split; [apply (obj_create_with_scalar _ _ t arg d h Hm)|].
    split; [apply insert_fresh_subseteq|].
    split; [apply fresh_not_live|]. apply lookup_insert_eq. }
  assert (Hself : type_of (data o) <> LISTNODE_T -> deref_listnode a h = Ok a h)
    by (apply deref_not_listnode; exact Ho).
  destruct (data o) as [c|i|f|s|nodes|[x|]| |] eqn:Ed; try contradiction; cbn [type_of] in *.
  - unfold obj_as_char.
    rewrite bind_bind, (bind_step _ _ _ _ _ (Hself ltac:(discriminate))).
    rewrite bind_bind, (bind_step _ _ _ _ _ (load_some _ _ _ Ho)), Ed. cbn [ret bind].
    destruct (Hscalar CHAR_T (ArgChar c) _ eq_refl) as (r & h' & -> & Hs & Hn & Hr).
    exists r, h'. repeat split; try assumption. exists (mkObject 1 (CharData c)). auto.
  - unfold obj_as_int.
    rewrite bind_bind, (bind_step _ _ _ _ _ (Hself ltac:(discriminate))).
    rewrite bind_bind, (bind_step _ _ _ _ _ (load_some _ _ _ Ho)), Ed. cbn [ret bind].
    destruct (Hscalar INT_T (ArgInt i) _ eq_refl) as (r & h' & -> & Hs & Hn & Hr).
    exists r, h'. repeat split; try assumption. exists (mkObject 1 (IntData i)). auto.
  - unfold obj_as_float.
    rewrite bind_bind, (bind_step _ _ _ _ _ (Hself ltac:(discriminate))).
    rewrite bind_bind, (bind_step _ _ _ _ _ (load_some _ _ _ Ho)), Ed. cbn [ret bind].
    destruct (Hscalar FLOAT_T (ArgFloat f) _ eq_refl) as (r & h' & -> & Hs & Hn & Hr).
    exists r, h'. repeat split; try assumption. exists (mkObject 1 (FloatData f)). auto.
  - unfold obj_as_str.
    rewrite bind_bind, (bind_step _ _ _ _ _ (Hself ltac:(discriminate))).
    rewrite bind_bind, (bind_step _ _ _ _ _ (load_some _ _ _ Ho)), Ed. cbn [ret bind].
    destruct (Hscalar STR_T (ArgStr s) _ eq_refl) as (r & h' & -> & Hs & Hn & Hr).
    exists r, h'. repeat split; try assumption. exists (mkObject 1 (StrData s)). auto.
  - destruct Hd as (vs & -> & Hf).
    unfold obj_as_list.
    rewrite bind_bind, (bind_step _ _ _ _ _ (Hself ltac:(discriminate))).
    rewrite bind_bind, (bind_step _ _ _ _ _ (load_some _ _ _ Ho)), Ed. cbn [ret bind].
    unfold obj_create_with.
    rewrite (bind_step _ _ _ _ _ (obj_alloc_new LIST_T h ltac:(discriminate))).
    set (r := fresh (dom h)). set (h1 := <[r := _]> h).
    assert (Hr : h !! r = None) by apply fresh_not_live.
    assert (Hs1 : h ⊆ h1) by apply insert_fresh_subseteq.
    assert (Hra : r <> a) by (intros E; rewrite E in Hr; congruence).
    unfold type_set. unfold bind at 1. unfold bind at 1.
    rewrite (load_some r h1 _ (lookup_insert_eq _ _ _)). cbn [data default_data].
    assert (Ha1 : h1 !! a = Some o) by (eapply lookup_weaken; eauto).
    rewrite (bind_step _ _ _ _ _ (load_some _ _ _ Ha1)), Ed.
    destruct (copy_nodes_spec (obj_copy fuel) n nodes (IH fuel ltac:(lia)) h1 vs)
      as (new & h2 & Htr & Hs2 & Hnew).
    { eapply Forall2_impl; [exact Hf|]. intros node w.
      apply node_holds_impl; auto.
      - intros o' _ Ho'. eapply lookup_weaken; eauto.
      - intros y. apply holds_extend. exact Hs1. }
    rewrite (bind_step _ _ _ _ _ Htr). cbn [for_each]. unfold bind at 1. cbn [ret].
    assert (Hr2 : h2 !! r = Some (mkObject 1 (ListData [])))
      by (eapply lookup_weaken; [apply lookup_insert_eq|exact Hs2]).
    rewrite (set_data_live _ _ _ _ Hr2). cbn.
    exists r, (<[r := mkObject 1 (ListData new)]> h2).
    split; [reflexivity|]. split.
    { apply map_subseteq_spec. intros y oy Hy.
      rewrite lookup_insert_ne by (intros E; rewrite E in Hr; congruence).
      eapply lookup_weaken; [exact Hy|]. etrans; eauto. }
    split; [exact Hr|]. eexists. split; [apply lookup_insert_eq|]. cbn.
    exists vs. split; [reflexivity|].
    eapply Forall2_impl; [exact Hnew|]. intros node w (Pn & on & x & Hon & Hdn & Hx).
    assert (Hnr : r <> node).
    { intros E. unfold new_in in Pn. rewrite <- E in Pn.
      unfold h1 in Pn. rewrite lookup_insert_eq in Pn. discriminate. }
    split; [eapply new_in_subseteq; eauto|].
    exists on, x. split; [now rewrite lookup_insert_ne|]. split; [assumption|].
    eapply holds_transport; [| |exact Hx].
    + intros z. apply new_in_subseteq. exact Hs1.
    + intros z oz Hz Hoz. rewrite lookup_insert_ne; [exact Hoz|].
      intros E. unfold new_in in Hz. rewrite <- E in Hz.
      unfold h1 in Hz. rewrite lookup_insert_eq in Hz. discriminate.
  - cbv beta iota. rewrite (bind_step _ _ _ _ _ (obj_from_listnode_some _ _ _ _ Ho Ed)).
    destruct (IH fuel ltac:(lia) h x v Hd) as (c & h' & Hc & Hs & Hcv).
    exists c, h'. split; [exact Hc|]. split; [exact Hs|].
    apply (holds_mono _ n); [lia|exact Hcv].
Qed.

End CopyFacts.

(** ** Releasing an object in a larger heap *)

Lemma framed_ret (hN : heap) : framed hN (ret tt).
Proof. intros hc hr Hd [= <-]. auto. Qed.

Lemma framed_seq (hN : heap) (m k : M heap unit) :
  framed hN m -> framed hN k -> framed hN (m ;; k).
Proof.
  intros Hm Hk hc hr Hd E. apply bind_Ok in E as ([] & h1 & E1 & E2).
  destruct (Hm hc h1 Hd E1) as [Hd1 E1'].
  destruct (Hk h1 hr Hd1 E2) as [Hd2 E2'].
  split; [exact Hd2|]. now rewrite (bind_step _ _ _ _ _ E1').
Qed.

Lemma framed_for_each (hN : heap) (f : ptr -> M heap unit) l :
  (forall x, framed hN (f x)) -> framed hN (for_each f l).
Proof.
  intros Hf. induction l as [|x l IH]; cbn [for_each].
  - apply framed_ret.
  - apply framed_seq; auto.
Qed.

Lemma framed_release (hN : heap) y : hN !! y = None -> framed hN (release y).
Proof.
  intros Hy hc hr Hd [= <-]. split.
  - now apply map_disjoint_delete_l.
  - unfold release. f_equal. rewrite delete_union. f_equal. now apply delete_id.
Qed.

Lemma disjoint_live (hc hN : heap) y o : hc ##ₘ hN -> hc !! y = Some o -> hN !! y = None.
Proof. intros Hd Hy. eapply map_disjoint_Some_l; eauto. Qed.

(** A read of a live cell, then a computation framed for that cell. *)
Lemma framed_load (hN : heap) y (k : Object -> M heap unit) :
  (forall o, hN !! y = None -> framed hN (k o)) ->
  framed hN (let* o := load y in k o).
Proof.
  intros Hk hc hr Hd E. apply bind_Ok in E as (o & h1 & E1 & E2).
  apply load_Ok in E1 as [Hy ->].
  pose proof (disjoint_live _ _ _ _ Hd Hy) as HyN.
  destruct (Hk o HyN hc hr Hd E2) as [Hd2 E2'].
  split; [exact Hd2|].
  rewrite (bind_step _ _ _ _ _ (load_some y (hc ∪ hN) o ltac:(now apply lookup_union_Some_l))).
  exact E2'.
Qed.

Lemma framed_store (hN : heap) y o : hN !! y = None -> framed hN (store y o).
Proof.
  intros Hy hc hr Hd [= <-]. split.
  - now apply map_disjoint_insert_l.
  - unfold store. f_equal. now rewrite insert_union_l.
Qed.

Lemma obj_decref_framed fuel (hN : heap) y : framed hN (obj_decref fuel y).
Proof.
  revert y. induction fuel as [|n IH]; intros y.
  - intros hc hr _ E. discriminate.
  - cbn [obj_decref]. apply framed_load. intros o Hy.
    apply framed_seq; [now apply framed_store|].
    destruct (_ =? 0); [|apply framed_ret].
    unfold obj_free. apply framed_load. intros o' _.
    unfold type_free. destruct (data o') as [| | | |nodes|[x|]| |];
      try (now apply framed_release); try apply framed_ret.
    + apply framed_seq; [apply framed_for_each, IH|now apply framed_release].
    + apply framed_seq; [apply IH|now apply framed_release].
Qed.

(** Releasing an object makes no new cell. *)
Lemma obj_decref_no_new fuel y (h hr : heap) x :
  obj_decref fuel y h = Ok tt hr -> h !! x = None -> hr !! x = None.
Proof.
  intros E Hx.
  destruct (obj_decref_framed fuel {[x := mkObject 0 NoneData]} y h hr) as [Hd _].
  - now apply map_disjoint_singleton_r.
  - exact E.
  - now apply map_disjoint_singleton_r in Hd.
Qed.

Section AssignFacts.
Context `{Libc}.

Lemma holds_live n (h : heap) a v :
  has_value n h a v -> holds (fun x => is_Some (h !! x)) n h a v.
Proof.
  revert a v. induction n as [|n IH]; intros a v Hv; [contradiction|].
  cbn in *. destruct Hv as (_ & o & Ho & Hd).
  split; [eauto|]. exists o. split; [exact Ho|].
  destruct (data o) as [| | | |nodes|[x|]| |]; try assumption.
  - destruct Hd as (vs & -> & Hf). exists vs. split; [reflexivity|].
    eapply Forall2_impl; [exact Hf|]. intros node w (_ & on & x & Hon & Hdn & Hx).
    split; [eauto|]. exists on, x. auto.
  - now apply IH.
Qed.

(** C10: obj_assign to a list node sets the node to the deep copy that
    obj_copy made of the source.  The element stored has the value of the
    source and is held in cells that are all new, so it has no cell in
    common with the source (whose cells were there before), and whatever
    is done afterwards to the cells that were there before, those of the
    source among them, the element keeps its value.  The node's former
    element, if any, is released. *)
Theorem obj_assign_listnode_deep_copy fuel n (h hr : heap) node o old src v :
  h !! node = Some o -> data o = ListNodeData old ->
  has_value n h src v -> (n <= fuel)%nat ->
  match old with
  | Some y => obj_decref fuel y h = Ok tt hr
  | None => hr = h
  end ->
  hr !! node = Some o ->
  exists c h',
    obj_assign fuel node src h = Ok tt h' /\
    h' !! node = Some (mkObject (refcount o) (ListNodeData (Some c))) /\
    new_in h c /\
    holds (new_in h) n h' c v /\
    holds (fun x => is_Some (h !! x)) n h src v /\
    (forall h'' : heap, (forall x, new_in h x -> h'' !! x = h' !! x) ->
                        holds (new_in h) n h'' c v).
Proof.
  intros Ho Ed Hv Hfuel Hrel Hnode.
  destruct (obj_copy_spec n fuel Hfuel h src v Hv) as (c & h1 & Hc & Hs1 & Hcv).
  assert (Hnew : new_in h c) by (destruct n; [contradiction|]; apply Hcv).
  (* the heap after the copy is the heap before it and the new cells *)
  set (hN := h1 ∖ h).
  assert (Hdis : h ##ₘ hN) by (apply map_disjoint_difference_r1; reflexivity).
  assert (Hun : h ∪ hN = h1) by (apply map_difference_union; exact Hs1).
  assert (Hrd : hr ##ₘ hN /\
                (match old with
                 | Some y => obj_decref fuel y
                 | None => ret tt
                 end) h1 = Ok tt (hr ∪ hN)).
  { destruct old as [y|].
    - rewrite <- Hun. now apply obj_decref_framed.
    - subst hr. rewrite Hun. auto. }
  destruct Hrd as [Hdr Hrel1].
  assert (Ht : has_type h node LISTNODE_T) by (exists o; rewrite Ed; auto).
  unfold obj_assign. rewrite (bind_step _ _ _ _ _ (TYPE_has_type _ _ _ Ht)).
  rewrite (bind_step _ _ _ _ _ Hc).
  unfold obj_set, type_set.
  assert (Hn1 : h1 !! node = Some o) by exact (lookup_weaken _ _ _ _ Ho Hs1).
  rewrite (bind_step _ _ _ _ _ (load_some _ _ _ Hn1)), Ed.
  rewrite (bind_step _ _ _ _ _ Hrel1).
  assert (Hn2 : (hr ∪ hN) !! node = Some o) by (now apply lookup_union_Some_l).
  rewrite (set_data_live _ _ _ _ Hn2).
  set (h' := <[node := _]> (hr ∪ hN)).
  assert (Hkeep : forall x, new_in h x -> h' !! x = h1 !! x).
  { intros x Hx. unfold h'.
    rewrite lookup_insert_ne
      by (intros E; rewrite <- E in Hx; unfold new_in in Hx; congruence).
    rewrite <- Hun. rewrite !lookup_union_r; auto.
    destruct old as [y|]; [eapply obj_decref_no_new; eauto|now subst hr]. }
  exists c, h'. split; [reflexivity|]. split; [apply lookup_insert_eq|].
  split; [exact Hnew|].
  assert (Hcv' : holds (new_in h) n h' c v) by (eapply holds_local; [exact Hkeep|exact Hcv]).
  split; [exact Hcv'|]. split; [now apply holds_live|].
  intros h'' Hh''. eapply holds_local; [exact Hh''|exact Hcv'].
Qed.

End AssignFacts.

(** ** Computations that only add objects *)

Lemma reads_extends {A} (m : M heap A) : reads m -> extends m.
Proof. intros Hm h. specialize (Hm h). destruct (m h); try easy. now subst. Qed.

Lemma extends_bind {A B} (m : M heap A) (k : A -> M heap B) :
  extends m -> (forall a, extends (k a)) -> extends (bind m k).
Proof.
  intros Hm Hk h. unfold bind. specialize (Hm h).
  destruct (m h) as [a h1| |]; try easy.
  specialize (Hk a h1). destruct (k a h1); try easy. now transitivity h1.
Qed.

Lemma extends_traverse {A B} (f : A -> M heap B) l :
  (forall a, extends (f a)) -> extends (traverse f l).
Proof.
  intros Hf. induction l as [|a l IH]; cbn [traverse].
  - intros h. cbn. reflexivity.
  - apply extends_bind; [apply Hf|]. intros b.
    apply extends_bind; [exact IH|]. intros bs h. cbn. reflexivity.
Qed.

Lemma extends_listnode_new x : extends (listnode_new x).
Proof. intros h. rewrite listnode_new_spec. apply insert_fresh_subseteq. Qed.

Lemma reads_str_to_char s : reads (@str_to_char heap s).
Proof. unfold str_to_char. reads. Qed.
#[global] Hint Resolve reads_str_to_char : reads.

Section ConversionFacts.
Context `{Libc}.

Lemma reads_str_to_int s : reads (@str_to_int _ heap s).
Proof. unfold str_to_int. destruct (strtol s) as [[i e] errno]. reads. Qed.

Lemma reads_str_to_float s : reads (@str_to_float _ heap s).
Proof. unfold str_to_float. destruct (strtod s) as [[f e] errno]. reads. Qed.

Lemma reads_obj_as_char op : reads (obj_as_char op).
Proof. unfold obj_as_char. reads. Qed.

Lemma reads_obj_as_int op : reads (obj_as_int op).
Proof. unfold obj_as_int. pose proof reads_str_to_int. reads. Qed.

Lemma reads_obj_as_float op : reads (obj_as_float op).
Proof. unfold obj_as_float. pose proof reads_str_to_float. reads. Qed.

Lemma reads_obj_as_str op : reads (obj_as_str op).
Proof. unfold obj_as_str. reads. Qed.

Lemma reads_obj_as_list op : reads (obj_as_list op).
Proof. unfold obj_as_list. reads. Qed.

(** obj_create of a list: the new list object and its nodes. *)
Lemma obj_create_with_list copy decref src :
  (forall x, extends (copy x)) ->
  extends (obj_create_with copy decref LIST_T (ArgList src)).
Proof.
  intros Hcopy h. unfold obj_create_with.
  rewrite (bind_step _ _ _ _ _ (obj_alloc_new LIST_T h ltac:(discriminate))).
  set (l := fresh (dom h)). set (h1 := <[l := _]> h).
  assert (L : h1 !! l = Some (mkObject 1 (ListData []))) by apply lookup_insert_eq.
  unfold type_set. rewrite bind_bind. rewrite (bind_step _ _ _ _ _ (load_some _ _ _ L)).
  cbn [data].
  destruct (load src h1) as [s h1'| |] eqn:Ls;
    [| now pose proof (reads_load src h1) as R; rewrite Ls in R
     | now rewrite (bind_abort _ _ _ _ (bind_abort _ _ _ _ Ls))].
  apply load_Ok in Ls as [Ls ->]. rewrite bind_bind.
  rewrite (bind_step _ _ _ _ _ (load_some _ _ _ Ls)).
  destruct (data s) as [| | | |nodes| | |]; try exact I.
  pose proof (extends_traverse
                (fun node => let* x := obj_from_listnode node in
                             let* c := copy x in listnode_new c) nodes) as T.
  specialize (T ltac:(intros node; apply extends_bind;
                      [apply reads_extends, reads_obj_from_listnode|];
                      intros x; apply extends_bind; [apply Hcopy|];
                      intros c; apply extends_listnode_new) h1).
  rewrite !bind_bind.
  destruct (traverse _ nodes h1) as [new h2| |] eqn:Et; try easy.
  2:{ now rewrite (bind_abort _ _ _ _ Et). }
  rewrite (bind_step _ _ _ _ _ Et). cbn [for_each].
  assert (L2 : h2 !! l = Some (mkObject 1 (ListData [])))
    by exact (lookup_weaken _ _ _ _ L T).
  rewrite !bind_bind. rewrite (bind_step (ret tt) _ h2 tt h2 eq_refl).
  rewrite (bind_step _ _ _ _ _ (set_data_live _ _ _ _ L2)). cbn [ret].
  apply map_subseteq_spec. intros x o Hx.
  assert (x <> l)
    by (intros ->; unfold l in Hx; rewrite fresh_not_live in Hx; discriminate).
  rewrite lookup_insert_ne by congruence.
  apply (lookup_weaken h1); [|exact T]. unfold h1. now rewrite lookup_insert_ne by congruence.
Qed.

Lemma obj_copy_extends fuel : forall op1, extends (obj_copy fuel op1).
Proof.
  induction fuel as [|n IH]; intros op1 h; [exact I|].
  cbn [obj_copy].
  destruct (TYPE op1 h) as [t h0| |] eqn:Et;
    [| now pose proof (reads_TYPE op1 h) as R; rewrite Et in R
     | now rewrite (bind_abort _ _ _ _ Et)].
  assert (h0 = h) as -> by exact (reads_Ok _ _ _ _ (reads_TYPE op1) Et).
  rewrite (bind_step _ _ _ _ _ Et).
  assert (Scalar : forall {A} (m : M heap A) (k : A -> M heap ptr),
             reads m ->
             (forall a h1, exists d, k a h1 = Ok (fresh (dom h1))
                                                (<[fresh (dom h1) := mkObject 1 d]> h1)) ->
             match bind m k h with Ok _ h' => h ⊆ h' | Jump _ => False | Abort _ => True end).
  { intros A m k Hm Hk. unfold bind. specialize (Hm h).
    destruct (m h) as [a h1| |]; try easy. subst h1.
    destruct (Hk a h) as [d ->]. apply insert_fresh_subseteq. }
  destruct t; try exact I.
  - apply Scalar; [apply reads_obj_as_char|]. intros c h1. eexists.
    now apply obj_create_with_scalar.
  - apply Scalar; [apply reads_obj_as_int|]. intros c h1. eexists.
    now apply obj_create_with_scalar.
  - apply Scalar; [apply reads_obj_as_float|]. intros c h1. eexists.
    now apply obj_create_with_scalar.
  - apply Scalar; [apply reads_obj_as_str|]. intros c h1. eexists.
    now apply obj_create_with_scalar.
  - apply (extends_bind (obj_as_list op1)); [apply reads_extends, reads_obj_as_list|].
    intros l. now apply obj_create_with_list.
  - apply (extends_bind (obj_from_listnode op1));
      [apply reads_extends, reads_obj_from_listnode|]. intros x. apply IH.
Qed.

End ConversionFacts.

(** ** parser.c: the loop statements and the two flags *)

Lemma reader_save_Ok sh :
  reader_save sh =
  Ok (fresh (dom (objects sh)))
     (set_objects (<[fresh (dom (objects sh)) :=
                      mkObject 1 (PositionData (mkPosition (offset sh) (token sh)
                                                           (lexeme sh)))]> (objects sh)) sh).
Proof.
  unfold reader_save, bind, in_heap, get.
  rewrite obj_alloc_new by discriminate. cbn.
  rewrite (set_data_live _ _ _ (mkObject 1 (default_data POSITION_T)))
    by apply lookup_insert_eq.
  cbn. unfold set_objects. cbn. now rewrite insert_insert_eq.
Qed.

Lemma loop_entry_Ok s :
  exists loop s1, loop_entry s = Ok loop s1 /\
                  do_break s1 = false /\ do_continue s1 = false /\
                  return_value s1 = return_value s.
Proof.
  unfold loop_entry, bind, modify, in_shared. cbn.
  rewrite reader_save_Ok. eexists _, _. split; [reflexivity|]. now cbn.
Qed.

Lemma loop_entry_pending b c s : loop_entry (pending b c s) = loop_entry s.
Proof. reflexivity. Qed.

Section LoopEntry.
Context `{Libc} `{NumberType} `{StrType} `{ListType} `{Evaluator} `{Collaborators}.
Variable fuel : nat.
Variable statement : M State unit.
Variable function_call : ptr -> M State (option ptr).

Lemma while_stmnt_entry s :
  while_stmnt fuel statement function_call s =
  (let* loop := loop_entry in
   while_loop fuel statement function_call fuel loop ;;
   modify (set_do_break false) ;;
   skip_block ;;
   decref fuel (Some loop)) s.
Proof. reflexivity. Qed.

Lemma do_stmnt_entry s :
  do_stmnt fuel statement function_call s =
  (let* tok := current_token in
   when (negb (token_eqb tok NEWLINE)) (error SyntaxError) ;;
   let* loop := loop_entry in
   do_loop fuel statement function_call fuel loop ;;
   modify (set_do_break false) ;;
   expect NEWLINE ;;
   decref fuel (Some loop)) s.
Proof.
  unfold do_stmnt, bind, current_token, get, ret, when. cbn.
  destruct (negb _); reflexivity.
Qed.

Lemma for_iterate_entry id sequence len s :
  for_iterate fuel statement id sequence len s =
  (let* loop := loop_entry in
   for_loop fuel statement (Z.to_nat len) 0 id sequence loop ;;
   modify (set_do_break false) ;;
   skip_block ;;
   decref fuel (Some loop)) s.
Proof. reflexivity. Qed.


End LoopEntry.

(** ** Computations on the shared globals *)

Lemma shared_only_Ok {A} (m : M State A) s a s' :
  shared_only m -> m s = Ok a s' ->
  do_break s' = do_break s /\ do_continue s' = do_continue s /\
  return_value s' = return_value s.
Proof. intros Hm E. specialize (Hm s). now rewrite E in Hm. Qed.

Lemma shared_only_no_Jump {A} (m : M State A) s s' : shared_only m -> m s <> Jump s'.
Proof. intros Hm E. specialize (Hm s). now rewrite E in Hm. Qed.

Lemma shared_only_in_shared {A} (m : M Shared A) : shared_only (in_shared m).
Proof. intros s. unfold in_shared. now destruct (m (shared s)). Qed.

Lemma shared_only_ret {A} (a : A) : shared_only (ret a).
Proof. intros s. now cbn. Qed.

Lemma shared_only_error {A} e : shared_only (@error State A e).
Proof. intros s. exact I. Qed.

Lemma shared_only_fault {A} : shared_only (@fault State A).
Proof. intros s. exact I. Qed.

Lemma shared_only_bind {A B} (m : M State A) (k : A -> M State B) :
  shared_only m -> (forall a, shared_only (k a)) -> shared_only (bind m k).
Proof.
  intros Hm Hk s. unfold bind. specialize (Hm s).
  destruct (m s) as [a s1| |]; try easy.
  specialize (Hk a s1). destruct (k a s1); try easy.
  destruct Hm as (A1 & A2 & A3), Hk as (B1 & B2 & B3). repeat split; congruence.
Qed.

Lemma shared_only_current_token : shared_only current_token.
Proof. intros s. now cbn. Qed.

Lemma shared_only_current_string : shared_only current_string.
Proof. intros s. now cbn. Qed.

Create HintDb shared_only.
#[global] Hint Resolve shared_only_in_shared shared_only_ret shared_only_error
  shared_only_fault shared_only_current_token shared_only_current_string : shared_only.

Ltac shared_only :=
  repeat first
    [ apply shared_only_bind; [|intros ?]
    | progress auto with shared_only
    | match goal with
      | |- shared_only (match ?x with _ => _ end) => destruct x
      | |- shared_only (if ?b then _ else _) => destruct b
      end ].

Lemma shared_only_nonnull {A} (p : option A) : shared_only (nonnull p).
Proof. unfold nonnull. shared_only. Qed.
#[global] Hint Resolve shared_only_nonnull : shared_only.

Lemma shared_only_when b (m : M State unit) : shared_only m -> shared_only (when b m).
Proof. intros Hm. unfold when. shared_only. Qed.

Lemma shared_only_accept t : shared_only (accept t).
Proof. unfold accept. shared_only. Qed.
#[global] Hint Resolve shared_only_accept : shared_only.

Lemma shared_only_expect t : shared_only (expect t).
Proof. unfold expect. shared_only. Qed.
#[global] Hint Resolve shared_only_expect : shared_only.

Lemma shared_only_skip_rest_of_block : shared_only skip_rest_of_block.
Proof. unfold skip_rest_of_block. shared_only. Qed.
#[global] Hint Resolve shared_only_skip_rest_of_block : shared_only.

Lemma shared_only_skip_block : shared_only skip_block.
Proof. unfold skip_block. shared_only. Qed.
#[global] Hint Resolve shared_only_skip_block : shared_only.

Lemma shared_only_skip_function : shared_only skip_function.
Proof. unfold skip_function. shared_only. Qed.
#[global] Hint Resolve shared_only_skip_function : shared_only.

Lemma shared_only_decref fuel obj : shared_only (decref fuel obj).
Proof. unfold decref. shared_only. Qed.
#[global] Hint Resolve shared_only_decref : shared_only.

(** ** The token cursor *)

Lemma token_eqb_refl t : token_eqb t t = true.
Proof. unfold token_eqb. now apply bool_decide_eq_true. Qed.

Lemma token_eqb_neq t u : t <> u -> token_eqb t u = false.
Proof. unfold token_eqb. now apply bool_decide_eq_false. Qed.

Lemma scanner_next_cons sh t x l :
  upcoming sh = (t, x) :: l ->
  scanner_next sh = Ok tt (set_cursor (S (offset sh)) t x sh) /\
  upcoming (set_cursor (S (offset sh)) t x sh) = l.
Proof.
  unfold upcoming, scanner_next, modify. intros E.
  assert (L : source sh !! offset sh = Some (t, x)).
  { rewrite <- (Nat.add_0_r (offset sh)), <- lookup_drop, E. reflexivity. }
  rewrite L. split; [reflexivity|]. cbn.
  rewrite (drop_S _ _ _ L) in E. now injection E.
Qed.

Lemma scanner_next_nil sh :
  upcoming sh = [] ->
  scanner_next sh = Ok tt (set_cursor (offset sh) ENDMARKER EmptyString sh).
Proof.
  unfold upcoming, scanner_next, modify. intros E.
  assert (L : source sh !! offset sh = None).
  { apply lookup_ge_None. apply (f_equal length) in E.
    rewrite length_drop in E. cbn in E. lia. }
  now rewrite L.
Qed.

(** scanner.next() moves the cursor to the next token. *)
Lemma scanner_next_at sh t x l :
  at_tokens sh ((t, x) :: l) ->
  exists o u y, scanner_next sh = Ok tt (set_cursor o u y sh) /\
                at_tokens (set_cursor o u y sh) l.
Proof.
  intros (_ & _ & E). destruct l as [|[u y] l].
  - rewrite (scanner_next_nil _ E). eexists _, _, _. split; [reflexivity|]. now split.
  - destruct (scanner_next_cons _ _ _ _ E) as [E1 E2]. rewrite E1.
    eexists _, _, _. split; [reflexivity|]. now repeat split.
Qed.

Lemma accept_at s t x l :
  at_tokens (shared s) ((t, x) :: l) ->
  exists o u y, accept t s = Ok true (set_shared (set_cursor o u y (shared s)) s) /\
                at_tokens (set_cursor o u y (shared s)) l.
Proof.
  intros Ha. destruct (scanner_next_at _ _ _ _ Ha) as (o & u & y & N & Ha').
  exists o, u, y. split; [|exact Ha'].
  unfold accept. rewrite (bind_step current_token _ s (token (shared s)) s eq_refl).
  destruct Ha as (-> & _). rewrite token_eqb_refl.
  unfold bind, in_shared. now rewrite N.
Qed.

Lemma expect_at s t x l :
  at_tokens (shared s) ((t, x) :: l) ->
  exists o u y, expect t s = Ok tt (set_shared (set_cursor o u y (shared s)) s) /\
                at_tokens (set_cursor o u y (shared s)) l.
Proof.
  intros Ha. destruct (accept_at _ _ _ _ Ha) as (o & u & y & N & Ha').
  exists o, u, y. split; [|exact Ha'].
  unfold expect. now rewrite (bind_step _ _ _ _ _ N).
Qed.

(** A token that is not the current one is not accepted. *)
Lemma accept_other s t : token (shared s) <> t -> accept t s = Ok false s.
Proof.
  intros Hn. unfold accept. rewrite (bind_step current_token _ s (token (shared s)) s eq_refl).
  now rewrite token_eqb_neq.
Qed.

Lemma skip_to_dedent_step n level sh t x l :
  upcoming sh = (t, x) :: l ->
  skip_to_dedent (S n) level sh =
  (let level := if token_eqb t INDENT then level + 1 else level in
   let level := if token_eqb t DEDENT then level - 1 else level in
   (if negb (level =? 0) && negb (token_eqb t ENDMARKER)
    then skip_to_dedent n level else ret tt) (set_cursor (S (offset sh)) t x sh)).
Proof.
  intros E. destruct (scanner_next_cons _ _ _ _ E) as [E1 _].
  cbn [skip_to_dedent]. now rewrite (bind_step _ _ _ _ _ E1).
Qed.

Lemma set_cursor_self sh : set_cursor (offset sh) (token sh) (lexeme sh) sh = sh.
Proof. now destruct sh. Qed.

(** The loop runs over balanced tokens with the level it had before
    them. *)
Lemma skip_balanced l :
  balanced l ->
  forall fuel level sh more,
    upcoming sh = l ++ more -> 0 < level ->
    exists o u y,
      skip_to_dedent (length l + fuel) level sh =
      skip_to_dedent fuel level (set_cursor o u y sh) /\
      upcoming (set_cursor o u y sh) = more.
Proof.
  induction 1 as [|t x l (Hi & Hd & He) Hl IH|i d l1 l2 H1 IH1 H2 IH2];
    intros fuel level sh more E Hlevel.
  - exists (offset sh), (token sh), (lexeme sh). rewrite set_cursor_self. now split.
  - cbn [length Nat.add]. rewrite (skip_to_dedent_step _ _ _ _ _ _ E). cbv zeta.
    rewrite !token_eqb_neq by assumption.
    replace (level =? 0) with false by (symmetry; apply Z.eqb_neq; lia). cbn [negb andb].
    destruct (scanner_next_cons _ _ _ _ E) as [_ E1].
    destruct (IH fuel level _ _ E1 Hlevel) as (o & u & y & R & E2).
    exists o, u, y. split; [exact R|exact E2].
  - assert (E' : upcoming sh = (INDENT, i) :: (l1 ++ (DEDENT, d) :: l2 ++ more))
      by (rewrite E; cbn [app]; now rewrite <- app_assoc).
    clear E. rename E' into E.
    cbn [length Nat.add]. rewrite (skip_to_dedent_step _ _ _ _ _ _ E). cbv zeta.
    rewrite token_eqb_refl, !token_eqb_neq by discriminate.
    replace (level + 1 =? 0) with false by (symmetry; apply Z.eqb_neq; lia).
    cbn [negb andb].
    destruct (scanner_next_cons _ _ _ _ E) as [_ E1].
    rewrite length_app. cbn [length].
    replace (length l1 + S (length l2) + fuel)%nat
      with (length l1 + S (length l2 + fuel))%nat by lia.
    destruct (IH1 (S (length l2 + fuel)) (level + 1) _ _ E1 ltac:(lia))
      as (o1 & u1 & y1 & -> & E2).
    rewrite (skip_to_dedent_step _ _ _ _ _ _ E2). cbv zeta.
    rewrite token_eqb_refl, !token_eqb_neq by discriminate.
    replace (level + 1 - 1) with level by lia.
    replace (level =? 0) with false by (symmetry; apply Z.eqb_neq; lia).
    cbn [negb andb].
    destruct (scanner_next_cons _ _ _ _ E2) as [_ E3].
    destruct (IH2 fuel level _ _ E3 Hlevel) as (o & u & y & R & E4).
    exists o, u, y. split; [exact R|exact E4].
Qed.

(** skip_block at the NEWLINE that ends a header line: the cursor goes to
    the token after the DEDENT of the block, nothing else changes. *)
Lemma skip_block_spec s n i body d rest :
  at_tokens (shared s) (block_tokens n i body d ++ rest) ->
  block_body body ->
  exists o u y, skip_block s = Ok tt (set_shared (set_cursor o u y (shared s)) s) /\
                at_tokens (set_cursor o u y (shared s)) rest.
Proof.
  unfold block_tokens. cbn [app]. intros Ha Hbody.
  destruct body as [|[b1 x1] body]; [contradiction|]. destruct Hbody as [_ Hbody].
  rewrite <- app_assoc in Ha. cbn [app] in Ha.
  destruct (expect_at _ _ _ _ Ha) as (o1 & u1 & y1 & X1 & Ha1).
  set (s1 := set_shared _ s) in X1.
  destruct (expect_at s1 _ _ _ Ha1) as (o2 & u2 & y2 & X2 & Ha2).
  set (s2 := set_shared _ s1) in X2.
  destruct Ha2 as (_ & _ & E2).
  change (upcoming (shared s2) = body ++ (DEDENT, d) :: rest) in E2.
  destruct (skip_balanced _ Hbody (2 + length rest) 1 (shared s2) ((DEDENT, d) :: rest)
              E2 ltac:(lia)) as (o3 & u3 & y3 & S3 & E3).
  assert (F : tokens_left (shared s2) = (length body + (2 + length rest))%nat).
  { unfold tokens_left.
    assert (L : length (upcoming (shared s2)) =
                (length (source (shared s2)) - offset (shared s2))%nat)
      by (unfold upcoming; apply length_drop).
    rewrite <- L, E2, length_app. cbn. lia. }
  destruct (scanner_next_cons _ _ _ _ E3) as [N4 E4].
  set (sh4 := set_cursor _ DEDENT d _) in *.
  assert (X3 : skip_rest_of_block s2 = Ok tt (set_shared sh4 s2)).
  { unfold skip_rest_of_block, in_shared, bind, get.
    rewrite F, S3. cbn [Nat.add]. rewrite (skip_to_dedent_step _ _ _ _ _ _ E3).
    cbv zeta. rewrite token_eqb_refl, token_eqb_neq by discriminate. reflexivity. }
  assert (A4 : at_tokens sh4 ((DEDENT, d) :: rest)) by now repeat split.
  destruct (scanner_next_at _ _ _ _ A4) as (o5 & u5 & y5 & N5 & A5).
  exists o5, u5, y5. split; [|exact A5].
  unfold skip_block.
  rewrite (bind_step _ _ _ _ _ X1), (bind_step _ _ _ _ _ X2), (bind_step _ _ _ _ _ X3).
  unfold in_shared. cbn [shared set_shared]. now rewrite N5.
Qed.

(** ** parser.c: the end of a loop statement *)

Lemma same_cursor_at sh sh' l : same_cursor sh sh' -> at_tokens sh l -> at_tokens sh' l.
Proof.
  intros (Ho & Ht & Hl & Hs). unfold at_tokens, upcoming. rewrite Ho, Ht, Hl, Hs.
  destruct l as [|[t x] l]; tauto.
Qed.

Lemma in_heap_Ok {A} (m : M heap A) s a s' :
  in_shared (in_heap m) s = Ok a s' ->
  exists h', m (objects (shared s)) = Ok a h' /\
             s' = set_shared (set_objects h' (shared s)) s.
Proof.
  unfold in_shared, in_heap.
  destruct (m (objects (shared s))) as [b h'| |]; try discriminate.
  intros [= <- <-]. eauto.
Qed.

Lemma decref_Ok fuel obj s s' :
  decref fuel obj s = Ok tt s' ->
  same_cursor (shared s) (shared s') /\ do_break s' = do_break s /\
  do_continue s' = do_continue s /\ return_value s' = return_value s.
Proof.
  intros E. split; [|exact (shared_only_Ok _ _ _ _ (shared_only_decref fuel obj) E)].
  unfold decref in E. destruct obj as [obj|]; [|discriminate].
  rewrite (bind_step _ _ _ obj s eq_refl) in E.
  apply in_heap_Ok in E as (h' & _ & ->). now repeat split.
Qed.

Lemma reader_jump_restored loop s0 s :
  in_shared (reader_jump loop) s0 = Ok tt s -> restored loop s.
Proof.
  intros E. exists s0. assert (E0 := E). unfold in_shared in E.
  destruct (reader_jump loop (shared s0)) as [[] sh| |] eqn:J; try discriminate.
  injection E as <-. unfold reader_jump in J.
  apply bind_Ok in J as (o & sh1 & L & J).
  unfold in_heap in L. destruct (load loop (objects (shared s0))) as [o' h'| |] eqn:L';
    try discriminate.
  apply load_Ok in L' as [Ho ->]. injection L as <- <-.
  destruct (data o') as [| | | | | |pos|] eqn:D; try discriminate.
  injection J as <-. exists o', pos. now repeat split.
Qed.

Section LoopExit.
Context `{Libc} `{NumberType} `{StrType} `{ListType} `{Evaluator} `{Collaborators}.
Variable fuel : nat.
Variable statement : M State unit.
Variable function_call : ptr -> M State (option ptr).

(** The while loop ends with an evaluation of the condition, which was
    entered with do_continue clear. *)
Lemma while_loop_exit n loop :
  forall s s',
    do_continue s = false ->
    while_loop fuel statement function_call n loop s = Ok tt s' ->
    exists sb c, do_continue sb = false /\ condition fuel function_call sb = Ok c s'.
Proof.
  induction n as [|n IH]; intros s s' Hc E; [discriminate|].
  cbn [while_loop] in E. apply bind_Ok in E as (c & s1 & Ec & E).
  rewrite (bind_step get _ s1 s1 s1 eq_refl) in E.
  destruct (c && negb (do_break s1)).
  - apply bind_Ok in E as ([] & s2 & Eb & E).
    rewrite (bind_step _ _ s2 tt (set_do_continue false s2) eq_refl) in E.
    apply bind_Ok in E as ([] & s4 & Ej & E).
    apply (IH s4 s'); [|exact E].
    now destruct (shared_only_Ok _ _ _ _ (shared_only_in_shared _) Ej) as (_ & -> & _).
  - injection E as <-. eauto.
Qed.

(** The do-while loop ends with an evaluation of the condition, after the
    DEDENT of the block and WHILE. *)
Lemma do_loop_exit n loop :
  forall s s',
    do_loop fuel statement function_call n loop s = Ok tt s' ->
    exists s0 s1 sb c,
      block fuel statement s0 = Ok tt s1 /\
      (expect DEDENT ;; expect WHILE) (set_do_continue false s1) = Ok tt sb /\
      do_continue sb = false /\ condition fuel function_call sb = Ok c s'.
Proof.
  induction n as [|n IH]; intros s s' E; [discriminate|].
  cbn [do_loop] in E. apply bind_Ok in E as ([] & s0 & Ej & E).
  apply bind_Ok in E as ([] & s1 & Eb & E).
  rewrite (bind_step _ _ s1 tt (set_do_continue false s1) eq_refl) in E.
  apply bind_Ok in E as ([] & s2 & Ed & E).
  apply bind_Ok in E as ([] & sb & Ew & E).
  apply bind_Ok in E as (c & sc & Ec & E).
  rewrite (bind_step get _ sc sc sc eq_refl) in E.
  destruct (c && negb (do_break sc)).
  - now apply (IH sc s').
  - injection E as <-. exists s0, s1, sb, c. repeat split; try assumption.
    + now rewrite (bind_step _ _ _ _ _ Ed).
    + destruct (shared_only_Ok _ _ _ _ (shared_only_expect _) Ed) as (_ & C1 & _).
      destruct (shared_only_Ok _ _ _ _ (shared_only_expect _) Ew) as (_ & C2 & _).
      now rewrite C2, C1.
Qed.

(** The for loop ends with do_continue clear, where it began or where
    reader.jump(loop) put the reader. *)
Lemma for_loop_exit k loop :
  forall i id sequence s s',
    do_continue s = false ->
    for_loop fuel statement k i id sequence loop s = Ok tt s' ->
    do_continue s' = false /\ (s' = s \/ restored loop s').
Proof.
  induction k as [|k IH]; intros i id sequence s s' Hc E.
  - injection E as <-. auto.
  - cbn [for_loop] in E. rewrite (bind_step get _ s s s eq_refl) in E.
    destruct (negb (do_break s)); [|injection E as <-; auto].
    apply bind_Ok in E as (sq & s1 & _ & E).
    apply bind_Ok in E as (item & s2 & _ & E).
    apply bind_Ok in E as (ident & s3 & _ & E).
    apply bind_Ok in E as ([] & s4 & _ & E).
    apply bind_Ok in E as ([] & s5 & _ & E).
    apply bind_Ok in E as ([] & s6 & _ & E).
    rewrite (bind_step _ _ s6 tt (set_do_continue false s6) eq_refl) in E.
    apply bind_Ok in E as ([] & s7 & Ej & E).
    assert (C7 : do_continue s7 = false)
      by now destruct (shared_only_Ok _ _ _ _ (shared_only_in_shared _) Ej) as (_ & -> & _).
    destruct (IH _ _ _ _ _ C7 E) as (C' & [-> | R]).
    + split; [exact C'|]. right. eapply reader_jump_restored; eauto.
    + auto.
Qed.


End LoopExit.

(** ** parser.c: the return slot *)

Lemma shared_only_pop_arguments_loop fuel n list :
  shared_only (pop_arguments_loop fuel n list).
Proof.
  induction n as [|n IH]; [intros s; exact I|].
  cbn [pop_arguments_loop]. unfold when. shared_only.
Qed.

Lemma shared_only_pop_arguments fuel list : shared_only (pop_arguments fuel list).
Proof. unfold pop_arguments. pose proof shared_only_pop_arguments_loop. shared_only. Qed.

Section Returns.
Context `{Libc} `{NumberType} `{StrType} `{ListType} `{Evaluator} `{Collaborators}.

Lemma calm_quiet {A} (m : M State A) : calm m -> quiet m.
Proof. intros Hm s Hs. specialize (Hm s Hs). now destruct (m s). Qed.

Lemma shared_only_calm {A} (m : M State A) : shared_only m -> calm m.
Proof.
  intros Hm s Hs. specialize (Hm s). destruct (m s); try easy.
  destruct Hm as (_ & _ & ->). exact Hs.
Qed.

Lemma calm_bind {A B} (m : M State A) (k : A -> M State B) :
  calm m -> (forall a, calm (k a)) -> calm (bind m k).
Proof.
  intros Hm Hk s Hs. unfold bind. specialize (Hm s Hs).
  destruct (m s) as [a s1| |]; try easy. now apply Hk.
Qed.

Lemma quiet_bind {A B} (m : M State A) (k : A -> M State B) :
  quiet m -> (forall a, quiet (k a)) -> quiet (bind m k).
Proof.
  intros Hm Hk s Hs. unfold bind. specialize (Hm s Hs).
  destruct (m s) as [a s1| |]; try easy. now apply Hk.
Qed.

Lemma calm_get : calm (@get State).
Proof. intros s Hs. exact Hs. Qed.

Lemma calm_out_of_fuel {A} : calm (@out_of_fuel State A).
Proof. intros s Hs. exact I. Qed.

Lemma calm_set_do_break b : calm (modify (set_do_break b)).
Proof. intros s Hs. exact Hs. Qed.

Lemma calm_set_do_continue b : calm (modify (set_do_continue b)).
Proof. intros s Hs. exact Hs. Qed.

Lemma calm_stdout f : calm (modify (fun s => set_shared (f s) s)).
Proof. intros s Hs. exact Hs. Qed.

End Returns.

Create HintDb calm.
#[global] Hint Resolve calm_get calm_out_of_fuel calm_set_do_break calm_set_do_continue
  calm_stdout : calm.
#[global] Hint Extern 2 (calm _) => apply shared_only_calm; solve [shared_only] : calm.
#[global] Hint Extern 3 (quiet _) => apply calm_quiet; solve [auto with calm] : calm.

Ltac calm :=
  repeat first
    [ apply calm_bind; [|intros ?]
    | progress auto with calm
    | match goal with
      | |- calm (match ?x with _ => _ end) => destruct x
      | |- calm (if ?b then _ else _) => destruct b
      end ].

Ltac quiet :=
  repeat first
    [ progress auto with calm
    | apply quiet_bind; [|intros ?]
    | match goal with
      | |- quiet (match ?x with _ => _ end) => destruct x
      | |- quiet (if ?b then _ else _) => destruct b
      end ].

Section ReturnSlot.
Context `{Libc} `{NumberType} `{StrType} `{ListType} `{Evaluator} `{Collaborators}.

(** The module that an import reads leaves the return slot empty, unless
    a return statement ends it. *)
Hypothesis import_quiet : forall path, quiet (reader_import path).

Section Level.
Variable n : nat.
Hypothesis statement_quiet : quiet (statement n).
Hypothesis function_call_calm : forall addr, calm (function_call n addr).

Lemma calm_eval {A} (e : Expr A) : calm (eval (function_call n) e).
Proof.
  induction e as [a sh|x|addr sh k IH]; intros s Hs; cbn [eval].
  - exact Hs.
  - exact I.
  - specialize (function_call_calm addr (set_shared sh s) Hs).
    destruct (function_call n addr (set_shared sh s)) as [obj s'| |]; try easy.
    now apply IH.
Qed.

Lemma calm_run_comma_expr : calm (run_comma_expr (function_call n)).
Proof. intros s Hs. now apply calm_eval. Qed.

Lemma calm_run_assignment_expr : calm (run_assignment_expr (function_call n)).
Proof. intros s Hs. now apply calm_eval. Qed.

#[local] Hint Resolve calm_run_comma_expr calm_run_assignment_expr : calm.

Lemma calm_condition : calm (condition n (function_call n)).
Proof. unfold condition. calm. Qed.
#[local] Hint Resolve calm_condition : calm.

Lemma calm_expression_stmnt : calm (expression_stmnt n (function_call n)).
Proof. unfold expression_stmnt. calm. Qed.

Lemma calm_variable_declaration k t :
  calm (variable_declaration_loop n (function_call n) k t).
Proof.
  induction k as [|k IH]; cbn [variable_declaration_loop]; unfold when; calm.
Qed.

Lemma calm_print_loop k : calm (print_loop n (function_call n) k).
Proof. induction k as [|k IH]; cbn [print_loop]; calm. Qed.

Lemma calm_input_loop k : calm (input_loop n k).
Proof. induction k as [|k IH]; cbn [input_loop]; unfold when; calm. Qed.

Lemma calm_push_arguments_loop k list :
  calm (push_arguments_loop n (function_call n) k list).
Proof. induction k as [|k IH]; cbn [push_arguments_loop]; calm. Qed.

Lemma calm_push_arguments : calm (push_arguments n (function_call n)).
Proof. unfold push_arguments. pose proof calm_push_arguments_loop. calm. Qed.

#[local] Hint Resolve statement_quiet : calm.

Lemma quiet_block_loop k : quiet (block_loop (statement n) k).
Proof. induction k as [|k IH]; cbn [block_loop]; quiet. Qed.

Lemma quiet_block : quiet (block n (statement n)).
Proof. unfold block. pose proof quiet_block_loop. quiet. Qed.
#[local] Hint Resolve quiet_block : calm.

Lemma quiet_if_stmnt : quiet (if_stmnt n (statement n) (function_call n)).
Proof. unfold if_stmnt, when. quiet. Qed.

Lemma quiet_while_loop k loop :
  quiet (while_loop n (statement n) (function_call n) k loop).
Proof. induction k as [|k IH]; cbn [while_loop]; quiet. Qed.

Lemma quiet_while_stmnt : quiet (while_stmnt n (statement n) (function_call n)).
Proof. unfold while_stmnt. pose proof quiet_while_loop. quiet. Qed.

Lemma quiet_do_loop k loop : quiet (do_loop n (statement n) (function_call n) k loop).
Proof. induction k as [|k IH]; cbn [do_loop]; quiet. Qed.

Lemma quiet_do_stmnt : quiet (do_stmnt n (statement n) (function_call n)).
Proof. unfold do_stmnt, when. pose proof quiet_do_loop. quiet. Qed.

Lemma quiet_for_loop k i id sequence loop :
  quiet (for_loop n (statement n) k i id sequence loop).
Proof. revert i. induction k as [|k IH]; intros i; cbn [for_loop]; quiet. Qed.

Lemma quiet_for_stmnt : quiet (for_stmnt n (statement n) (function_call n)).
Proof.
  unfold for_stmnt, for_header, for_iterate, when. pose proof quiet_for_loop. quiet.
Qed.

Lemma quiet_import_loop k : quiet (import_loop n (function_call n) k).
Proof. induction k as [|k IH]; cbn [import_loop]; quiet. Qed.

(** return_stmt ends in its longjmp. *)
Lemma return_stmt_jumps s a s' : return_stmt n (function_call n) s <> Ok a s'.
Proof.
  unfold return_stmt. intros E.
  apply bind_Ok in E as (tok & s1 & _ & E).
  apply bind_Ok in E as ([] & s2 & _ & E).
  apply bind_Ok in E as ([] & s3 & _ & E). discriminate.
Qed.

Lemma quiet_return_stmt : quiet (return_stmt n (function_call n)).
Proof.
  intros s Hs. destruct (return_stmt n (function_call n) s) as [a s'|s'|] eqn:E.
  - now apply return_stmt_jumps in E.
  - now exists n, s.
  - exact I.
Qed.

Lemma quiet_statement_body :
  quiet (statement_body n (statement n) (function_call n)).
Proof.
  pose proof calm_expression_stmnt. pose proof calm_variable_declaration.
  pose proof calm_print_loop. pose proof calm_input_loop.
  pose proof quiet_if_stmnt. pose proof quiet_while_stmnt. pose proof quiet_do_stmnt.
  pose proof quiet_for_stmnt. pose proof quiet_import_loop. pose proof quiet_return_stmt.
  unfold statement_body, variable_declaration, print_stmnt, input_stmnt, import_stmt.
  quiet.
Qed.

(** What function_call does once the body has ended or a return statement
    has jumped: without a value in the return slot it puts a new int 0
    there; what the slot holds is the result, and the slot is emptied. *)
Lemma function_call_body_Ok addr s v s' :
  return_value s = None ->
  function_call_body n (statement n) (function_call n) addr s = Ok v s' ->
  exists a sb s1,
    call_entry n (function_call n) addr s = Ok a sb /\
    return_value sb = None /\
    setjmp (block n (statement n)) sb = Ok tt s1 /\
    v = Some (match return_value s1 with
              | Some x => x
              | None => fresh (dom (objects (shared s1)))
              end) /\
    return_value s' = None.
Proof.
  intros Hs E. unfold function_call_body in E.
  apply bind_Ok in E as (arglist & s1 & E1 & E).
  assert (R1 : return_value s1 = None)
    by (pose proof (calm_push_arguments s Hs) as C; now rewrite E1 in C).
  apply bind_Ok in E as ([] & s2 & E2 & E).
  pose proof E2 as X2.
  apply (shared_only_Ok _ _ _ _ (shared_only_in_shared _)) in E2 as (_ & _ & R2).
  apply bind_Ok in E as (return_to & s3 & E3 & E).
  pose proof E3 as X3.
  apply (shared_only_Ok _ _ _ _ (shared_only_in_shared _)) in E3 as (_ & _ & R3).
  apply bind_Ok in E as ([] & s4 & E4 & E).
  pose proof E4 as X4.
  apply (shared_only_Ok _ _ _ _ (shared_only_in_shared _)) in E4 as (_ & _ & R4).
  apply bind_Ok in E as ([] & s5 & E5 & E).
  pose proof E5 as X5.
  apply (shared_only_Ok _ _ _ _ (shared_only_expect _)) in E5 as (_ & _ & R5).
  apply bind_Ok in E as ([] & s6 & E6 & E).
  pose proof E6 as X6.
  apply (shared_only_Ok _ _ _ _ (shared_only_pop_arguments _ _)) in E6 as (_ & _ & R6).
  apply bind_Ok in E as ([] & s7 & E7 & E).
  pose proof E7 as X7.
  apply (shared_only_Ok _ _ _ _ (shared_only_expect _)) in E7 as (_ & _ & R7).
  apply bind_Ok in E as ([] & s8 & E8 & E).
  rewrite (bind_step get _ s8 s8 s8 eq_refl) in E.
  apply bind_Ok in E as ([] & s9 & E9 & E).
  assert (R9 : return_value s9 = Some (match return_value s8 with
                                       | Some x => x
                                       | None => fresh (dom (objects (shared s8)))
                                       end)).
  { unfold when in E9. destruct (return_value s8) as [x|] eqn:R8.
    - rewrite bool_decide_false in E9 by discriminate. now injection E9 as <-.
    - rewrite bool_decide_true in E9 by reflexivity.
      unfold bind, in_shared, in_heap in E9. rewrite obj_create_int in E9.
      now injection E9 as <-. }
  apply bind_Ok in E as ([] & s10 & E10 & E).
  apply (shared_only_Ok _ _ _ _ (shared_only_decref _ _)) in E10 as (_ & _ & R10).
  apply bind_Ok in E as ([] & s11 & E11 & E).
  apply (shared_only_Ok _ _ _ _ (shared_only_in_shared _)) in E11 as (_ & _ & R11).
  apply bind_Ok in E as (b & s12 & E12 & E).
  apply (shared_only_Ok _ _ _ _ (shared_only_accept _)) in E12 as (_ & _ & R12).
  apply bind_Ok in E as ([] & s13 & E13 & E).
  apply (shared_only_Ok _ _ _ _ (shared_only_in_shared _)) in E13 as (_ & _ & R13).
  apply bind_Ok in E as ([] & s14 & E14 & E).
  apply (shared_only_Ok _ _ _ _ (shared_only_decref _ _)) in E14 as (_ & _ & R14).
  rewrite (bind_step get _ s14 s14 s14 eq_refl) in E.
  injection E as <- <-.
  exists (arglist, return_to), s7, s8. repeat split; try assumption; try congruence.
  unfold call_entry.
  rewrite (bind_step _ _ _ _ _ E1), (bind_step _ _ _ _ _ X2), (bind_step _ _ _ _ _ X3).
  rewrite (bind_step _ _ _ _ _ X4), (bind_step _ _ _ _ _ X5), (bind_step _ _ _ _ _ X6).
  now rewrite (bind_step _ _ _ _ _ X7).
Qed.

(** function_call catches the jump of a return statement in the body, and
    nothing jumps after the body. *)
Lemma function_call_body_no_Jump addr s s' :
  return_value s = None ->
  function_call_body n (statement n) (function_call n) addr s <> Jump s'.
Proof.
  intros Hs E. unfold function_call_body in E.
  apply bind_Jump in E as [E | (arglist & s1 & E1 & E)].
  { pose proof (calm_push_arguments s Hs) as C. now rewrite E in C. }
  repeat match type of E with
  | bind (in_shared ?m) _ _ = Jump _ =>
      apply bind_Jump in E as [E | (? & ? & _ & E)];
      [exact (shared_only_no_Jump _ _ _ (shared_only_in_shared m) E)|]
  | bind (expect ?t) _ _ = Jump _ =>
      apply bind_Jump in E as [E | (? & ? & _ & E)];
      [exact (shared_only_no_Jump _ _ _ (shared_only_expect t) E)|]
  | bind (accept ?t) _ _ = Jump _ =>
      apply bind_Jump in E as [E | (? & ? & _ & E)];
      [exact (shared_only_no_Jump _ _ _ (shared_only_accept t) E)|]
  | bind (decref ?f ?o) _ _ = Jump _ =>
      apply bind_Jump in E as [E | (? & ? & _ & E)];
      [exact (shared_only_no_Jump _ _ _ (shared_only_decref f o) E)|]
  | bind (pop_arguments ?f ?l) _ _ = Jump _ =>
      apply bind_Jump in E as [E | (? & ? & _ & E)];
      [exact (shared_only_no_Jump _ _ _ (shared_only_pop_arguments f l) E)|]
  | bind (setjmp ?m) _ ?s = Jump _ =>
      apply bind_Jump in E as [E | (? & ? & _ & E)];
      [unfold setjmp in E; destruct (m s); discriminate|]
  | bind get _ ?s = Jump _ => rewrite (bind_step get _ s s s eq_refl) in E
  | bind (when ?b ?m) _ ?s = Jump _ =>
      apply bind_Jump in E as [E | (? & ? & _ & E)];
      [unfold when in E; destruct b; [|discriminate];
       apply bind_Jump in E as [E | (? & ? & _ & E)];
       [exact (shared_only_no_Jump _ _ _ (shared_only_in_shared _) E)|discriminate]|]
  end.
  discriminate.
Qed.

Lemma calm_function_call_body addr :
  calm (function_call_body n (statement n) (function_call n) addr).
Proof.
  intros s Hs.
  destruct (function_call_body n (statement n) (function_call n) addr s)
    as [v s'|s'|] eqn:E.
  - now destruct (function_call_body_Ok _ _ _ _ Hs E) as (_ & _ & _ & _ & _ & _ & _ & R).
  - now apply function_call_body_no_Jump in E.
  - exact I.
Qed.

End Level.

(** The return slot is empty whenever a statement is entered or has
    ended and whenever function_call is entered or has returned; only a
    return statement jumps, and function_call catches the jump. *)
Lemma return_slot n :
  quiet (statement n) /\ forall addr, calm (function_call n addr).
Proof.
  induction n as [|n [IHs IHf]].
  - split; [intros s _|intros addr s _]; exact I.
  - split.
    + intros s Hs. exact (quiet_statement_body n IHs IHf s Hs).
    + intros addr s Hs. exact (calm_function_call_body n IHf addr s Hs).
Qed.

(** A return statement that has jumped: after NEWLINE the slot holds a new
    int 0, else what the comma-expression gave. *)
Lemma return_stmt_Jump n s0 s1 :
  return_value s0 = None ->
  return_stmt n (function_call n) s0 = Jump s1 ->
  (token (shared s0) = NEWLINE /\
   return_value s1 = Some (fresh (dom (objects (shared s0))))) \/
  (token (shared s0) <> NEWLINE /\
   exists e s2, run_comma_expr (function_call n) s0 = Ok e s2 /\ return_value s1 = e).
Proof.
  intros Hs E. unfold return_stmt in E.
  rewrite (bind_step current_token _ s0 (token (shared s0)) s0 eq_refl) in E.
  unfold token_eqb in E.
  destruct (bool_decide_reflect (token (shared s0) = NEWLINE)) as [Ht|Ht]; [left|right];
    (split; [exact Ht|]).
  - apply bind_Jump in E as [E | ([] & s2 & E2 & E)].
    { unfold bind, in_shared, in_heap in E. rewrite obj_create_int in E. discriminate. }
    unfold bind, in_shared, in_heap in E2. rewrite obj_create_int in E2.
    injection E2 as <-.
    apply bind_Jump in E as [E | ([] & s3 & E3 & E)].
    { now apply (shared_only_no_Jump _ _ _ (shared_only_expect _)) in E. }
    apply (shared_only_Ok _ _ _ _ (shared_only_expect _)) in E3 as (_ & _ & R3).
    injection E as <-. exact R3.
  - apply bind_Jump in E as [E | ([] & s2 & E2 & E)].
    { apply bind_Jump in E as [E | (e & s2 & E2 & E)]; [|discriminate].
      pose proof (calm_run_comma_expr n (proj2 (return_slot n)) s0 Hs) as C.
      now rewrite E in C. }
    apply bind_Ok in E2 as (e & s2' & Ee & E2). injection E2 as <-.
    apply bind_Jump in E as [E | ([] & s3 & E3 & E)].
    { now apply (shared_only_no_Jump _ _ _ (shared_only_expect _)) in E. }
    apply (shared_only_Ok _ _ _ _ (shared_only_expect _)) in E3 as (_ & _ & R3).
    injection E as <-. exists e, s2'. split; [exact Ee|exact R3].
Qed.

Lemma zero_created_fresh s : zero_created s (fresh (dom (objects (shared s)))).
Proof.
  split; [apply fresh_not_live|]. intros fuel.
  unfold in_shared, in_heap. now rewrite obj_create_int.
Qed.


End ReturnSlot.

(** ** parser.c: the arguments of a call *)

Lemma lookup_snoc {A} (l : list A) (x : A) : (l ++ [x]) !! length l = Some x.
Proof. now apply list_lookup_middle. Qed.

Lemma insert_snoc {A} (l : list A) (x y : A) : <[length l := y]> (l ++ [x]) = l ++ [y].
Proof.
  induction l as [|z l IH]; [reflexivity|]. cbn [app length].
  change (<[S (length l) := y]> (z :: (l ++ [x]))) with (z :: <[length l := y]> (l ++ [x])).
  now rewrite IH.
Qed.

Lemma frame_lookup_snoc name o f :
  frame_lookup name f = None -> frame_lookup name (f ++ [(name, o)]) = Some o.
Proof.
  induction f as [|[n o'] f IH]; cbn.
  - now rewrite String.eqb_refl.
  - destruct (String.eqb n name); [discriminate|exact IH].
Qed.

Lemma frame_update_snoc name o o' f :
  frame_lookup name f = None ->
  frame_update name o' (f ++ [(name, o)]) = f ++ [(name, o')].
Proof.
  induction f as [|[n o''] f IH]; cbn.
  - now rewrite String.eqb_refl.
  - destruct (String.eqb n name); [discriminate|]. intros E. now rewrite IH.
Qed.

Lemma frame_lookup_other name x o f :
  x <> name -> frame_lookup name f = None -> frame_lookup name (f ++ [(x, o)]) = None.
Proof.
  intros Hx. induction f as [|[n o'] f IH]; cbn.
  - intros _. now rewrite (proj2 (String.eqb_neq x name) Hx).
  - destruct (String.eqb n name); [discriminate|exact IH].
Qed.

Lemma in_shared_step {A} (m : M Shared A) s a sh :
  m (shared s) = Ok a sh -> in_shared m s = Ok a (set_shared sh s).
Proof. unfold in_shared. now intros ->. Qed.

Lemma in_heap_step {A} (m : M heap A) sh a h :
  m (objects sh) = Ok a h -> in_heap m sh = Ok a (set_objects h sh).
Proof. unfold in_heap. now intros ->. Qed.

(** identifier.add of a name that the innermost level does not have. *)
Lemma identifier_add_new sh lv f name :
  levels sh = lv ++ [f] -> frame_lookup name f = None ->
  identifier_add name sh =
  Ok (Some (mkIdentifier (length lv) name)) (set_levels (lv ++ [f ++ [(name, None)]]) sh).
Proof.
  intros El Ef. unfold identifier_add. rewrite (bind_step get _ sh sh sh eq_refl).
  rewrite El, last_snoc, Ef, length_app. cbn [length].
  replace (Init.Nat.pred (length lv + 1)) with (length lv) by lia.
  now rewrite insert_snoc.
Qed.

(** identifier.add of a name that the innermost level has. *)
Lemma identifier_add_old sh lv f name o :
  levels sh = lv ++ [f] -> frame_lookup name f = Some o ->
  identifier_add name sh = Ok None sh.
Proof.
  intros El Ef. unfold identifier_add. rewrite (bind_step get _ sh sh sh eq_refl).
  now rewrite El, last_snoc, Ef.
Qed.

(** identifier.bind of an identifier that was added just before. *)
Lemma identifier_bind_new fuel sh lv f name a oa :
  levels sh = lv ++ [f ++ [(name, None)]] -> frame_lookup name f = None ->
  objects sh !! a = Some oa ->
  identifier_bind fuel (mkIdentifier (length lv) name) a sh =
  Ok tt (set_levels (lv ++ [f ++ [(name, Some a)]])
           (set_objects (<[a := mkObject (refcount oa + 1) (data oa)]> (objects sh)) sh)).
Proof.
  intros El Ef Ha. unfold identifier_bind.
  assert (E1 : identifier_object (mkIdentifier (length lv) name) sh = Ok None sh).
  { unfold identifier_object. rewrite (bind_step get _ sh sh sh eq_refl). cbn [id_level id_name].
    now rewrite El, lookup_snoc, frame_lookup_snoc. }
  rewrite (bind_step _ _ _ _ _ E1).
  rewrite (bind_step (ret tt) _ sh tt sh eq_refl).
  assert (E2 : obj_incref a (objects sh) =
               Ok tt (<[a := mkObject (refcount oa + 1) (data oa)]> (objects sh))).
  { unfold obj_incref. now rewrite (bind_step _ _ _ _ _ (load_some _ _ _ Ha)). }
  rewrite (bind_step _ _ _ _ _ (in_heap_step _ _ _ _ E2)).
  unfold identifier_set_object.
  set (sh1 := set_objects _ sh).
  rewrite (bind_step get _ sh1 sh1 sh1 eq_refl). cbn [id_level id_name].
  change (levels sh1) with (levels sh).
  now rewrite El, lookup_snoc, insert_snoc, frame_update_snoc.
Qed.

Lemma owns_transport h h' nodes args :
  Forall2 (owns h) nodes args ->
  (forall x, x ∈ nodes -> h' !! x = h !! x) ->
  Forall2 (owns h') nodes args.
Proof.
  induction 1 as [|x y l l' (o & Ho & Do) Hn IH]; intros K; constructor.
  - exists o. split; [|exact Do]. rewrite K; [exact Ho|]. apply elem_of_cons. now left.
  - apply IH. intros z Hz. apply K, elem_of_cons. now right.
Qed.

Lemma arglist_front h alist rc node nodes a args :
  arglist h alist rc (node :: nodes) (a :: args) ->
  alist <> node /\ alist <> a /\ node <> a /\
  (forall x, x ∈ nodes ++ args -> x <> alist /\ x <> node /\ x <> a) /\
  NoDup (alist :: nodes ++ args).
Proof.
  intros [_ _ _ Hd]. cbn in Hd.
  apply NoDup_cons in Hd as [H1 Hd]. apply NoDup_cons in Hd as [H2 Hd].
  apply NoDup_app in Hd as (H3 & H4 & H5). apply NoDup_cons in H5 as [H5 H6].
  rewrite not_elem_of_cons, not_elem_of_app, not_elem_of_cons in H1.
  rewrite not_elem_of_app, not_elem_of_cons in H2.
  destruct H1 as (L1 & L2 & L3 & L4), H2 as (M1 & M2 & M3).
  repeat split; try assumption.
  - intros ->. apply elem_of_app in H as [Hx|Hx]; contradiction.
  - intros ->. apply elem_of_app in H as [Hx|Hx]; contradiction.
  - intros ->. apply elem_of_app in H as [Hx|Hx]; [|contradiction].
    apply (H4 a); [exact Hx|apply elem_of_cons; now left].
  - apply NoDup_cons. split; [rewrite not_elem_of_app; now split|].
    apply NoDup_app. repeat split; [exact H3| |exact H6].
    intros x Hx Hy. apply (H4 x); [exact Hx|apply elem_of_cons; now right].
Qed.

(** listnode_remove(list, 0) and the obj_incref of identifier.bind on an
    argument list that is not empty. *)
Lemma listnode_remove_front h alist rc node nodes a args :
  arglist h alist rc (node :: nodes) (a :: args) ->
  exists h1 oa,
    listnode_remove alist 0 h = Ok (Some a) h1 /\
    h1 !! a = Some oa /\
    arglist (<[a := mkObject (refcount oa + 1) (data oa)]> h1) alist rc nodes args.
Proof.
  intros Ha. destruct (arglist_front _ _ _ _ _ _ _ Ha) as (N1 & N2 & N3 & N4 & N5).
  destruct Ha as [Hl Hn Hv _].
  apply Forall2_cons in Hn as [(on & Hon & Don) Hn].
  apply Forall_cons in Hv as [[oa Hoa] Hv].
  set (h1 := delete node (<[alist := mkObject rc (ListData nodes)]> h)).
  assert (K : forall x, x <> alist -> x <> node -> h1 !! x = h !! x).
  { intros x X1 X2. unfold h1. now rewrite lookup_delete_ne, lookup_insert_ne. }
  exists h1, oa. split; [|split].
  - unfold listnode_remove. rewrite (bind_step _ _ _ _ _ (load_some _ _ _ Hl)).
    cbn [data lookup]. cbn [list_lookup].
    assert (E1 : obj_from_listnode node h = Ok a h).
    { unfold obj_from_listnode. rewrite (bind_step _ _ _ _ _ (load_some _ _ _ Hon)).
      now rewrite Don. }
    rewrite (bind_step _ _ _ _ _ E1).
    rewrite (bind_step _ _ _ _ _ (set_data_live _ _ _ _ Hl)).
    reflexivity.
  - rewrite K by congruence. exact Hoa.
  - assert (K' : forall x, x ∈ nodes ++ args ->
                   <[a := mkObject (refcount oa + 1) (data oa)]> h1 !! x = h !! x).
    { intros x Hx. destruct (N4 x Hx) as (X1 & X2 & X3).
      rewrite lookup_insert_ne by congruence. now apply K. }
    split.
    + rewrite lookup_insert_ne by congruence. unfold h1.
      rewrite lookup_delete_ne by congruence. now rewrite lookup_insert_eq.
    + apply (owns_transport h); [exact Hn|].
      intros x Hx. apply K', elem_of_app. now left.
    + apply Forall_forall. intros x Hx. rewrite K' by (apply elem_of_app; now right).
      now apply (proj1 (Forall_forall _ _) Hv).
    + exact N5.
Qed.

Lemma listnode_remove_none h alist rc args :
  arglist h alist rc [] args -> listnode_remove alist 0 h = Ok None h.
Proof.
  intros [Hl _ _ _]. unfold listnode_remove.
  now rewrite (bind_step _ _ _ _ _ (load_some _ _ _ Hl)).
Qed.

Lemma formal_tokens_cons x names :
  formal_tokens (x :: names) =
  (IDENTIFIER, x) :: match names with
                     | [] => []
                     | _ :: _ => (COMMA, EmptyString) :: formal_tokens names
                     end.
Proof. now destruct names. Qed.

(** One turn of the loop of pop_arguments: the formal [x] is added to the
    innermost level and bound to the object of the first node, which
    leaves the list. *)
Lemma pop_arguments_turn fuel n alist rc s lv f x names node nodes a args r rest :
  at_tokens (shared s) (formal_tokens (x :: names) ++ (RPAR, r) :: rest) ->
  levels (shared s) = lv ++ [f] ->
  frame_lookup x f = None ->
  arglist (objects (shared s)) alist rc (node :: nodes) (a :: args) ->
  exists s1,
    pop_arguments_loop fuel (S n) alist s = pop_arguments_loop fuel n alist s1 /\
    at_tokens (shared s1) (formal_tokens names ++ (RPAR, r) :: rest) /\
    levels (shared s1) = lv ++ [f ++ [(x, Some a)]] /\
    arglist (objects (shared s1)) alist rc nodes args.
Proof.
  rewrite formal_tokens_cons. cbn [app]. intros Ha El Ef Hl.
  assert (Ht : token (shared s) = IDENTIFIER) by apply Ha.
  assert (Hx : lexeme (shared s) = x) by apply Ha.
  destruct (listnode_remove_front _ _ _ _ _ _ _ Hl) as (h1 & oa & R & Hoa & Hl').
  set (id := mkIdentifier (length lv) x).
  set (s1 := set_shared (set_levels (lv ++ [f ++ [(x, None)]]) (shared s)) s).
  assert (E1 : in_shared (identifier_add x) s = Ok (Some id) s1)
    by (apply in_shared_step; now apply identifier_add_new).
  set (s2 := set_shared (set_objects h1 (shared s1)) s1).
  assert (E2 : in_shared (in_heap (listnode_remove alist 0)) s1 = Ok (Some a) s2)
    by (apply in_shared_step, in_heap_step; exact R).
  set (s3 := set_shared
               (set_levels (lv ++ [f ++ [(x, Some a)]])
                  (set_objects (<[a := mkObject (refcount oa + 1) (data oa)]> h1)
                               (shared s2))) s2).
  assert (E3 : in_shared (identifier_bind fuel id a) s2 = Ok tt s3)
    by (apply in_shared_step; now apply (identifier_bind_new fuel (shared s2) lv f x a oa)).
  assert (A3 : at_tokens (shared s3)
                 ((IDENTIFIER, x) ::
                  match names with
                  | [] => []
                  | _ :: _ => (COMMA, EmptyString) :: formal_tokens names
                  end ++ (RPAR, r) :: rest)) by exact Ha.
  destruct (expect_at s3 _ _ _ A3) as (o4 & u4 & y4 & E4 & A4).
  set (s4 := set_shared _ s3) in *.
  assert (E5 : exists b s5, accept COMMA s4 = Ok b s5 /\
                 at_tokens (shared s5) (formal_tokens names ++ (RPAR, r) :: rest) /\
                 levels (shared s5) = lv ++ [f ++ [(x, Some a)]] /\
                 objects (shared s5) = <[a := mkObject (refcount oa + 1) (data oa)]> h1).
  { destruct names as [|y names].
    - exists false, s4. split; [|split; [exact A4|split; reflexivity]].
      apply accept_other. destruct A4 as (T4 & _). cbn [shared s4 set_shared].
      rewrite T4. discriminate.
    - destruct (accept_at s4 _ _ _ A4) as (o5 & u5 & y5 & E5 & A5).
      eexists true, _. split; [exact E5|]. split; [exact A5|split; reflexivity]. }
  destruct E5 as (b & s5 & E5 & A5 & L5 & O5).
  exists s5. split; [|split; [exact A5|split; [exact L5|now rewrite O5]]].
  cbn [pop_arguments_loop].
  rewrite (bind_step current_token _ s (token (shared s)) s eq_refl), Ht.
  rewrite token_eqb_refl, token_eqb_neq by discriminate. cbn [negb]. unfold when.
  rewrite (bind_step (ret tt) _ s tt s eq_refl).
  rewrite (bind_step current_string _ s (lexeme (shared s)) s eq_refl), Hx.
  rewrite (bind_step _ _ _ _ _ E1).
  rewrite (bind_step (ret id) _ s1 id s1 eq_refl).
  rewrite (bind_step _ _ _ _ _ E2).
  rewrite (bind_step (ret a) _ s2 a s2 eq_refl).
  rewrite (bind_step _ _ _ _ _ E3).
  rewrite (bind_step _ _ _ _ _ E4).
  now rewrite (bind_step _ _ _ _ _ E5).
Qed.

(** A formal for which the list has no node left: SyntaxError. *)
Lemma pop_arguments_short fuel n alist rc s lv f x names args r rest :
  at_tokens (shared s) (formal_tokens (x :: names) ++ (RPAR, r) :: rest) ->
  levels (shared s) = lv ++ [f] ->
  frame_lookup x f = None ->
  arglist (objects (shared s)) alist rc [] args ->
  pop_arguments_loop fuel (S n) alist s = Abort (Raise SyntaxError).
Proof.
  rewrite formal_tokens_cons. cbn [app]. intros Ha El Ef Hl.
  assert (Ht : token (shared s) = IDENTIFIER) by apply Ha.
  assert (Hx : lexeme (shared s) = x) by apply Ha.
  set (id := mkIdentifier (length lv) x).
  set (s1 := set_shared (set_levels (lv ++ [f ++ [(x, None)]]) (shared s)) s).
  assert (E1 : in_shared (identifier_add x) s = Ok (Some id) s1)
    by (apply in_shared_step; now apply identifier_add_new).
  assert (E2 : in_shared (in_heap (listnode_remove alist 0)) s1 =
               Ok None (set_shared (set_objects (objects (shared s1)) (shared s1)) s1))
    by (apply in_shared_step, in_heap_step; exact (listnode_remove_none _ _ _ _ Hl)).
  cbn [pop_arguments_loop].
  rewrite (bind_step current_token _ s (token (shared s)) s eq_refl), Ht.
  rewrite token_eqb_refl, token_eqb_neq by discriminate. cbn [negb]. unfold when.
  rewrite (bind_step (ret tt) _ s tt s eq_refl).
  rewrite (bind_step current_string _ s (lexeme (shared s)) s eq_refl), Hx.
  rewrite (bind_step _ _ _ _ _ E1).
  rewrite (bind_step (ret id) _ s1 id s1 eq_refl).
  now rewrite (bind_step _ _ _ _ _ E2).
Qed.

(** At the RPAR the loop ends. *)
Lemma pop_arguments_end fuel n alist s r rest :
  at_tokens (shared s) ((RPAR, r) :: rest) ->
  pop_arguments_loop fuel (S n) alist s = Ok tt s.
Proof.
  intros (Ht & _). cbn [pop_arguments_loop].
  rewrite (bind_step current_token _ s (token (shared s)) s eq_refl), Ht.
  now rewrite token_eqb_refl.
Qed.

Lemma pop_arguments_loop_spec fuel alist rc r rest :
  forall names n s lv f nodes args,
    (length names < n)%nat ->
    at_tokens (shared s) (formal_tokens names ++ (RPAR, r) :: rest) ->
    levels (shared s) = lv ++ [f] ->
    NoDup names ->
    Forall (fun x => frame_lookup x f = None) names ->
    arglist (objects (shared s)) alist rc nodes args ->
    ((length names <= length args)%nat ->
     exists s',
       pop_arguments_loop fuel n alist s = Ok tt s' /\
       levels (shared s') = lv ++ [f ++ zip names (Some <$> args)] /\
       arglist (objects (shared s')) alist rc
               (drop (length names) nodes) (drop (length names) args) /\
       at_tokens (shared s') ((RPAR, r) :: rest)) /\
    ((length args < length names)%nat ->
     pop_arguments_loop fuel n alist s = Abort (Raise SyntaxError)).
Proof.
  induction names as [|x names IH]; intros n s lv f nodes args Hn Ha El Hd Hf Hl;
    (destruct n as [|n]; [cbn in Hn; lia|]).
  - split; [intros _|cbn; lia].
    exists s. rewrite (pop_arguments_end _ _ _ _ _ _ Ha). cbn [zip zip_with length drop].
    rewrite app_nil_r. split; [reflexivity|]. split; [exact El|]. split; [exact Hl|exact Ha].
  - apply NoDup_cons in Hd as [Hx Hd]. apply Forall_cons in Hf as [Hfx Hf].
    destruct args as [|a args].
    + assert (nodes = []) as ->
        by (destruct Hl as [_ Hn2 _ _]; now apply Forall2_nil_inv_r in Hn2).
      split; [cbn; lia|intros _].
      exact (pop_arguments_short _ _ _ _ _ _ _ _ _ _ _ _ Ha El Hfx Hl).
    + assert (exists node nodes', nodes = node :: nodes') as (node & nodes' & ->)
        by (destruct Hl as [_ Hn2 _ _]; apply Forall2_cons_inv_r in Hn2;
            destruct Hn2 as (node & nodes' & _ & _ & ->); eauto).
      destruct (pop_arguments_turn fuel n _ _ _ _ _ _ _ _ _ _ _ _ _ Ha El Hfx Hl)
        as (s1 & -> & Ha1 & El1 & Hl1).
      assert (Hf1 : Forall (fun y => frame_lookup y (f ++ [(x, Some a)]) = None) names).
      { apply Forall_forall. intros y Hy. apply frame_lookup_other.
        - intros ->. contradiction.
        - now apply (proj1 (Forall_forall _ _) Hf). }
      cbn [length] in Hn.
      destruct (IH n s1 lv _ nodes' args ltac:(lia) Ha1 El1 Hd Hf1 Hl1) as [IH1 IH2].
      split; intros Hlen; cbn [length] in Hlen.
      * destruct (IH1 ltac:(lia)) as (s' & E & El' & Hl' & Ha').
        exists s'. split; [exact E|]. split; [|split; [exact Hl'|exact Ha']].
        rewrite El'. cbn [fmap list_fmap zip zip_with]. now rewrite <- app_assoc.
      * apply IH2. lia.
Qed.

(** The release of a list whose count is 1 destroys its nodes. *)
Lemma obj_decref_list k h alist nodes :
  h !! alist = Some (mkObject 1 (ListData nodes)) ->
  obj_decref (S k) alist h =
  (for_each (obj_decref k) nodes ;; release alist)
    (<[alist := mkObject 0 (ListData nodes)]> h).
Proof.
  intros Hl. cbn [obj_decref]. rewrite (bind_step _ _ _ _ _ (load_some _ _ _ Hl)).
  cbn [refcount data]. change (1 - 1) with 0. change (0 =? 0) with true. cbv iota.
  rewrite (bind_step (store alist _) _ h tt (<[alist := mkObject 0 (ListData nodes)]> h)
             eq_refl).
  unfold obj_free.
  now rewrite (bind_step _ _ _ _ _ (load_some alist _ _ (lookup_insert_eq _ _ _))).
Qed.


(** * Further properties of the object layer *)

(** ** Reference counts *)

Lemma obj_incref_live p o (h : heap) :
  h !! p = Some o -> obj_incref p h = Ok tt (<[p := mkObject (refcount o + 1) (data o)]> h).
Proof. intros Hp. unfold obj_incref. now rewrite (bind_step _ _ _ _ _ (load_some _ _ _ Hp)). Qed.

(** obj_decref of an object that others still use lowers its count. *)
Lemma obj_decref_alive fuel p o (h : heap) :
  h !! p = Some o -> refcount o - 1 <> 0 ->
  obj_decref (S fuel) p h = Ok tt (<[p := mkObject (refcount o - 1) (data o)]> h).
Proof.
  intros Hp Hrc. cbn [obj_decref]. rewrite (bind_step _ _ _ _ _ (load_some _ _ _ Hp)).
  unfold store, bind, ret. destruct (refcount o - 1 =? 0) eqn:E; [lia|]. reflexivity.
Qed.

(** obj_decref of the last reference to an object without parts
    releases it. *)
Lemma obj_decref_last fuel p d (h : heap) :
  h !! p = Some (mkObject 1 d) ->
  (forall f, type_free f p d = release p) ->
  obj_decref (S fuel) p h = Ok tt (delete p h).
Proof.
  intros Hp Hd. cbn [obj_decref]. rewrite (bind_step _ _ _ _ _ (load_some _ _ _ Hp)).
  unfold store. unfold bind at 1. cbn [refcount data].
  change (1 - 1 =? 0) with true. cbn match. unfold obj_free.
  rewrite (bind_step _ _ _ _ _ (load_some _ _ _ (lookup_insert_eq h p _))).
  cbn [data]. rewrite Hd. unfold release. now rewrite delete_insert_eq.
Qed.

Lemma set_data_Ok obj d (h h' : heap) :
  set_data obj d h = Ok tt h' ->
  exists o, h !! obj = Some o /\ h' = <[obj := mkObject (refcount o) d]> h.
Proof.
  unfold set_data. intros E. apply bind_Ok in E as (o & h1 & L & E).
  apply load_Ok in L as [L ->]. exists o. split; [exact L|].
  unfold store in E. now injection E as <-.
Qed.

(** obj_decref of a string object lowers its count, or releases it. *)
Lemma obj_decref_string fuel p o s (h h' : heap) :
  h !! p = Some o -> data o = StrData s ->
  obj_decref fuel p h = Ok tt h' ->
  (h' = <[p := mkObject (refcount o - 1) (StrData s)]> h /\ refcount o - 1 <> 0) \/
  (h' = delete p h /\ refcount o - 1 = 0).
Proof.
  intros Hp Hd E. destruct fuel as [|fuel]; [discriminate|]. cbn [obj_decref] in E.
  rewrite (bind_step _ _ _ _ _ (load_some _ _ _ Hp)) in E.
  unfold store in E. unfold bind at 1 in E. rewrite Hd in E.
  destruct (refcount o - 1 =? 0) eqn:Z.
  - right. split; [|lia]. unfold obj_free in E.
    rewrite (bind_step _ _ _ _ _ (load_some _ _ _ (lookup_insert_eq h p _))) in E.
    cbn [data type_free] in E. unfold release in E. injection E as <-.
    now rewrite delete_insert_eq.
  - left. split; [|lia]. unfold ret in E. now injection E as <-.
Qed.

(** X6: the none object is never released.  obj_decref of it lowers its
    count and leaves it in memory even when the count reaches zero
    (none_free does nothing), and obj_alloc(NONE_T) followed by obj_decref
    leaves the heap exactly as it was, whatever the count. *)
Theorem none_never_released fuel (h : heap) p o :
  h !! p = Some o -> data o = NoneData ->
  obj_decref (S fuel) p h = Ok tt (<[p := mkObject (refcount o - 1) NoneData]> h) /\
  (p = none -> (let* q := obj_alloc NONE_T in obj_decref (S fuel) q) h = Ok tt h).
Proof.
  intros Hp Hd.
  assert (D : forall (h0 : heap) rc,
             h0 !! p = Some (mkObject rc NoneData) ->
             obj_decref (S fuel) p h0 = Ok tt (<[p := mkObject (rc - 1) NoneData]> h0)).
  { intros h0 rc L. cbn [obj_decref]. rewrite (bind_step _ _ _ _ _ (load_some _ _ _ L)).
    unfold store. unfold bind at 1. cbn [refcount data].
    destruct (rc - 1 =? 0); [|reflexivity].
    unfold obj_free. now rewrite (bind_step _ _ _ _ _ (load_some _ _ _ (lookup_insert_eq h0 p _))). }
  assert (Eo : o = mkObject (refcount o) NoneData) by (destruct o; cbn in *; congruence).
  split.
  - apply D. now rewrite Hp, Eo at 1.
  - intros ->. rewrite (bind_step _ _ _ _ _ (obj_alloc_none h o Hp)). rewrite Hd.
    rewrite (D _ (refcount o + 1) (lookup_insert_eq _ _ _)).
    f_equal. rewrite insert_insert_eq. apply insert_id.
    replace (refcount o + 1 - 1) with (refcount o) by lia. now rewrite <- Eo.
Qed.

(** ** The [+] operator *)

Section OperatorsMore.
Context `{Libc} `{NumberType} `{StrType} `{ListType}.

(** X1: [+] hands two numbers to the numeric sum; else, when either
    operand is a string, both operands to the concatenation of strings,
    whatever the other operand is (a number, a list, none); else two lists
    to the concatenation of lists; and stops with TypeError for every
    other pair of operand types. *)
Theorem obj_add_dispatch (h : heap) op1 op2 a b t1 t2 :
  operand h op1 a t1 -> operand h op2 b t2 ->
  obj_add op1 op2 h =
  match add_shape_of t1 t2 with
  | Sum => number_add a b h
  | Concatenation => str_concat a b h
  | JoinedLists => list_concat a b h
  | NoSum => Abort (Raise TypeError)
  end.
Proof.
  intros O1 O2. unfold obj_add.
  rewrite (operands_step h op1 op2 a b t1 t2
             (fun op1 op2 n1 n2 s1 s2 l1 l2 =>
                if n1 && n2 then number_add op1 op2
                else if s1 || s2 then str_concat op1 op2
                else if l1 && l2 then list_concat op1 op2
                else error TypeError) O1 O2).
  destruct t1, t2; reflexivity.
Qed.

(** ** Sequences *)

Lemma obj_as_int_int p o i (h : heap) :
  h !! p = Some o -> data o = IntData i -> obj_as_int p h = Ok i h.
Proof.
  intros Hp Hd. unfold obj_as_int.
  rewrite (bind_step _ _ _ _ _ (deref_not_listnode h p o Hp ltac:(now rewrite Hd))).
  rewrite (bind_step _ _ _ _ _ (load_some _ _ _ Hp)). now rewrite Hd.
Qed.

(** X5: obj_length stops with TypeError on an operand that is no string
    and no list; on a sequence it returns the value of the int object that
    the length method of the type has allocated, and releases that object:
    the heap is as it was before the call. *)
Theorem obj_length_releases_result fuel (h : heap) op a t :
  operand h op a t ->
  (sequence_type t = false -> obj_length fuel op h = Abort (Raise TypeError)) /\
  (forall r n,
     sequence_type t = true ->
     (if bool_decide (t = STR_T) then str_length a h else list_length a h) =
       Ok r (<[r := mkObject 1 (IntData n)]> h) ->
     h !! r = None ->
     obj_length (S fuel) op h = Ok n h).
Proof.
  intros [D T]. unfold obj_length.
  rewrite !(bind_step _ _ _ _ _ D), !(bind_step _ _ _ _ _ (TYPE_has_type _ _ _ T)).
  split.
  - intros Hs. destruct t; try discriminate; reflexivity.
  - intros r n Hs E Hr.
    assert (E' : (if bool_decide (t = STR_T) then str_length a
                  else if bool_decide (t = LIST_T) then list_length a
                  else error TypeError) h = Ok r (<[r := mkObject 1 (IntData n)]> h)).
    { destruct t; try discriminate; exact E. }
    rewrite (bind_step _ _ _ _ _ E').
    rewrite (bind_step _ _ _ _ _
               (obj_as_int_int r (mkObject 1 (IntData n)) n _
                                (lookup_insert_eq h r _) eq_refl)).
    rewrite (bind_step _ _ _ _ _
               (obj_decref_last fuel r (IntData n) _ (lookup_insert_eq h r _)
                                (fun _ => eq_refl))).
    cbn [ret]. f_equal. now apply delete_insert_id.
Qed.

Lemma obj_in_loop_Some fuel k : forall i op1 op2 res (h : heap) r h',
  (k = O -> is_Some res) ->
  obj_in_loop fuel k i op1 op2 res h = Ok r h' -> is_Some r.
Proof.
  induction k as [|k IH]; intros i op1 op2 res h r h' Hk E; cbn [obj_in_loop] in E.
  - injection E as <- <-. now apply Hk.
  - apply bind_Ok in E as ([] & h1 & _ & E).
    apply bind_Ok in E as (item & h2 & _ & E).
    apply bind_Ok in E as (result & h3 & _ & E).
    apply bind_Ok in E as ([] & h4 & _ & E).
    apply bind_Ok in E as (v & h5 & _ & E).
    destruct (v =? 1).
    + injection E as <- <-. eauto.
    + apply IH in E; [exact E|]. eauto.
Qed.

(** X7: when [x in s] returns, its result is the NULL pointer exactly
    when the sequence is empty (then the heap is as obj_length left it);
    on every sequence with an element the result is an object. *)
Theorem obj_in_result_iff_nonempty fuel (h : heap) op1 op2 r h' :
  obj_in fuel op1 op2 h = Ok r h' ->
  exists b len h1,
    deref_listnode op2 h = Ok b h /\
    obj_length fuel b h = Ok len h1 /\
    (r = None <-> len <= 0) /\
    (r = None -> h' = h1).
Proof.
  unfold obj_in. intros E.
  apply operands_of in E as (a & b & D1 & D2 & _ & _ & E).
  apply bind_Ok in E as (sq & h0 & Sq & E).
  apply (reads_Ok _ _ _ _ (reads_isSequence b)) in Sq as ->.
  apply bind_Ok in E as ([] & h0 & W & E).
  destruct sq; [|discriminate]. injection W as <-.
  apply bind_Ok in E as (len & h1 & L & E).
  exists b, len, h1. split; [exact D2|]. split; [exact L|].
  destruct (Z.to_nat len) as [|k] eqn:K.
  - cbn [obj_in_loop] in E. injection E as <- <-. split; [|reflexivity].
    split; [lia|reflexivity].
  - apply obj_in_loop_Some in E; [|discriminate]. destruct E as [p ->].
    split; [|discriminate]. split; [discriminate|lia].
Qed.

End OperatorsMore.

(** ** Copies and assignments *)

Section AssignMore.
Context `{Libc}.

Lemma obj_as_str_string p o s (h : heap) :
  h !! p = Some o -> data o = StrData s -> obj_as_str p h = Ok s h.
Proof.
  intros Hp Hd. unfold obj_as_str.
  rewrite (bind_step _ _ _ _ _ (deref_not_listnode h p o Hp ltac:(now rewrite Hd))).
  rewrite (bind_step _ _ _ _ _ (load_some _ _ _ Hp)). now rewrite Hd.
Qed.

(** X2: the assignment to a string object.  The target gets the text
    that obj_to_strobj gives the source: the text of a string, the
    character, the decimal digits or the %.16lG form of a number, "None"
    for none, and the empty string for a list, a list node or a position.
    The target keeps its count, and nothing else changes: the string made
    for the conversion is released again, and the count of a source that is
    a string is raised and lowered again. *)
Theorem obj_assign_str_target fuel (h : heap) op1 op2 o1 o2 old :
  h !! op1 = Some o1 -> data o1 = StrData old ->
  h !! op2 = Some o2 ->
  (type_of (data o2) = STR_T -> refcount o2 <> 0) ->
  obj_assign (S fuel) op1 op2 h =
  Ok tt (<[op1 := mkObject (refcount o1) (StrData (strobj_text (data o2)))]> h).
Proof.
  intros H1 D1 H2 Hrc. unfold obj_assign.
  assert (T1 : has_type h op1 STR_T) by (exists o1; now rewrite D1).
  rewrite (bind_step _ _ _ _ _ (TYPE_has_type _ _ _ T1)).
  assert (T2 : has_type h op2 (type_of (data o2))) by (exists o2; auto).
  (* a source that is no string: a new string object, released at the end *)
  assert (New : forall text,
             obj_to_strobj (S fuel) op2 h =
               Ok (fresh (dom h)) (<[fresh (dom h) := mkObject 1 (StrData text)]> h) ->
             text = strobj_text (data o2) ->
             (let* obj := obj_to_strobj (S fuel) op2 in
              let* s := obj_as_str obj in
              obj_set (S fuel) op1 (ArgStr s) ;; obj_decref (S fuel) obj) h =
             Ok tt (<[op1 := mkObject (refcount o1) (StrData (strobj_text (data o2)))]> h)).
  { intros text E ->. rewrite (bind_step _ _ _ _ _ E).
    set (p := fresh (dom h)). set (h1 := <[p := _]> h).
    assert (Np : op1 <> p).
    { intros ->. unfold p in H1. rewrite fresh_not_live in H1. discriminate. }
    rewrite (bind_step _ _ _ _ _
               (obj_as_str_string p _ _ h1 (lookup_insert_eq h p _) eq_refl)).
    assert (L1 : h1 !! op1 = Some o1) by (unfold h1; now rewrite lookup_insert_ne).
    unfold obj_set, type_set. rewrite bind_bind.
    rewrite (bind_step _ _ _ _ _ (load_some _ _ _ L1)). rewrite D1.
    rewrite (bind_step _ _ _ _ _ (set_data_live _ _ _ _ L1)).
    rewrite (obj_decref_last fuel p (StrData (strobj_text (data o2)))).
    - f_equal. unfold h1. rewrite delete_insert_ne by congruence.
      rewrite delete_insert_id by apply fresh_not_live. reflexivity.
    - rewrite lookup_insert_ne by congruence. apply lookup_insert_eq.
    - reflexivity. }
  assert (Created : forall text,
             obj_create (S fuel) STR_T (ArgStr text) h =
             Ok (fresh (dom h)) (<[fresh (dom h) := mkObject 1 (StrData text)]> h)).
  { intros text. unfold obj_create. now apply obj_create_with_scalar. }
  assert (D2 : deref_listnode op2 h = Ok op2 h \/ type_of (data o2) = LISTNODE_T).
  { destruct (decide (type_of (data o2) = LISTNODE_T)); [now right|left].
    now apply (deref_not_listnode h op2 o2). }
  destruct (data o2) as [c|i|f|s|nodes|x|pos|] eqn:E2; cbn [type_of] in *.
  - apply (New (format_c c)); [|reflexivity]. unfold obj_to_strobj.
    rewrite (bind_step _ _ _ _ _ (TYPE_has_type _ _ _ T2)).
    destruct D2 as [D2|]; [|discriminate].
    unfold obj_as_char. rewrite bind_bind, (bind_step _ _ _ _ _ D2).
    rewrite bind_bind, (bind_step _ _ _ _ _ (load_some _ _ _ H2)). rewrite E2.
    apply Created.
  - apply (New (pretty i)); [|reflexivity]. unfold obj_to_strobj.
    rewrite (bind_step _ _ _ _ _ (TYPE_has_type _ _ _ T2)).
    destruct D2 as [D2|]; [|discriminate].
    unfold obj_as_int. rewrite bind_bind, (bind_step _ _ _ _ _ D2).
    rewrite bind_bind, (bind_step _ _ _ _ _ (load_some _ _ _ H2)). rewrite E2.
    apply Created.
  - apply (New (format_G16 f)); [|reflexivity]. unfold obj_to_strobj.
    rewrite (bind_step _ _ _ _ _ (TYPE_has_type _ _ _ T2)).
    destruct D2 as [D2|]; [|discriminate].
    unfold obj_as_float. rewrite bind_bind, (bind_step _ _ _ _ _ D2).
    rewrite bind_bind, (bind_step _ _ _ _ _ (load_some _ _ _ H2)). rewrite E2.
    apply Created.
  - (* a string: the source itself, its count raised and lowered again *)
    unfold obj_to_strobj. rewrite bind_bind.
    rewrite (bind_step _ _ _ _ _ (TYPE_has_type _ _ _ T2)).
    rewrite bind_bind. rewrite (bind_step _ _ _ _ _ (obj_incref_live _ _ _ H2)).
    rewrite (bind_step (ret op2) _ _ op2 _ eq_refl).
    set (h1 := <[op2 := _]> h).
    assert (L2 : h1 !! op2 = Some (mkObject (refcount o2 + 1) (StrData s))).
    { unfold h1. rewrite E2. apply lookup_insert_eq. }
    rewrite (bind_step _ _ _ _ _ (obj_as_str_string op2 _ s h1 L2 eq_refl)).
    cbn [strobj_text]. specialize (Hrc eq_refl).
    unfold obj_set, type_set. rewrite bind_bind.
    destruct (decide (op1 = op2)) as [->|Ne].
    + assert (o1 = o2) as -> by congruence.
      rewrite (bind_step _ _ _ _ _ (load_some _ _ _ L2)). cbn [data].
      rewrite (bind_step _ _ _ _ _ (set_data_live _ _ _ _ L2)). cbn [refcount].
      rewrite (obj_decref_alive fuel op2 _ _ (lookup_insert_eq _ _ _))
        by (cbn [refcount]; lia).
      cbn [refcount data]. f_equal. unfold h1. rewrite !insert_insert_eq.
      now replace (refcount o2 + 1 - 1) with (refcount o2) by lia.
    + assert (L1 : h1 !! op1 = Some o1) by (unfold h1; now rewrite lookup_insert_ne).
      rewrite (bind_step _ _ _ _ _ (load_some _ _ _ L1)). rewrite D1.
      rewrite (bind_step _ _ _ _ _ (set_data_live _ _ _ _ L1)).
      rewrite (obj_decref_alive fuel op2 (mkObject (refcount o2 + 1) (StrData s)))
        by (first [rewrite lookup_insert_ne by congruence; exact L2 | cbn [refcount]; lia]).
      cbn [refcount data]. f_equal. unfold h1.
      replace (refcount o2 + 1 - 1) with (refcount o2) by lia.
      apply map_eq. intros k.
      destruct (decide (k = op2)) as [->|]; [|destruct (decide (k = op1)) as [->|]];
        repeat first [rewrite lookup_insert_eq | rewrite lookup_insert_ne by congruence];
        try reflexivity.
      rewrite H2. f_equal. rewrite <- E2. now destruct o2.
  - apply (New EmptyString); [|reflexivity]. unfold obj_to_strobj.
    rewrite (bind_step _ _ _ _ _ (TYPE_has_type _ _ _ T2)). apply Created.
  - apply (New EmptyString); [|reflexivity]. unfold obj_to_strobj.
    rewrite (bind_step _ _ _ _ _ (TYPE_has_type _ _ _ T2)). apply Created.
  - apply (New EmptyString); [|reflexivity]. unfold obj_to_strobj.
    rewrite (bind_step _ _ _ _ _ (TYPE_has_type _ _ _ T2)). apply Created.
  - apply (New "None"%string); [|reflexivity]. unfold obj_to_strobj.
    rewrite (bind_step _ _ _ _ _ (TYPE_has_type _ _ _ T2)). apply Created.
Qed.

(** obj_to_strobj returns a string object: its operand with the count
    raised, or a new one. *)
Lemma obj_to_strobj_Ok fuel op2 (h : heap) obj h1 :
  obj_to_strobj fuel op2 h = Ok obj h1 ->
  (exists o2 s, h !! op2 = Some o2 /\ data o2 = StrData s /\ obj = op2 /\
                h1 = <[op2 := mkObject (refcount o2 + 1) (StrData s)]> h) \/
  (exists text, obj = fresh (dom h) /\
                h1 = <[fresh (dom h) := mkObject 1 (StrData text)]> h).
Proof.
  unfold obj_to_strobj. intros E. apply bind_Ok in E as (t & h0 & T & E).
  apply TYPE_Ok in T as [(o2 & H2 & T) ->].
  assert (Created : forall text r hr,
             obj_create fuel STR_T (ArgStr text) h = Ok r hr ->
             exists text, r = fresh (dom h) /\
                          hr = <[fresh (dom h) := mkObject 1 (StrData text)]> h).
  { intros text r hr C. unfold obj_create in C.
    rewrite (obj_create_with_scalar _ _ STR_T (ArgStr text) (StrData text) h eq_refl) in C.
    injection C as <- <-. eauto. }
  assert (After : forall {A} (m : M heap A) (k : A -> string),
             reads m ->
             (let* a := m in obj_create fuel STR_T (ArgStr (k a))) h = Ok obj h1 ->
             exists text, obj = fresh (dom h) /\
                          h1 = <[fresh (dom h) := mkObject 1 (StrData text)]> h).
  { intros A m k R C. apply bind_Ok in C as (a & h2 & Ea & C).
    apply (reads_Ok _ _ _ _ R) in Ea as ->. eauto. }
  destruct t; try (right; eauto; fail).
  - right. eapply (After _ _ format_c); [apply reads_obj_as_char|exact E].
  - right. eapply (After _ _ pretty); [apply reads_obj_as_int|exact E].
  - right. eapply (After _ _ format_G16); [apply reads_obj_as_float|exact E].
  - left. destruct (data o2) as [| | |s| | | |] eqn:D2; try discriminate.
    rewrite (bind_step _ _ _ _ _ (obj_incref_live _ _ _ H2)) in E. rewrite D2 in E.
    injection E as <- <-. exists o2, s. split; [exact H2|]. split; [exact D2|].
    split; reflexivity.
Qed.

(** X3: an assignment never changes the type of its target.  When
    obj_assign returns, the target, whose count was not zero, is still
    there and has the type it had, whatever the source was. *)
Theorem obj_assign_keeps_type fuel (h h' : heap) op1 op2 o1 :
  h !! op1 = Some o1 -> refcount o1 <> 0 ->
  obj_assign fuel op1 op2 h = Ok tt h' ->
  exists o1', h' !! op1 = Some o1' /\ type_of (data o1') = type_of (data o1).
Proof.
  intros H1 Hrc E. unfold obj_assign in E.
  assert (T1 : has_type h op1 (type_of (data o1))) by (exists o1; auto).
  rewrite (bind_step _ _ _ _ _ (TYPE_has_type _ _ _ T1)) in E.
  assert (Scalar : forall {A} (m : M heap A) (arg : A -> argument) (d : A -> payload),
             reads m ->
             (forall a, type_of (d a) = type_of (data o1)) ->
             (forall a, type_set (obj_copy fuel) (obj_decref fuel) op1 (arg a) h =
                        set_data op1 (d a) h) ->
             (let* a := m in obj_set fuel op1 (arg a)) h = Ok tt h' ->
             exists o1', h' !! op1 = Some o1' /\ type_of (data o1') = type_of (data o1)).
  { intros A m arg d R Ht Hs C. apply bind_Ok in C as (a & h2 & Ea & C).
    apply (reads_Ok _ _ _ _ R) in Ea as ->. unfold obj_set in C. rewrite Hs in C.
    apply set_data_Ok in C as (o & _ & ->). eexists. split; [apply lookup_insert_eq|].
    apply Ht. }
  destruct (data o1) as [c|i|f|s|old|old|pos|] eqn:D1; cbn [type_of] in E; try discriminate.
  - apply (Scalar _ _ ArgChar CharData (reads_obj_as_char op2)); auto.
    intros a. unfold type_set. rewrite (bind_step _ _ _ _ _ (load_some _ _ _ H1)).
    now rewrite D1.
  - apply (Scalar _ _ ArgInt IntData (reads_obj_as_int op2)); auto.
    intros a. unfold type_set. rewrite (bind_step _ _ _ _ _ (load_some _ _ _ H1)).
    now rewrite D1.
  - apply (Scalar _ _ ArgFloat FloatData (reads_obj_as_float op2)); auto.
    intros a. unfold type_set. rewrite (bind_step _ _ _ _ _ (load_some _ _ _ H1)).
    now rewrite D1.
  - (* a string target *)
    apply bind_Ok in E as (obj & h1 & S1 & E).
    apply bind_Ok in E as (text & h1' & S2 & E).
    apply (reads_Ok _ _ _ _ (reads_obj_as_str obj)) in S2 as ->.
    apply bind_Ok in E as ([] & h2 & S3 & E).
    unfold obj_set, type_set in S3. apply bind_Ok in S3 as (o & h1' & L & S3).
    apply load_Ok in L as [L ->].
    apply obj_to_strobj_Ok in S1 as [(o2 & s2 & H2 & D2 & -> & ->)|(s2 & -> & ->)].
    + destruct (decide (op1 = op2)) as [->|Ne].
      * rewrite lookup_insert_eq in L. injection L as <-. cbn [data] in S3.
        apply set_data_Ok in S3 as (o & L & ->). rewrite lookup_insert_eq in L.
        injection L as <-. cbn [refcount] in E.
        assert (o1 = o2) as -> by congruence.
        destruct (obj_decref_string fuel op2 (mkObject (refcount o2 + 1) (StrData text)) text
                    _ _ (lookup_insert_eq _ _ _) eq_refl E)
          as [[-> _]|[_ Z]]; [|cbn [refcount] in Z; lia].
        eexists. split; [apply lookup_insert_eq|reflexivity].
      * rewrite lookup_insert_ne in L by congruence. assert (o = o1) as -> by congruence.
        rewrite D1 in S3. apply set_data_Ok in S3 as (o & L' & ->).
        assert (L2 : <[op1 := mkObject (refcount o) (StrData text)]>
                       (<[op2 := mkObject (refcount o2 + 1) (StrData s2)]> h) !! op2 =
                     Some (mkObject (refcount o2 + 1) (StrData s2))).
        { rewrite lookup_insert_ne by congruence. apply lookup_insert_eq. }
        destruct (obj_decref_string _ _ (mkObject _ (StrData s2)) s2 _ _ L2 eq_refl E)
          as [[-> _]|[-> _]].
        -- eexists. rewrite lookup_insert_ne by congruence.
           split; [apply lookup_insert_eq|reflexivity].
        -- eexists. rewrite lookup_delete_ne by congruence.
           split; [apply lookup_insert_eq|reflexivity].
    + assert (Np : op1 <> fresh (dom h)).
      { intros Eq. rewrite Eq in H1. rewrite fresh_not_live in H1. discriminate. }
      rewrite lookup_insert_ne in L by congruence. assert (o = o1) as -> by congruence.
      rewrite D1 in S3. apply set_data_Ok in S3 as (o & L' & ->).
      assert (L2 : <[op1 := mkObject (refcount o) (StrData text)]>
                     (<[fresh (dom h) := mkObject 1 (StrData s2)]> h) !! fresh (dom h) =
                   Some (mkObject 1 (StrData s2))).
      { rewrite lookup_insert_ne by congruence. apply lookup_insert_eq. }
      destruct (obj_decref_string _ _ (mkObject _ (StrData s2)) s2 _ _ L2 eq_refl E)
          as [[-> _]|[-> _]].
      * eexists. rewrite lookup_insert_ne by congruence.
        split; [apply lookup_insert_eq|reflexivity].
      * eexists. rewrite lookup_delete_ne by congruence.
        split; [apply lookup_insert_eq|reflexivity].
  - (* a list target *)
    apply bind_Ok in E as (l & h1 & S1 & E).
    apply (reads_Ok _ _ _ _ (reads_obj_as_list op2)) in S1 as ->.
    unfold obj_set, type_set in E.
    rewrite (bind_step _ _ _ _ _ (load_some _ _ _ H1)) in E. rewrite D1 in E.
    apply bind_Ok in E as (src & h1 & L & E). apply load_Ok in L as [L ->].
    destruct (data src); try discriminate.
    apply bind_Ok in E as (new & h2 & _ & E).
    apply bind_Ok in E as ([] & h3 & _ & E).
    apply set_data_Ok in E as (o & _ & ->).
    eexists. split; [apply lookup_insert_eq|reflexivity].
  - (* a list node *)
    apply bind_Ok in E as (c & h1 & C & E).
    pose proof (obj_copy_extends fuel op2 h) as X. rewrite C in X.
    pose proof (lookup_weaken _ _ _ _ H1 X) as H1'.
    unfold obj_set, type_set in E.
    rewrite (bind_step _ _ _ _ _ (load_some _ _ _ H1')) in E. rewrite D1 in E.
    apply bind_Ok in E as ([] & h3 & _ & E).
    apply set_data_Ok in E as (o' & _ & ->).
    eexists. split; [apply lookup_insert_eq|]. reflexivity.
Qed.

(** obj_create of a list: the result is the new list object, its count 1. *)
Lemma obj_create_with_list_Ok copy decref src (h : heap) c h' :
  (forall x, extends (copy x)) ->
  obj_create_with copy decref LIST_T (ArgList src) h = Ok c h' ->
  c = fresh (dom h) /\ exists new, h' !! c = Some (mkObject 1 (ListData new)).
Proof.
  intros Hcopy E. unfold obj_create_with in E.
  rewrite (bind_step _ _ _ _ _ (obj_alloc_new LIST_T h ltac:(discriminate))) in E.
  set (l := fresh (dom h)) in *. set (h1 := <[l := _]> h) in *.
  assert (L : h1 !! l = Some (mkObject 1 (ListData []))) by apply lookup_insert_eq.
  apply bind_Ok in E as ([] & h2 & E & R). injection R as <- <-.
  split; [reflexivity|].
  unfold type_set in E. rewrite (bind_step _ _ _ _ _ (load_some _ _ _ L)) in E.
  cbn [data] in E. apply bind_Ok in E as (s & h1' & Ls & E).
  apply load_Ok in Ls as [Ls ->].
  destruct (data s) as [| | | |nodes| | |]; try discriminate.
  apply bind_Ok in E as (new & h3 & T & E).
  pose proof (extends_traverse
                (fun node => let* x := obj_from_listnode node in
                             let* c := copy x in listnode_new c) nodes) as X.
  specialize (X ltac:(intros node; apply extends_bind;
                      [apply reads_extends, reads_obj_from_listnode|];
                      intros x; apply extends_bind; [apply Hcopy|];
                      intros c; apply extends_listnode_new) h1).
  rewrite T in X. cbn [for_each] in E.
  rewrite (bind_step (ret tt) _ h3 tt h3 eq_refl) in E.
  apply set_data_Ok in E as (o & Lo & ->).
  rewrite (lookup_weaken _ _ _ _ L X) in Lo. injection Lo as <-.
  exists new. apply lookup_insert_eq.
Qed.

(** X4: obj_copy makes a new object.  When it returns, the result was
    not in the heap before and has count 1, every object that was there
    is unchanged, and the copy is a number, a string or a list, of the type
    of the original (of the object owned, when the original is a list
    node).  none and position objects cannot be copied: TypeError. *)
Theorem obj_copy_new_object fuel op1 (h : heap) :
  (forall c h',
     obj_copy fuel op1 h = Ok c h' ->
     h ⊆ h' /\ h !! c = None /\
     exists d, h' !! c = Some (mkObject 1 d) /\
               number_type (type_of d) || sequence_type (type_of d) = true /\
               (forall t, has_type h op1 t -> t <> LISTNODE_T -> type_of d = t)) /\
  (forall t, has_type h op1 t -> t = NONE_T \/ t = POSITION_T ->
             obj_copy (S fuel) op1 h = Abort (Raise TypeError)).
Proof.
  split.
  2:{ intros t T Ht. cbn [obj_copy]. rewrite (bind_step _ _ _ _ _ (TYPE_has_type _ _ _ T)).
      now destruct Ht as [-> | ->]. }
  intros c h' E. split.
  { pose proof (obj_copy_extends fuel op1 h) as X. now rewrite E in X. }
  revert op1 E. induction fuel as [|n IH]; intros op1 E; [discriminate|].
  cbn [obj_copy] in E. apply bind_Ok in E as (t0 & h0 & T & E).
  apply TYPE_Ok in T as [T ->].
  assert (Scalar : forall {A} (m : M heap A) (arg : A -> argument) (d : A -> payload),
             reads m ->
             (forall a, type_of (d a) = t0) ->
             number_type t0 || sequence_type t0 = true ->
             (forall a, match t0, arg a with
                        | CHAR_T, ArgChar c => d a = CharData c
                        | INT_T, ArgInt i => d a = IntData i
                        | FLOAT_T, ArgFloat f => d a = FloatData f
                        | STR_T, ArgStr s => d a = StrData s
                        | _, _ => False
                        end) ->
             (let* a := m in
              obj_create_with (obj_copy n) (obj_decref n) t0 (arg a)) h = Ok c h' ->
             h !! c = None /\
             exists d, h' !! c = Some (mkObject 1 d) /\
                       number_type (type_of d) || sequence_type (type_of d) = true /\
                       (forall t, has_type h op1 t -> t <> LISTNODE_T -> type_of d = t)).
  { intros A m arg d R Ht Hk Hd C. apply bind_Ok in C as (a & h2 & Ea & C).
    apply (reads_Ok _ _ _ _ R) in Ea as ->.
    rewrite (obj_create_with_scalar _ _ t0 (arg a) (d a) h (Hd a)) in C.
    injection C as <- <-. split; [apply fresh_not_live|].
    exists (d a). split; [apply lookup_insert_eq|]. rewrite Ht. split; [exact Hk|].
    intros t Ht' _. exact (has_type_fun _ _ _ _ T Ht'). }
  destruct t0; try discriminate.
  - now apply (Scalar _ _ ArgChar CharData (reads_obj_as_char op1)).
  - now apply (Scalar _ _ ArgInt IntData (reads_obj_as_int op1)).
  - now apply (Scalar _ _ ArgFloat FloatData (reads_obj_as_float op1)).
  - now apply (Scalar _ _ ArgStr StrData (reads_obj_as_str op1)).
  - apply bind_Ok in E as (l & h1 & L & E).
    apply (reads_Ok _ _ _ _ (reads_obj_as_list op1)) in L as ->.
    apply obj_create_with_list_Ok in E as [-> (new & Hc)]; [|apply obj_copy_extends].
    split; [apply fresh_not_live|]. exists (ListData new). split; [exact Hc|].
    split; [reflexivity|]. intros t Ht' _. exact (has_type_fun _ _ _ _ T Ht').
  - apply bind_Ok in E as (x & h1 & L & E).
    apply (reads_Ok _ _ _ _ (reads_obj_from_listnode op1)) in L as ->.
    destruct (IH x E) as (N & d & Hd & Hk & _). split; [exact N|].
    exists d. split; [exact Hd|]. split; [exact Hk|].
    intros t Ht' Hn. elim Hn. exact (has_type_fun _ _ _ _ Ht' T).
Qed.

(** ** Input *)

Lemma strip_newline_spec line :
  one_line (strip_newline line) = true /\
  exists rest, line = String.append (strip_newline line) rest /\
               (rest = EmptyString \/ line_end (peek rest) = true).
Proof.
  induction line as [|c line [IH1 (rest & IH2 & IH3)]]; cbn [strip_newline].
  - split; [reflexivity|]. exists EmptyString. split; [reflexivity|now left].
  - fold (line_end c). destruct (line_end c) eqn:E.
    + split; [reflexivity|]. exists (String c line). split; [reflexivity|]. right. exact E.
    + cbn [one_line]. rewrite E, IH1. split; [reflexivity|].
      exists rest. split; [|exact IH3].
      change (String c line = String c (String.append (strip_newline line) rest)).
      f_equal. exact IH2.
Qed.


End AssignMore.

(** * Further properties of the statement interpreter *)

(** ** Skipping blocks and definitions *)

Lemma expect_other s t : token (shared s) <> t -> expect t s = Abort (Raise SyntaxError).
Proof. intros Hn. unfold expect. now rewrite (bind_step _ _ _ _ _ (accept_other s t Hn)). Qed.

Lemma tokens_left_upcoming sh : tokens_left sh = S (length (upcoming sh)).
Proof. unfold tokens_left, upcoming. now rewrite length_drop. Qed.

(** Past the last token the loop meets the ENDMARKER and stops. *)
Lemma skip_to_dedent_end fuel level sh :
  upcoming sh = [] ->
  skip_to_dedent (S fuel) level sh = Ok tt (set_cursor (offset sh) ENDMARKER EmptyString sh).
Proof.
  intros E. cbn [skip_to_dedent]. rewrite (bind_step _ _ _ _ _ (scanner_next_nil sh E)).
  rewrite (bind_step get _ _ _ _ eq_refl). cbn [token set_cursor].
  rewrite !token_eqb_neq by discriminate. rewrite token_eqb_refl.
  now rewrite andb_false_r.
Qed.

(** X10: skip_block.  At a token that is no NEWLINE, and at a NEWLINE
    that no INDENT follows, it stops with SyntaxError.  At the NEWLINE
    before a block it moves the cursor past the DEDENT that closes the
    block, nested blocks included, and changes nothing else.  A block that
    the source does not close is skipped to the end of the source, without
    an error: the cursor is at the ENDMARKER. *)
Theorem skip_block_outcome s :
  (token (shared s) <> NEWLINE -> skip_block s = Abort (Raise SyntaxError)) /\
  (forall n t x rest,
     at_tokens (shared s) ((NEWLINE, n) :: (t, x) :: rest) -> t <> INDENT ->
     skip_block s = Abort (Raise SyntaxError)) /\
  (forall n i body d rest,
     at_tokens (shared s) (block_tokens n i body d ++ rest) -> block_body body ->
     exists o u y,
       skip_block s = Ok tt (set_shared (set_cursor o u y (shared s)) s) /\
       at_tokens (set_cursor o u y (shared s)) rest) /\
  (forall n i body,
     at_tokens (shared s) ((NEWLINE, n) :: (INDENT, i) :: body) -> block_body body ->
     exists o,
       skip_block s = Ok tt (set_shared (set_cursor o ENDMARKER EmptyString (shared s)) s) /\
       at_tokens (set_cursor o ENDMARKER EmptyString (shared s)) []).
Proof.
  split; [|split; [|split]].
  - intros Hn. unfold skip_block. now rewrite (bind_abort _ _ _ _ (expect_other s _ Hn)).
  - intros n t x rest Ha Hn.
    destruct (expect_at _ _ _ _ Ha) as (o1 & u1 & y1 & X1 & Ha1).
    unfold skip_block. rewrite (bind_step _ _ _ _ _ X1).
    apply bind_abort. apply expect_other. destruct Ha1 as (Ht & _). cbn in *. congruence.
  - apply skip_block_spec.
  - intros n i body Ha Hbody.
    destruct body as [|[b1 x1] body]; [contradiction|]. destruct Hbody as [_ Hbody].
    destruct (expect_at _ _ _ _ Ha) as (o1 & u1 & y1 & X1 & Ha1).
    set (s1 := set_shared _ s) in X1.
    destruct (expect_at s1 _ _ _ Ha1) as (o2 & u2 & y2 & X2 & Ha2).
    set (s2 := set_shared _ s1) in X2.
    destruct Ha2 as (_ & _ & E2).
    change (upcoming (shared s2) = body) in E2.
    destruct (skip_balanced _ Hbody 1 1 (shared s2) [] ltac:(now rewrite app_nil_r)
                ltac:(lia)) as (o3 & u3 & y3 & S3 & E3).
    assert (F : tokens_left (shared s2) = (length body + 1)%nat)
      by (rewrite tokens_left_upcoming, E2; lia).
    set (sh3 := set_cursor o3 u3 y3 (shared s2)) in *.
    assert (X3 : skip_rest_of_block s2 =
                 Ok tt (set_shared (set_cursor (offset sh3) ENDMARKER EmptyString sh3) s2)).
    { unfold skip_rest_of_block, in_shared, bind, get.
      rewrite F, S3. now rewrite (skip_to_dedent_end 0 1 sh3 E3). }
    exists (offset sh3). split; [|now split].
    unfold skip_block.
    rewrite (bind_step _ _ _ _ _ X1), (bind_step _ _ _ _ _ X2), (bind_step _ _ _ _ _ X3).
    unfold in_shared. cbn [shared set_shared].
    rewrite (scanner_next_nil (set_cursor (offset sh3) ENDMARKER EmptyString sh3) E3).
    reflexivity.
Qed.

Lemma skip_line_spec l :
  same_line l ->
  forall fuel sh n rest,
    at_tokens sh (l ++ (NEWLINE, n) :: rest) ->
    exists o u y,
      skip_line (length l + S fuel) sh = Ok tt (set_cursor o u y sh) /\
      at_tokens (set_cursor o u y sh) ((NEWLINE, n) :: rest).
Proof.
  induction 1 as [|[u y] l [Hu1 Hu2] Hl IH]; intros fuel sh n rest Ha.
  - cbn [app] in Ha. cbn [length Nat.add skip_line].
    rewrite (bind_step get _ _ _ _ eq_refl). destruct Ha as (Et & Ex & Eu). rewrite Et.
    rewrite token_eqb_refl. cbn [negb andb].
    exists (offset sh), (token sh), (lexeme sh). rewrite set_cursor_self.
    split; [reflexivity|]. now split.
  - cbn [app] in Ha. cbn [length Nat.add skip_line].
    rewrite (bind_step get _ _ _ _ eq_refl).
    destruct (scanner_next_at _ _ _ _ Ha) as (o1 & u1 & y1 & N & Ha1).
    destruct Ha as (Et & Ex & Eu). rewrite Et. cbn [fst] in Hu1, Hu2.
    rewrite !token_eqb_neq by assumption. cbn [negb andb].
    rewrite (bind_step _ _ _ _ _ N).
    destruct (IH fuel _ n rest Ha1) as (o & u' & y' & R & Ha').
    rewrite R. exists o, u', y'. split; [reflexivity|exact Ha'].
Qed.

(** skip_function over the tokens of a definition. *)
Lemma skip_function_spec s f l params n i body d rest :
  at_tokens (shared s)
    ((IDENTIFIER, f) :: (LPAR, l) :: params ++ block_tokens n i body d ++ rest) ->
  same_line params -> block_body body ->
  exists o u y,
    skip_function s = Ok tt (set_shared (set_cursor o u y (shared s)) s) /\
    at_tokens (set_cursor o u y (shared s)) rest.
Proof.
  intros Ha Hp Hb.
  destruct (expect_at _ _ _ _ Ha) as (o1 & u1 & y1 & X1 & Ha1).
  set (s1 := set_shared _ s) in X1.
  destruct (expect_at s1 _ _ _ Ha1) as (o2 & u2 & y2 & X2 & Ha2).
  set (s2 := set_shared _ s1) in X2.
  unfold skip_function.
  rewrite (bind_step _ _ _ _ _ X1), (bind_step _ _ _ _ _ X2).
  change (at_tokens (shared s2)
            (params ++ (NEWLINE, n) :: (INDENT, i) :: (body ++ [(DEDENT, d)]) ++ rest))
    in Ha2.
  assert (F : exists k, tokens_left (shared s2) = (length params + S k)%nat).
  { rewrite tokens_left_upcoming. destruct params as [|[t x] params].
    - now exists (length (upcoming (shared s2))).
    - destruct Ha2 as (_ & _ & ->). rewrite length_app. cbn [length].
      eexists. cbn [length Nat.add]. reflexivity. }
  destruct F as [k F].
  destruct (skip_line_spec _ Hp k _ n _ Ha2) as (o3 & u3 & y3 & X3 & Ha3).
  rewrite <- F in X3.
  assert (X3' : in_shared (let* sh := get in skip_line (tokens_left sh)) s2 =
                Ok tt (set_shared (set_cursor o3 u3 y3 (shared s)) s)).
  { unfold in_shared. rewrite (bind_step get _ _ _ _ eq_refl). now rewrite X3. }
  rewrite (bind_step _ _ _ _ _ X3').
  destruct (skip_block_spec (set_shared (set_cursor o3 u3 y3 (shared s)) s) n i body d rest)
    as (o4 & u4 & y4 & X4 & Ha4).
  - exact Ha3.
  - exact Hb.
  - exists o4, u4, y4. split; [exact X4|exact Ha4].
Qed.

(** X11: skip_function.  At a token that is no IDENTIFIER, and at an
    IDENTIFIER that no LPAR follows, it stops with SyntaxError.  At the
    name of a function after [def] it moves the cursor past the DEDENT that
    closes the body of the function and changes nothing else: the tokens of
    the parameter line after the LPAR are passed over up to the NEWLINE
    whatever they are, and no statement of the body is executed. *)
Theorem skip_function_skips_definition s :
  (token (shared s) <> IDENTIFIER -> skip_function s = Abort (Raise SyntaxError)) /\
  (forall f t x rest,
     at_tokens (shared s) ((IDENTIFIER, f) :: (t, x) :: rest) -> t <> LPAR ->
     skip_function s = Abort (Raise SyntaxError)) /\
  (forall f l params n i body d rest,
     at_tokens (shared s)
       ((IDENTIFIER, f) :: (LPAR, l) :: params ++ block_tokens n i body d ++ rest) ->
     same_line params -> block_body body ->
     exists o u y,
       skip_function s = Ok tt (set_shared (set_cursor o u y (shared s)) s) /\
       at_tokens (set_cursor o u y (shared s)) rest).
Proof.
  split; [|split].
  - intros Hn. unfold skip_function.
    now rewrite (bind_abort _ _ _ _ (expect_other s _ Hn)).
  - intros f t x rest Ha Hn.
    destruct (expect_at _ _ _ _ Ha) as (o1 & u1 & y1 & X1 & Ha1).
    unfold skip_function. rewrite (bind_step _ _ _ _ _ X1).
    apply bind_abort. apply expect_other. destruct Ha1 as (Ht & _). cbn in *. congruence.
  - apply skip_function_spec.
Qed.

Lemma scanner_next_Ok sh : exists o u y, scanner_next sh = Ok tt (set_cursor o u y sh).
Proof.
  unfold scanner_next, modify. destruct (source sh !! offset sh) as [[t x]|]; eauto.
Qed.

(** The loop that skips to the end of a block stops at a DEDENT or at the
    ENDMARKER. *)
Lemma skip_to_dedent_stops fuel :
  forall level sh sh',
    0 < level -> skip_to_dedent fuel level sh = Ok tt sh' ->
    (token sh' = DEDENT \/ token sh' = ENDMARKER) /\
    exists o u y, sh' = set_cursor o u y sh.
Proof.
  induction fuel as [|fuel IH]; intros level sh sh' Hl E; [discriminate|].
  cbn [skip_to_dedent] in E.
  destruct (scanner_next_Ok sh) as (o & u & y & N).
  rewrite (bind_step _ _ _ _ _ N) in E. rewrite (bind_step get _ _ _ _ eq_refl) in E.
  cbn [token set_cursor] in E. cbv zeta in E.
  destruct (decide (u = INDENT)) as [->|Hi].
  - rewrite token_eqb_refl, !token_eqb_neq in E by discriminate.
    replace (level + 1 =? 0) with false in E by (symmetry; apply Z.eqb_neq; lia).
    cbn [negb andb] in E.
    destruct (IH (level + 1) _ _ ltac:(lia) E) as (Ht & o' & u' & y' & ->). split; [exact Ht|].
    now exists o', u', y'.
  - rewrite (token_eqb_neq u INDENT) in E by assumption.
    destruct (decide (u = DEDENT)) as [->|Hd].
    + rewrite token_eqb_refl, !token_eqb_neq in E by discriminate.
      destruct (level - 1 =? 0) eqn:Z; cbn [negb andb] in E.
      * injection E as <-. split; [now left|]. now exists o, DEDENT, y.
      * apply Z.eqb_neq in Z.
        destruct (IH (level - 1) _ _ ltac:(lia) E) as (Ht & o' & u' & y' & ->). split; [exact Ht|].
        now exists o', u', y'.
    + rewrite (token_eqb_neq u DEDENT) in E by assumption.
      replace (level =? 0) with false in E by (symmetry; apply Z.eqb_neq; lia).
      cbn [negb andb] in E.
      destruct (decide (u = ENDMARKER)) as [->|He].
      * rewrite token_eqb_refl in E. cbn [negb] in E.
        injection E as <-. split; [now right|]. now exists o, ENDMARKER, y.
      * rewrite token_eqb_neq in E by assumption. cbn [negb] in E.
        destruct (IH _ _ _ Hl E) as (Ht & o' & u' & y' & ->). split; [exact Ht|].
        now exists o', u', y'.
Qed.

(** ** Blocks *)

Section BlockFacts.
Context `{Libc} `{NumberType} `{StrType} `{ListType} `{Evaluator} `{Collaborators}.
Variable fuel : nat.
Variable statement : M State unit.
Variable function_call : ptr -> M State (option ptr).

Lemma skip_rest_of_block_Ok s s' :
  skip_rest_of_block s = Ok tt s' ->
  (token (shared s') = DEDENT \/ token (shared s') = ENDMARKER) /\
  exists o u y, s' = set_shared (set_cursor o u y (shared s)) s.
Proof.
  unfold skip_rest_of_block, in_shared. intros E.
  rewrite (bind_step get _ _ _ _ eq_refl) in E.
  destruct (skip_to_dedent _ 1 (shared s)) as [[] sh'| |] eqn:K; try discriminate.
  injection E as <-.
  destruct (skip_to_dedent_stops _ 1 _ _ ltac:(lia) K) as (Ht & o & u & y & ->).
  split; [exact Ht|]. now exists o, u, y.
Qed.

(** X12: when block returns, the current token is a DEDENT or the
    ENDMARKER, whatever the statements of the block did. *)
Theorem block_ends_at_dedent s s' :
  block fuel statement s = Ok tt s' ->
  token (shared s') = DEDENT \/ token (shared s') = ENDMARKER.
Proof.
  unfold block. intros E.
  apply bind_Ok in E as ([] & s1 & _ & E). apply bind_Ok in E as ([] & s2 & _ & E).
  clear s s1. revert s2 E. generalize fuel. intros n.
  induction n as [|n IH]; intros s E; [discriminate|].
  cbn [block_loop] in E. apply bind_Ok in E as ([] & s1 & _ & E).
  rewrite (bind_step get _ _ _ _ eq_refl) in E.
  destruct (token_eqb (token (shared s1)) DEDENT) eqn:Td.
  { injection E as <-. left. now apply bool_decide_eq_true in Td. }
  destruct (token_eqb (token (shared s1)) ENDMARKER) eqn:Te.
  { injection E as <-. right. now apply bool_decide_eq_true in Te. }
  cbn [orb] in E. destruct (do_break s1 || do_continue s1).
  - now apply skip_rest_of_block_Ok in E as [Ht _].
  - now apply IH in E.
Qed.

(** X13: a break or a continue ends the block.  When a statement of a
    block returns with do_break or do_continue set, and not at the DEDENT
    of the block, the rest of the block is skipped: the cursor goes to the
    DEDENT that closes the block, over nested blocks, and nothing else
    changes, so that no statement of the rest is executed. *)
Theorem block_skips_after_break n s s1 t x l d rest :
  statement s = Ok tt s1 ->
  do_break s1 || do_continue s1 = true ->
  at_tokens (shared s1) ((t, x) :: l ++ (DEDENT, d) :: rest) ->
  t <> DEDENT -> t <> ENDMARKER -> balanced l ->
  exists o,
    block_loop statement (S n) s = Ok tt (set_shared (set_cursor o DEDENT d (shared s1)) s1) /\
    at_tokens (set_cursor o DEDENT d (shared s1)) ((DEDENT, d) :: rest).
Proof.
  intros E Hf Ha Hd He Hl. cbn [block_loop]. rewrite (bind_step _ _ _ _ _ E).
  rewrite (bind_step get _ _ _ _ eq_refl). destruct Ha as (Et & Ex & Eu).
  rewrite Et, !token_eqb_neq by assumption. cbn [orb]. rewrite Hf.
  destruct (skip_balanced _ Hl (2 + length rest) 1 (shared s1) ((DEDENT, d) :: rest)
              Eu ltac:(lia)) as (o3 & u3 & y3 & S3 & E3).
  assert (F : tokens_left (shared s1) = (length l + (2 + length rest))%nat).
  { rewrite tokens_left_upcoming, Eu, length_app. cbn. lia. }
  destruct (scanner_next_cons _ _ _ _ E3) as [N4 E4].
  exists (S (offset (set_cursor o3 u3 y3 (shared s1)))).
  split; [|now repeat split].
  unfold skip_rest_of_block, in_shared, bind, get.
  rewrite F, S3. cbn [Nat.add]. rewrite (skip_to_dedent_step _ _ _ _ _ _ E3).
  cbv zeta. rewrite token_eqb_refl, token_eqb_neq by discriminate. reflexivity.
Qed.

Lemma no_else_token sh l : at_tokens sh l -> no_else l -> token sh <> ELSE.
Proof.
  destruct l as [|[t x] l]; cbn.
  - intros (-> & _) _. discriminate.
  - intros (-> & _) Hn. exact Hn.
Qed.

(** X14: an if statement executes one branch.  When the condition is
    false, the block below it is skipped without a change but of the
    cursor, and the statement ends there if no [else] follows, or goes on
    with the block after the [else]; when it is true, and the block has
    ended at its DEDENT, the statement ends after the DEDENT if no [else]
    follows, and else skips the block after the [else], again without a
    change but of the cursor. *)
Theorem if_stmnt_runs_one_branch s c sc :
  condition fuel function_call s = Ok c sc ->
  (c = false ->
   forall n i body d rest,
     at_tokens (shared sc) (block_tokens n i body d ++ rest) -> block_body body ->
     exists o u y,
       at_tokens (set_cursor o u y (shared sc)) rest /\
       (no_else rest ->
        if_stmnt fuel statement function_call s =
        Ok tt (set_shared (set_cursor o u y (shared sc)) sc)) /\
       (forall e rest', rest = (ELSE, e) :: rest' ->
        exists o' u' y',
          at_tokens (set_cursor o' u' y' (shared sc)) rest' /\
          if_stmnt fuel statement function_call s =
          (block fuel statement ;; expect DEDENT)
            (set_shared (set_cursor o' u' y' (shared sc)) sc))) /\
  (c = true ->
   forall s1 d rest,
     block fuel statement sc = Ok tt s1 ->
     at_tokens (shared s1) ((DEDENT, d) :: rest) ->
     (no_else rest ->
      exists o u y,
        at_tokens (set_cursor o u y (shared s1)) rest /\
        if_stmnt fuel statement function_call s =
        Ok tt (set_shared (set_cursor o u y (shared s1)) s1)) /\
     (forall e n i body d' rest',
        rest = (ELSE, e) :: block_tokens n i body d' ++ rest' -> block_body body ->
        exists o u y,
          at_tokens (set_cursor o u y (shared s1)) rest' /\
          if_stmnt fuel statement function_call s =
          Ok tt (set_shared (set_cursor o u y (shared s1)) s1))).
Proof.
  intros Ec. unfold if_stmnt. rewrite (bind_step _ _ _ _ _ Ec). split; intros ->.
  - intros n i body d rest Ha Hb.
    destruct (skip_block_spec sc n i body d rest Ha Hb) as (o & u & y & X & Ha1).
    exists o, u, y. split; [exact Ha1|]. rewrite (bind_step _ _ _ _ _ X). split.
    + intros Hn.
      rewrite (bind_step _ _ _ _ _
                 (accept_other (set_shared (set_cursor o u y (shared sc)) sc) ELSE
                               (no_else_token _ _ Ha1 Hn))).
      reflexivity.
    + intros e rest' ->.
      destruct (accept_at (set_shared (set_cursor o u y (shared sc)) sc) _ _ _ Ha1)
        as (o' & u' & y' & A & Ha2).
      exists o', u', y'. split; [exact Ha2|]. now rewrite (bind_step _ _ _ _ _ A).
  - intros s1 d rest Eb Ha. rewrite (bind_step _ _ _ _ _ Eb).
    destruct (expect_at _ _ _ _ Ha) as (o & u & y & X & Ha1).
    rewrite (bind_step _ _ _ _ _ X). split.
    + intros Hn. exists o, u, y. split; [exact Ha1|].
      rewrite (bind_step _ _ _ _ _
                 (accept_other (set_shared (set_cursor o u y (shared s1)) s1) ELSE
                               (no_else_token _ _ Ha1 Hn))).
      reflexivity.
    + intros e n i body d' rest' -> Hb.
      destruct (accept_at (set_shared (set_cursor o u y (shared s1)) s1) _ _ _ Ha1)
        as (o' & u' & y' & A & Ha2).
      rewrite (bind_step _ _ _ _ _ A). cbn [when].
      destruct (skip_block_spec (set_shared (set_cursor o' u' y' (shared s1)) s1)
                  n i body d' rest' Ha2 Hb) as (o2 & u2 & y2 & X2 & Ha3).
      exists o2, u2, y2. split; [exact Ha3|]. exact X2.
Qed.

(** X9: what a condition accepts.  The value of the comma-expression,
    after it left its list node, must be a number: a char is true unless it
    is NUL, an int unless it is 0, a float unless it equals 0.0, and the
    object is released; a string, a list, none or a position stops with
    ValueError, a string that holds a number included.  A
    comma-expression without a result (the NULL pointer) is undefined
    behaviour. *)
Theorem condition_takes_numbers_only s :
  (forall s1, run_comma_expr function_call s = Ok None s1 ->
     condition fuel function_call s = Abort Fault) /\
  (forall x s1 a o,
     run_comma_expr function_call s = Ok (Some x) s1 ->
     deref_listnode x (objects (shared s1)) = Ok a (objects (shared s1)) ->
     objects (shared s1) !! a = Some o ->
     (forall c, data o = CharData c ->
        condition fuel function_call s =
        (decref fuel (Some x) ;; ret (negb (is_nul c))) s1) /\
     (forall i, data o = IntData i ->
        condition fuel function_call s =
        (decref fuel (Some x) ;; ret (negb (i =? 0))) s1) /\
     (forall f, data o = FloatData f ->
        condition fuel function_call s =
        (decref fuel (Some x) ;; ret (float_to_bool f)) s1) /\
     (number_type (type_of (data o)) = false ->
        condition fuel function_call s = Abort (Raise ValueError))).
Proof.
  unfold condition. split.
  - intros s1 E. now rewrite (bind_step _ _ _ _ _ E).
  - intros x s1 a o E D L. rewrite (bind_step _ _ _ _ _ E). cbn [nonnull].
    rewrite (bind_step (ret x) _ _ _ _ eq_refl).
    assert (Da : deref_listnode a (objects (shared s1)) = Ok a (objects (shared s1)) \/
                 exists y, data o = ListNodeData y).
    { destruct (decide (type_of (data o) = LISTNODE_T)) as [T|T].
      - right. destruct (data o); try discriminate. eauto.
      - left. now apply (deref_not_listnode _ a o). }
    assert (B : obj_as_bool x (objects (shared s1)) =
                match data o with
                | CharData c => Ok (negb (is_nul c)) (objects (shared s1))
                | IntData i => Ok (negb (i =? 0)) (objects (shared s1))
                | FloatData f => Ok (float_to_bool f) (objects (shared s1))
                | _ => Abort (Raise ValueError)
                end).
    { unfold obj_as_bool. rewrite (bind_step _ _ _ _ _ D).
      rewrite (bind_step _ _ _ _ _ (load_some _ _ _ L)).
      destruct (data o) as [c|i|f| | | | |] eqn:Ed; try reflexivity;
        (destruct Da as [Da|[y Ey]]; [|discriminate]).
      - unfold obj_as_char. rewrite bind_bind, (bind_step _ _ _ _ _ Da).
        rewrite bind_bind, (bind_step _ _ _ _ _ (load_some _ _ _ L)). now rewrite Ed.
      - unfold obj_as_int. rewrite bind_bind, (bind_step _ _ _ _ _ Da).
        rewrite bind_bind, (bind_step _ _ _ _ _ (load_some _ _ _ L)). now rewrite Ed.
      - unfold obj_as_float. rewrite bind_bind, (bind_step _ _ _ _ _ Da).
        rewrite bind_bind, (bind_step _ _ _ _ _ (load_some _ _ _ L)). now rewrite Ed. }
    assert (Same : set_shared (set_objects (objects (shared s1)) (shared s1)) s1 = s1)
      by (destruct s1 as [[] ? ? ?]; reflexivity).
    assert (K : (let* result := in_shared (in_heap (obj_as_bool x)) in
                 decref fuel (Some x) ;; ret result) s1 =
                match data o with
                | CharData c => (decref fuel (Some x) ;; ret (negb (is_nul c))) s1
                | IntData i => (decref fuel (Some x) ;; ret (negb (i =? 0))) s1
                | FloatData f => (decref fuel (Some x) ;; ret (float_to_bool f)) s1
                | _ => Abort (Raise ValueError)
                end).
    { unfold in_shared at 1, in_heap at 1. unfold bind at 1. rewrite B.
      destruct (data o); rewrite ?Same; reflexivity. }
    rewrite K. split; [|split; [|split]].
    + now intros c ->.
    + now intros i ->.
    + now intros f ->.
    + intros Hn. destruct (data o); try discriminate; reflexivity.
Qed.

End BlockFacts.

(** ** The return slot *)

Section ReturnMore.
Context `{Libc} `{NumberType} `{StrType} `{ListType} `{Evaluator} `{Collaborators}.

(** X15: a return statement never leaves the call it is executed in.
    Entered with the return slot empty, function_call does not leave by the
    longjmp of a return statement, and the slot is empty again when it
    returns; a statement that returns leaves the slot empty, and a
    statement that is left by a jump is left by the longjmp of a return
    statement.  The modules that reader.import reads are taken to behave
    like statements. *)
Theorem return_never_escapes_a_call :
  (forall path, quiet (reader_import path)) ->
  forall n s,
    return_value s = None ->
    (forall addr,
       match function_call n addr s with
       | Ok _ s' => return_value s' = None
       | Jump _ => False
       | Abort _ => True
       end) /\
    match statement n s with
    | Ok _ s' => return_value s' = None
    | Jump s' => returned s'
    | Abort _ => True
    end.
Proof.
  intros Hi n s Hs. destruct (return_slot Hi n) as [Q C]. split.
  - intros addr. exact (C addr s Hs).
  - exact (Q s Hs).
Qed.

End ReturnMore.

(** ** The pre-scan of the functions *)

Lemma prescan_keeps_refl s : prescan_keeps s s.
Proof. now repeat split. Qed.

Lemma prescan_keeps_trans s1 s2 s3 :
  prescan_keeps s1 s2 -> prescan_keeps s2 s3 -> prescan_keeps s1 s3.
Proof.
  intros (A1 & A2 & A3 & A4 & A5 & A6 & A7) (B1 & B2 & B3 & B4 & B5 & B6 & B7).
  split; [congruence|]. split; [now transitivity (objects (shared s2))|].
  split; [congruence|]. split; [congruence|]. split; [congruence|].
  split; congruence.
Qed.

Lemma registered_keeps s s' it p :
  prescan_keeps s s' -> registered (shared s) it p -> registered (shared s') it p.
Proof.
  intros (Es & Eo & _) R. destruct it as [k f l params nl i body d|t x]; [|exact R].
  destruct R as (off & more & o & L & P & D). exists off, more, o.
  split; [exact (lookup_weaken _ _ _ _ L Eo)|]. split; [exact P|]. now rewrite Es.
Qed.

Lemma item_ok_head it : item_ok it -> head_ok it.
Proof. destruct it; [auto|now intros []]. Qed.

Lemma item_tokens_first it rest :
  item_ok it -> exists t x l, item_tokens it ++ rest = (t, x) :: l /\ t <> ENDMARKER.
Proof.
  destruct it as [k f l params nl i body d|t x]; cbn [item_tokens app].
  - intros _. eexists _, _, _. split; [reflexivity|discriminate].
  - intros [_ Ht]. eexists _, _, _. split; [reflexivity|exact Ht].
Qed.

Section Prescan.
Context `{Libc} `{NumberType} `{StrType} `{ListType} `{Evaluator} `{Collaborators}.

(** One turn of the loop over the item at the cursor. *)
Lemma function_declaration_turn n s it rest lv fr :
  at_tokens (shared s) (item_tokens it ++ rest) -> head_ok it ->
  levels (shared s) = lv ++ [fr] ->
  Forall (fun f => frame_lookup f fr = None) (defined [it]) ->
  exists s1,
    function_declaration_loop (S n) s =
      (let* tok := current_token in
       if negb (token_eqb tok ENDMARKER) then function_declaration_loop n else ret tt) s1 /\
    at_tokens (shared s1) rest /\ prescan_keeps s s1 /\
    match it with
    | OtherToken _ _ => levels (shared s1) = lv ++ [fr]
    | FunctionDef _ f _ _ _ _ _ _ =>
        exists p, levels (shared s1) = lv ++ [fr ++ [(f, Some p)]] /\
                  registered (shared s1) it p
    end.
Proof.
  intros Ha Hok El Hf. destruct it as [k f l params nl i body d|t x].
  - destruct Hok as [Hp Hb]. cbn [item_tokens app] in Ha.
    apply Forall_cons_1 in Hf as [Hf _]. change (frame_lookup f fr = None) in Hf.
    destruct (accept_at _ _ _ _ Ha) as (o1 & u1 & y1 & X1 & Ha1).
    set (s1 := set_shared _ s) in *.
    assert (Ht : u1 = IDENTIFIER) by apply Ha1.
    assert (Hx : y1 = f) by apply Ha1.
    assert (Hu : drop o1 (source (shared s)) =
                 (LPAR, l) :: params ++ block_tokens nl i body d ++ rest).
    { destruct Ha1 as (_ & _ & E). unfold upcoming in E. cbn in E.
      rewrite E. cbn [app]. now rewrite <- app_assoc. }
    subst u1 y1.
    set (id := mkIdentifier (length lv) f).
    set (s2 := set_shared (set_levels (lv ++ [fr ++ [(f, None)]]) (shared s1)) s1).
    assert (E2 : in_shared (identifier_add f) s1 = Ok (Some id) s2)
      by (apply in_shared_step; now apply identifier_add_new).
    set (p := fresh (dom (objects (shared s)))).
    set (pos := PositionData (mkPosition o1 IDENTIFIER f)).
    set (s3 := set_shared (set_objects (<[p := mkObject 1 pos]> (objects (shared s)))
                                       (shared s2)) s2).
    assert (E3 : in_shared reader_save s2 = Ok p s3)
      by (apply in_shared_step; exact (reader_save_Ok (shared s2))).
    set (s4 := set_shared
                 (set_levels (lv ++ [fr ++ [(f, Some p)]])
                    (set_objects (<[p := mkObject 2 pos]> (objects (shared s)))
                                 (shared s3))) s3).
    assert (E4 : in_shared (identifier_bind n id p) s3 = Ok tt s4).
    { apply in_shared_step. unfold id.
      rewrite (identifier_bind_new n (shared s3) lv fr f p (mkObject 1 pos) eq_refl Hf
                 (lookup_insert_eq _ _ _)).
      cbn [objects shared s3 set_shared set_objects refcount data].
      now rewrite insert_insert_eq. }
    assert (A4 : at_tokens (shared s4)
                   ((IDENTIFIER, f) :: (LPAR, l) :: params ++
                    block_tokens nl i body d ++ rest)).
    { destruct Ha1 as (T & L & E). split; [exact T|]. split; [exact L|].
      unfold upcoming in *. cbn in *. rewrite E. cbn [app]. now rewrite <- app_assoc. }
    destruct (skip_function_spec s4 f l params nl i body d rest A4 Hp Hb)
      as (o5 & u5 & y5 & X5 & A5).
    exists (set_shared (set_cursor o5 u5 y5 (shared s4)) s4).
    split; [|split; [exact A5|split]].
    + cbn [function_declaration_loop].
      rewrite (bind_step _ _ _ _ _ X1). cbv iota.
      rewrite bind_bind.
      rewrite (bind_step current_token _ s1 IDENTIFIER s1 eq_refl).
      rewrite token_eqb_refl. cbn [negb when]. rewrite bind_bind.
      rewrite (bind_step (ret tt) _ s1 tt s1 eq_refl). rewrite bind_bind.
      rewrite (bind_step current_string _ s1 f s1 eq_refl). rewrite bind_bind.
      rewrite (bind_step _ _ _ _ _ E2). rewrite bind_bind.
      rewrite (bind_step (ret id) _ s2 id s2 eq_refl). rewrite bind_bind.
      rewrite (bind_step _ _ _ _ _ E3). rewrite bind_bind.
      rewrite (bind_step _ _ _ _ _ E4).
      now rewrite (bind_step _ _ _ _ _ X5).
    + split; [reflexivity|]. split; [|now repeat split].
      cbn. apply insert_subseteq. apply fresh_not_live.
    + exists p. split; [reflexivity|]. exists o1, rest, (mkObject 2 pos).
      split; [apply lookup_insert_eq|]. split; [reflexivity|exact Hu].
  - cbn [item_tokens app] in Ha. cbn in Hok.
    destruct (scanner_next_at _ _ _ _ Ha) as (o1 & u1 & y1 & N & Ha1).
    exists (set_shared (set_cursor o1 u1 y1 (shared s)) s).
    split; [|split; [exact Ha1|split; [now repeat split|exact El]]].
    cbn [function_declaration_loop].
    assert (T : token (shared s) <> DEFFUNC) by (destruct Ha as (-> & _); exact Hok).
    rewrite (bind_step _ _ _ _ _ (accept_other s DEFFUNC T)). cbv iota.
    now rewrite (bind_step _ _ _ _ _ (in_shared_step _ _ _ _ N)).
Qed.

Lemma function_declaration_loop_spec items :
  forall it n s lv fr,
    (length items < n)%nat ->
    at_tokens (shared s) (module_tokens (it :: items)) ->
    head_ok it -> Forall item_ok items ->
    levels (shared s) = lv ++ [fr] ->
    NoDup (defined (it :: items)) ->
    Forall (fun f => frame_lookup f fr = None) (defined (it :: items)) ->
    exists s' ps,
      function_declaration_loop n s = Ok tt s' /\
      at_tokens (shared s') [] /\ prescan_keeps s s' /\
      levels (shared s') = lv ++ [fr ++ zip (defined (it :: items)) (Some <$> ps)] /\
      Forall2 (registered (shared s')) (definitions (it :: items)) ps.
Proof.
  induction items as [|it' items IH]; intros it n s lv fr Hn Ha Hh Hok El Hd Hf;
    (destruct n as [|n]; [lia|]);
    change (module_tokens (it :: ?l)) with (item_tokens it ++ module_tokens l) in Ha.
  - assert (Hf1 : Forall (fun f => frame_lookup f fr = None) (defined [it])) by exact Hf.
    destruct (function_declaration_turn n s it _ lv fr Ha Hh El Hf1)
      as (s1 & R & Ha1 & K & L).
    assert (E : function_declaration_loop (S n) s = Ok tt s1).
    { rewrite R. rewrite (bind_step current_token _ s1 (token (shared s1)) s1 eq_refl).
      destruct Ha1 as (-> & _). now rewrite token_eqb_refl. }
    destruct it as [k f l params nl i body d|t x].
    + destruct L as (p & L & Rg). exists s1, [p].
      split; [exact E|]. split; [exact Ha1|]. split; [exact K|]. split; [exact L|].
      constructor; [exact Rg|constructor].
    + exists s1, []. split; [exact E|]. split; [exact Ha1|]. split; [exact K|].
      split; [|constructor]. cbn. now rewrite app_nil_r.
  - apply Forall_cons_1 in Hok as [Hok' Hok].
    assert (Hf1 : Forall (fun f => frame_lookup f fr = None) (defined [it])).
    { destruct it; [|constructor]. apply Forall_cons_1 in Hf as [Hf _].
      constructor; [exact Hf|constructor]. }
    destruct (function_declaration_turn n s it _ lv fr Ha Hh El Hf1)
      as (s1 & R & Ha1 & K & L).
    assert (E : function_declaration_loop (S n) s = function_declaration_loop n s1).
    { rewrite R. rewrite (bind_step current_token _ s1 (token (shared s1)) s1 eq_refl).
      change (module_tokens (it' :: items))
        with (item_tokens it' ++ module_tokens items) in Ha1.
      destruct (item_tokens_first it' (module_tokens items) Hok') as (t & x & l & Et & Ht).
      rewrite Et in Ha1. destruct Ha1 as (-> & _). now rewrite token_eqb_neq. }
    rewrite E.
    destruct it as [k f l params nl i body d|t x].
    + destruct L as (p & L & Rg). cbn [defined] in Hd, Hf.
      apply NoDup_cons in Hd as [Hnew Hd]. apply Forall_cons_1 in Hf as [Hf0 Hf].
      destruct (IH it' n s1 lv (fr ++ [(f, Some p)]) ltac:(cbn in Hn; lia) Ha1
                  (item_ok_head _ Hok') Hok L Hd)
        as (s' & ps & E' & Ha' & K' & L' & Rg').
      { apply Forall_forall. intros g Hg. apply frame_lookup_other.
        - intros ->. now apply Hnew.
        - now apply (proj1 (Forall_forall _ _) Hf). }
      exists s', (p :: ps). split; [exact E'|]. split; [exact Ha'|].
      split; [exact (prescan_keeps_trans _ _ _ K K')|]. split.
      * rewrite L'. cbn [defined fmap list_fmap zip zip_with]. now rewrite <- app_assoc.
      * change (definitions (FunctionDef k f l params nl i body d :: it' :: items))
          with (FunctionDef k f l params nl i body d :: definitions (it' :: items)).
        constructor; [|exact Rg']. exact (registered_keeps _ _ _ _ K' Rg).
    + cbn [defined] in Hd, Hf.
      destruct (IH it' n s1 lv fr ltac:(cbn in Hn; lia) Ha1
                  (item_ok_head _ Hok') Hok L Hd Hf)
        as (s' & ps & E' & Ha' & K' & L' & Rg').
      exists s', ps. split; [exact E'|]. split; [exact Ha'|].
      split; [exact (prescan_keeps_trans _ _ _ K K')|]. split; [exact L'|exact Rg'].
Qed.

(** X16: function_declaration registers the functions of a module.  For
    a source made of function definitions with distinct new names and of
    other tokens, it returns with the reader rewound to the start of the
    source, and has declared the names, in the order of the definitions, in
    the innermost level, each bound to a position object that holds the
    identifier of the function as the current token and the place of the
    LPAR after it.  A [def] inside the body of a function is not
    registered.  The source, the objects that were there, the input, the
    output, the flags and the return slot are as before. *)
Theorem function_declaration_registers fuel s items lv fr :
  source (shared s) = module_tokens items ->
  token (shared s) <> DEFFUNC ->
  Forall item_ok items ->
  levels (shared s) = lv ++ [fr] ->
  NoDup (defined items) ->
  Forall (fun f => frame_lookup f fr = None) (defined items) ->
  (length items < fuel)%nat ->
  exists s' ps,
    function_declaration fuel s = Ok tt s' /\
    offset (shared s') = 0%nat /\ token (shared s') = ENDMARKER /\
    prescan_keeps s s' /\
    levels (shared s') = lv ++ [fr ++ zip (defined items) (Some <$> ps)] /\
    Forall2 (registered (shared s')) (definitions items) ps.
Proof.
  intros Es Ht Hok El Hd Hf Hn. unfold function_declaration.
  set (s0 := set_shared (set_cursor 0 (token (shared s)) (lexeme (shared s)) (shared s)) s).
  rewrite (bind_step (in_shared reader_reset) _ s tt s0 eq_refl).
  destruct (function_declaration_loop_spec items
              (OtherToken (token (shared s)) (lexeme (shared s))) fuel s0 lv fr Hn)
    as (s' & ps & E & Ha & K & L & R); try assumption.
  - split; [reflexivity|]. split; [reflexivity|]. exact Es.
  - rewrite (bind_step _ _ _ _ _ E).
    exists (set_shared (set_cursor 0 (token (shared s')) (lexeme (shared s')) (shared s')) s'),
           ps.
    split; [reflexivity|]. split; [reflexivity|]. split; [apply Ha|]. split; [exact K|].
    split; [exact L|]. exact R.
Qed.

End Prescan.

(** ** Formal parameters *)

Lemma frame_lookup_app_l name f g o :
  frame_lookup name f = Some o -> frame_lookup name (f ++ g) = Some o.
Proof.
  induction f as [|[n o'] f IH]; cbn; [discriminate|].
  destruct (String.eqb n name); [auto|exact IH].
Qed.

Section FormalsMore.
Context `{Libc} `{NumberType} `{StrType} `{ListType} `{Evaluator} `{Collaborators}.

(** A formal that the new level has already: NameError. *)
Lemma pop_arguments_known fuel n alist s lv f x o names r rest :
  at_tokens (shared s) (formal_tokens (x :: names) ++ (RPAR, r) :: rest) ->
  levels (shared s) = lv ++ [f] ->
  frame_lookup x f = Some o ->
  pop_arguments_loop fuel (S n) alist s = Abort (Raise NameError).
Proof.
  rewrite formal_tokens_cons. cbn [app]. intros Ha El Ef.
  assert (Ht : token (shared s) = IDENTIFIER) by apply Ha.
  assert (Hx : lexeme (shared s) = x) by apply Ha.
  assert (E1 : in_shared (identifier_add x) s = Ok None (set_shared (shared s) s))
    by (apply in_shared_step; now apply (identifier_add_old _ lv f x o)).
  cbn [pop_arguments_loop].
  rewrite (bind_step current_token _ s (token (shared s)) s eq_refl), Ht.
  rewrite token_eqb_refl, token_eqb_neq by discriminate. cbn [negb]. unfold when.
  rewrite (bind_step (ret tt) _ s tt s eq_refl).
  rewrite (bind_step current_string _ s (lexeme (shared s)) s eq_refl), Hx.
  now rewrite (bind_step _ _ _ _ _ E1).
Qed.

Lemma pop_arguments_loop_repeated fuel alist rc x post r rest :
  forall pre n s lv f nodes args,
    (length pre < n)%nat ->
    at_tokens (shared s) (formal_tokens (pre ++ x :: post) ++ (RPAR, r) :: rest) ->
    levels (shared s) = lv ++ [f] ->
    NoDup pre ->
    Forall (fun y => frame_lookup y f = None) pre ->
    x ∈ pre \/ is_Some (frame_lookup x f) ->
    arglist (objects (shared s)) alist rc nodes args ->
    (length pre <= length args)%nat ->
    pop_arguments_loop fuel n alist s = Abort (Raise NameError).
Proof.
  induction pre as [|a pre IH]; intros n s lv f nodes args Hn Ha El Hd Hf Hx Hl Hlen;
    (destruct n as [|n]; [cbn in Hn; lia|]).
  - destruct Hx as [Hx|[o Hx]]; [now apply elem_of_nil in Hx|].
    exact (pop_arguments_known _ _ _ _ _ _ _ _ _ _ _ Ha El Hx).
  - apply NoDup_cons in Hd as [Ha' Hd]. apply Forall_cons in Hf as [Hfa Hf].
    destruct args as [|a0 args]; [cbn in Hlen; lia|].
    assert (exists node nodes', nodes = node :: nodes') as (node & nodes' & ->)
      by (destruct Hl as [_ Hn2 _ _]; apply Forall2_cons_inv_r in Hn2;
          destruct Hn2 as (node & nodes' & _ & _ & ->); eauto).
    change ((a :: pre) ++ x :: post) with (a :: (pre ++ x :: post)) in Ha.
    destruct (pop_arguments_turn fuel n _ _ _ _ _ _ _ _ _ _ _ _ _ Ha El Hfa Hl)
      as (s1 & -> & Ha1 & El1 & Hl1).
    apply (IH n s1 lv (f ++ [(a, Some a0)]) nodes' args); try assumption.
    + cbn in Hn. lia.
    + apply Forall_forall. intros y Hy. apply frame_lookup_other.
      * intros ->. contradiction.
      * now apply (proj1 (Forall_forall _ _) Hf).
    + destruct Hx as [Hx|[o Hx]].
      * apply elem_of_cons in Hx as [->|Hx]; [|now left].
        right. exists (Some a0). now apply frame_lookup_snoc.
      * right. exists o. now apply frame_lookup_app_l.
    + cbn in Hlen. lia.
Qed.

(** X17: a formal parameter that repeats the name of an earlier one
    stops the call with NameError, when the argument list has an argument
    for each formal before it. *)
Theorem pop_arguments_repeated_formal fuel alist rc s lv pre x post nodes args l r rest :
  at_tokens (shared s) ((LPAR, l) :: formal_tokens (pre ++ x :: post) ++ (RPAR, r) :: rest) ->
  levels (shared s) = lv ++ [[]] ->
  NoDup pre -> x ∈ pre ->
  arglist (objects (shared s)) alist rc nodes args ->
  (length pre <= length args)%nat ->
  (length pre < fuel)%nat ->
  pop_arguments fuel alist s = Abort (Raise NameError).
Proof.
  intros Ha El Hd Hx Hl Hlen Hn.
  destruct (expect_at s _ _ _ Ha) as (o1 & u1 & y1 & E1 & A1).
  unfold pop_arguments. rewrite (bind_step _ _ _ _ _ E1).
  apply (pop_arguments_loop_repeated fuel alist rc x post r rest pre fuel _ lv [] nodes args);
    try assumption.
  - apply Forall_forall. reflexivity.
  - now left.
Qed.

End FormalsMore.

(** ** The queue of live objects *)

Section QueueFacts.
Import ObjectQueue.

Lemma last_or_cons p l prev : last_or (p :: l) prev = last_or l (Some p).
Proof.
  unfold last_or. destruct l as [|x l]; [reflexivity|].
  rewrite last_cons. destruct (last (x :: l)) eqn:E; [reflexivity|].
  now apply last_None in E.
Qed.

Lemma last_or_snoc l p prev : last_or (l ++ [p]) prev = Some p.
Proof. unfold last_or. now rewrite last_snoc. Qed.

Lemma chain_app lk prev l1 l2 after :
  chain lk prev (l1 ++ l2) after <->
  chain lk prev l1 (first_or l2 after) /\ chain lk (last_or l1 prev) l2 after.
Proof.
  revert prev. induction l1 as [|p l1 IH]; intros prev; cbn [app chain].
  - unfold last_or. cbn. tauto.
  - rewrite IH, last_or_cons.
    assert (E1 : match l1 ++ l2 with [] => after | n :: _ => Some n end =
                 match l1 with [] => first_or l2 after | n :: _ => Some n end)
      by (destruct l1; reflexivity).
    rewrite E1. tauto.
Qed.

Lemma chain_frame lk lk' prev l after :
  (forall p, p ∈ l -> lk' !! p = lk !! p) ->
  chain lk prev l after -> chain lk' prev l after.
Proof.
  revert prev. induction l as [|p l IH]; intros prev Hf; cbn [chain]; [auto|].
  intros [Hp Hc]. split.
  - rewrite Hf; [exact Hp|]. constructor.
  - apply IH; [|exact Hc]. intros x Hx. apply Hf. now constructor.
Qed.

Lemma get_links_live p x (q : Queue) : links q !! p = Some x -> get_links (Some p) q = Ok x q.
Proof. intros E. unfold get_links, bind, nonnull, ret, get. now rewrite E. Qed.

Lemma set_prevobj_live p x v (q : Queue) :
  links q !! p = Some x ->
  set_prevobj (Some p) v q =
  Ok tt (mkQueue (<[p := mkLinks v (nextobj x)]> (links q)) (head q) (tail q)).
Proof.
  intros E. unfold set_prevobj. now rewrite (bind_step _ _ _ _ _ (get_links_live _ _ _ E)).
Qed.

Lemma set_nextobj_live p x v (q : Queue) :
  links q !! p = Some x ->
  set_nextobj (Some p) v q =
  Ok tt (mkQueue (<[p := mkLinks (prevobj x) v]> (links q)) (head q) (tail q)).
Proof.
  intros E. unfold set_nextobj. now rewrite (bind_step _ _ _ _ _ (get_links_live _ _ _ E)).
Qed.

Lemma set_head_Ok v (q : Queue) : set_head v q = Ok tt (mkQueue (links q) v (tail q)).
Proof. reflexivity. Qed.

Lemma set_tail_Ok v (q : Queue) : set_tail v q = Ok tt (mkQueue (links q) (head q) v).
Proof. reflexivity. Qed.

(** X18: _enqueue puts an allocated object that is not in the queue at
    its end: the objects queued before keep their order, the new one is
    the tail, and it is the head as well when the queue was empty.  No
    object is added to or removed from the allocated ones. *)
Theorem enqueue_appends q l item :
  queue_is q l -> item ∉ l -> is_Some (links q !! item) ->
  exists q', _enqueue item q = Ok tt q' /\ queue_is q' (l ++ [item]) /\
             dom (links q') = dom (links q).
Proof.
  intros (Hd & Hh & Ht & Hc) Hi [xi Hxi].
  assert (Hd' : NoDup (l ++ [item])).
  { apply NoDup_app. split; [exact Hd|]. split; [|apply NoDup_singleton].
    intros x Hx Hx'. apply list_elem_of_singleton in Hx' as ->. contradiction. }
  unfold _enqueue. rewrite (bind_step get _ q q q eq_refl).
  destruct l as [|t l0 _] using rev_ind.
  - cbn in Hh. rewrite Hh. rewrite bind_bind.
    rewrite (bind_step _ _ _ _ _ (set_head_Ok _ _)).
    rewrite (bind_step _ _ _ _ _
               (set_prevobj_live item xi None (mkQueue (links q) (Some item) (tail q)) Hxi)).
    rewrite (bind_step _ _ _ _ _ (set_tail_Ok _ _)). cbn [links head tail].
    rewrite (set_nextobj_live item (mkLinks None (nextobj xi)) None)
      by apply lookup_insert_eq.
    eexists. split; [reflexivity|]. cbn [links head tail prevobj]. split.
    + split; [exact Hd'|]. split; [reflexivity|]. split; [reflexivity|].
      cbn. split; [|exact I]. rewrite insert_insert_eq. apply lookup_insert_eq.
    + rewrite insert_insert_eq. apply dom_insert_lookup_L. eauto.
  - rewrite last_snoc in Ht.
    assert (Hne : t <> item).
    { intros ->. apply Hi. apply elem_of_app. right. constructor. }
    apply chain_app in Hc as [Hc1 Hc2]. cbn [chain first_or] in Hc1, Hc2.
    destruct Hc2 as [Hxt _].
    assert (Hh' : exists h0, head q = Some h0).
    { rewrite Hh. destruct l0; cbn; eauto. }
    destruct Hh' as [h0 Hh0]. rewrite Hh0.
    rewrite bind_bind.
    rewrite (bind_step _ _ _ _ _ (set_prevobj_live item xi (tail q) _ Hxi)).
    rewrite Ht.
    rewrite (bind_step _ _ _ _ _
               (set_nextobj_live t (mkLinks (last_or l0 None) None) (Some item)
                  (mkQueue (<[item := mkLinks (Some t) (nextobj xi)]> (links q))
                           (head q) (Some t))
                  ltac:(cbn [links]; rewrite lookup_insert_ne by congruence; exact Hxt))).
    cbn [links head tail prevobj].
    rewrite (bind_step _ _ _ _ _ (set_tail_Ok _ _)). cbn [links head tail].
    rewrite (set_nextobj_live item (mkLinks (Some t) (nextobj xi)) None)
      by (cbn [links]; rewrite lookup_insert_ne by congruence; apply lookup_insert_eq).
    eexists. split; [reflexivity|]. cbn [links head tail prevobj]. split.
    + split; [exact Hd'|]. split.
      { rewrite Hh. rewrite (lookup_app_l (l0 ++ [t])); [reflexivity|].
        rewrite length_app. cbn. lia. }
      split; [now rewrite last_snoc|].
      apply chain_app. rewrite last_or_snoc. cbn [chain first_or]. split.
      * apply chain_app. cbn [chain first_or]. split.
        -- eapply chain_frame; [|exact Hc1]. intros p Hp.
           assert (p <> t).
           { intros ->. apply NoDup_app in Hd as (_ & Hd & _). apply (Hd t Hp). constructor. }
           assert (p <> item).
           { intros ->. apply Hi. apply elem_of_app. now left. }
           cbn [links]. now rewrite !lookup_insert_ne by congruence.
        -- split; [|exact I]. cbn [links].
           rewrite lookup_insert_ne by congruence. apply lookup_insert_eq.
      * split; [|exact I]. apply lookup_insert_eq.
    + rewrite !dom_insert_lookup_L; [reflexivity|eauto|..].
      * rewrite lookup_insert_ne by congruence. eauto.
      * rewrite lookup_insert_ne by congruence. rewrite lookup_insert_eq. eauto.
Qed.

Lemma chain_set_after lk lk' prev l p after after' x :
  chain lk prev (l ++ [p]) after -> lk !! p = Some x ->
  (forall y, y ∈ l -> lk' !! y = lk !! y) ->
  lk' !! p = Some (mkLinks (prevobj x) after') ->
  chain lk' prev (l ++ [p]) after'.
Proof.
  intros Hc Hx Hf Hp. apply chain_app in Hc as [H1 H2]. apply chain_app. split.
  - eapply chain_frame; [exact Hf|exact H1].
  - cbn [chain] in *. split; [|exact I]. destruct H2 as [H2 _].
    rewrite Hx in H2. injection H2 as ->. exact Hp.
Qed.

Lemma chain_set_prev lk lk' prev prev' n l after x :
  chain lk prev (n :: l) after -> lk !! n = Some x ->
  (forall y, y ∈ l -> lk' !! y = lk !! y) ->
  lk' !! n = Some (mkLinks prev' (nextobj x)) ->
  chain lk' prev' (n :: l) after.
Proof.
  cbn [chain]. intros [H1 H2] Hx Hf Hp. rewrite Hx in H1. injection H1 as ->.
  split; [exact Hp|].
  destruct l as [|m l]; [exact I|]. cbn [chain] in *. destruct H2 as [H2 H3]. split.
  - rewrite Hf; [|constructor]. exact H2.
  - eapply chain_frame; [|exact H3]. intros y Hy. apply Hf. now constructor.
Qed.

(** X19: _dequeue takes a queued object out of the queue, wherever it
    stands: the other objects keep their order and are linked to each other
    in both directions again, and head and tail follow when the first or
    the last object leaves.  The link fields of the object that left are
    not cleared. *)
Theorem dequeue_removes q l1 item l2 :
  queue_is q (l1 ++ item :: l2) ->
  exists q', _dequeue item q = Ok tt q' /\ queue_is q' (l1 ++ l2) /\
             dom (links q') = dom (links q) /\ links q' !! item = links q !! item.
Proof.
  intros (Hd & Hh & Ht & Hc).
  apply NoDup_app in Hd as (Hd1 & Hd12 & Hd2). apply NoDup_cons in Hd2 as [Hi2 Hd2].
  assert (Hi1 : item ∉ l1) by (intros H; apply (Hd12 _ H); constructor).
  assert (Hd' : NoDup (l1 ++ l2)).
  { apply NoDup_app. split; [exact Hd1|]. split; [|exact Hd2].
    intros x Hx Hx'. apply (Hd12 _ Hx). now constructor. }
  apply chain_app in Hc as [Hc1 Hc2]. cbn [first_or] in Hc1.
  cbn [chain] in Hc2. destruct Hc2 as [Hxi Hc2]. fold (first_or l2 None) in Hxi.
  unfold _dequeue. rewrite (bind_step _ _ _ _ _ (get_links_live _ _ _ Hxi)).
  cbn [nextobj prevobj].
  destruct l2 as [|n l2]; cbn [first_or].
  - rewrite app_nil_r in *. rewrite last_snoc in Ht.
    destruct l1 as [|p l1 _] using rev_ind.
    + cbn. eexists. split; [reflexivity|]. repeat split; constructor.
    + rewrite last_or_snoc.
      rewrite (bind_step _ _ _ _ _ (set_tail_Ok _ _)).
      rewrite (bind_step get _ _ _ _ eq_refl). cbn [tail].
      pose proof Hc1 as Hc1'. apply chain_app in Hc1' as [_ Hp]. cbn [chain] in Hp.
      destruct Hp as [Hp _].
      rewrite (set_nextobj_live p _ None (mkQueue (links q) (head q) (Some p)) Hp).
      cbn [links head tail prevobj].
      assert (Hne : p <> item).
      { intros ->. apply Hi1. apply elem_of_app. right. constructor. }
      eexists. split; [reflexivity|]. cbn [links head tail]. split; [|split].
      * split; [exact Hd'|]. split.
        { rewrite Hh. rewrite <- app_assoc. destruct l1; reflexivity. }
        split; [now rewrite last_snoc|].
        eapply chain_set_after; [exact Hc1|exact Hp| |apply lookup_insert_eq].
        intros y Hy. apply lookup_insert_ne. intros ->.
        apply NoDup_app in Hd1 as (_ & Hd1 & _). apply (Hd1 _ Hy). constructor.
      * apply dom_insert_lookup_L. eauto.
      * now apply lookup_insert_ne.
  - assert (Hni : n <> item) by (intros ->; apply Hi2; constructor).
    assert (Hn1 : n ∉ l1) by (intros H; apply (Hd12 _ H); right; constructor).
    pose proof Hc2 as Hn. cbn [chain] in Hn. destruct Hn as [Hn _].
    apply NoDup_cons in Hd2 as [Hn2 Hd2].
    destruct l1 as [|p l1 _] using rev_ind.
    + unfold last_or. cbn [last app].
      rewrite (bind_step _ _ _ _ _ (set_head_Ok _ _)).
      rewrite (bind_step get _ _ _ _ eq_refl). cbn [head].
      rewrite (set_prevobj_live n _ None (mkQueue (links q) (Some n) (tail q)) Hn).
      cbn [links head tail nextobj].
      eexists. split; [reflexivity|]. cbn [links head tail]. split; [|split].
      * split; [exact Hd'|]. split; [reflexivity|]. split.
        { rewrite Ht. reflexivity. }
        eapply chain_set_prev; [exact Hc2|exact Hn| |apply lookup_insert_eq].
        intros y Hy. apply lookup_insert_ne. intros ->. contradiction.
      * apply dom_insert_lookup_L. eauto.
      * now apply lookup_insert_ne.
    + rewrite last_or_snoc.
      pose proof Hc1 as Hc1'. apply chain_app in Hc1' as [_ Hp]. cbn [chain] in Hp.
      destruct Hp as [Hp _].
      assert (Hpi : p <> item).
      { intros ->. apply Hi1. apply elem_of_app. right. constructor. }
      assert (Hpn : p <> n).
      { intros ->. apply Hn1. apply elem_of_app. right. constructor. }
      rewrite (bind_step _ _ _ _ _ (set_nextobj_live p _ (Some n) _ Hp)).
      cbn [prevobj].
      rewrite (bind_step _ _ _ _ _
                 (get_links_live item (mkLinks (Some p) (Some n))
                    (mkQueue (<[p := mkLinks (last_or l1 None) (Some n)]> (links q))
                             (head q) (tail q))
                    ltac:(cbn [links]; rewrite lookup_insert_ne by congruence;
                          rewrite Hxi, last_or_snoc; reflexivity))).
      cbn [nextobj prevobj].
      rewrite (set_prevobj_live n _ (Some p)
                 (mkQueue (<[p := mkLinks (last_or l1 None) (Some n)]> (links q))
                          (head q) (tail q))
                 ltac:(cbn [links]; rewrite lookup_insert_ne by congruence; exact Hn)).
      cbn [links head tail nextobj].
      eexists. split; [reflexivity|]. cbn [links head tail]. split; [|split].
      * split; [exact Hd'|]. split.
        { rewrite Hh. rewrite <- !app_assoc. destruct l1; reflexivity. }
        split.
        { rewrite Ht. rewrite !last_app. cbn [last]. rewrite !last_cons.
          destruct (last l2); reflexivity. }
        apply chain_app. rewrite last_or_snoc. cbn [first_or]. split.
        -- eapply chain_set_after; [exact Hc1|exact Hp| |].
           ++ intros y Hy. cbn [links]. rewrite !lookup_insert_ne; [reflexivity| |].
              ** intros ->. apply NoDup_app in Hd1 as (_ & Hd1 & _).
                 apply (Hd1 _ Hy). constructor.
              ** intros ->. apply Hn1. apply elem_of_app. now left.
           ++ cbn [links]. rewrite lookup_insert_ne by congruence. apply lookup_insert_eq.
        -- eapply chain_set_prev; [exact Hc2|exact Hn| |apply lookup_insert_eq].
           intros y Hy. cbn [links]. rewrite !lookup_insert_ne; [reflexivity| |].
           ++ intros ->. apply (Hd12 y); [apply elem_of_app; right; constructor|].
              now do 2 right.
           ++ intros ->. contradiction.
      * rewrite !dom_insert_lookup_L; [reflexivity|eauto|].
        rewrite lookup_insert_ne by congruence. eauto.
      * now rewrite !lookup_insert_ne by congruence.
Qed.

End QueueFacts.

(** * The theorems at work

    The reference environment satisfies what the theorems above ask of
    the methods of the types, and the embedded code runs in it on concrete
    heaps and programs. *)

Module Examples.
Import Reference.
Import Samples.

(** ** The methods of the reference environment *)

Lemma new_object_Ok d (h : heap) :
  d <> NoneData ->
  new_object d h = Ok (fresh (dom h)) (<[fresh (dom h) := mkObject 1 d]> h).
Proof.
  intros Hd. unfold new_object.
  rewrite (bind_step _ _ _ _ _ (obj_alloc_new (type_of d) h
                                  ltac:(destruct d; try discriminate; contradiction))).
  rewrite (bind_step _ _ _ _ _
             (set_data_live _ d _ _ (lookup_insert_eq h (fresh (dom h)) _))).
  cbn. now rewrite insert_insert_eq.
Qed.

Lemma allocates_new_object d : d <> NoneData -> allocates (new_object d).
Proof.
  intros Hd h. rewrite (new_object_Ok d h Hd). split; [apply fresh_not_live|].
  exists d. apply lookup_insert_eq.
Qed.

Lemma allocates_after {A} (m : M heap A) (k : A -> M heap ptr) :
  reads m -> (forall a, allocates (k a)) -> allocates (bind m k).
Proof.
  intros Hm Hk h. unfold bind. specialize (Hm h).
  destruct (m h) as [a h1| |]; try easy. subst h1. apply Hk.
Qed.

Lemma reads_read_number op : reads (read_number op).
Proof. unfold read_number. reads. Qed.

Lemma number_data_not_none r : number_data r <> NoneData.
Proof. now destruct r. Qed.

Lemma allocates_binary f a b : allocates (binary f a b).
Proof.
  unfold binary. apply allocates_after; [apply reads_read_number|]. intros x.
  apply allocates_after; [apply reads_read_number|]. intros y.
  destruct (f x y); [apply allocates_new_object, number_data_not_none|apply allocates_error].
Qed.

Lemma allocates_unary f a : allocates (unary f a).
Proof.
  unfold unary. apply allocates_after; [apply reads_read_number|]. intros x.
  apply allocates_new_object, number_data_not_none.
Qed.

Lemma reads_text_of op : reads (text_of op).
Proof. unfold text_of. reads. Qed.

Lemma reads_sequence_and_count is_seq op1 op2 :
  (forall op, reads (is_seq op)) -> reads (sequence_and_count is_seq op1 op2).
Proof.
  intros Hs. unfold sequence_and_count. apply reads_bind; [apply Hs|]. intros b.
  destruct b; (apply reads_bind; [apply reads_obj_as_int|intros n; apply reads_ret]).
Qed.

Lemma allocates_str_concat a b : allocates (str_concat a b).
Proof.
  unfold str_concat. apply allocates_after; [apply reads_text_of|]. intros x.
  apply allocates_after; [apply reads_text_of|]. intros y.
  now apply allocates_new_object.
Qed.

Lemma allocates_str_repeat a b : allocates (str_repeat a b).
Proof.
  unfold str_repeat.
  apply allocates_after; [apply reads_sequence_and_count, reads_isString|]. intros x.
  apply allocates_after; [apply reads_obj_as_str|]. intros y.
  now apply allocates_new_object.
Qed.

Lemma allocates_str_compare eq a b : allocates (str_compare eq a b).
Proof.
  unfold str_compare. apply allocates_after; [apply reads_obj_as_str|]. intros x.
  apply allocates_after; [apply reads_obj_as_str|]. intros y.
  now apply allocates_new_object.
Qed.

Lemma allocates_list_compare eq a b : allocates (list_compare eq a b).
Proof.
  unfold list_compare. apply allocates_after; [intros h; reflexivity|]. intros x.
  now apply allocates_new_object.
Qed.

Lemma reads_traverse {A B} (f : A -> M heap B) l :
  (forall a, reads (f a)) -> reads (traverse f l).
Proof.
  intros Hf. induction l as [|a l IH]; cbn [traverse]; [apply reads_ret|].
  apply reads_bind; [apply Hf|]. intros b.
  apply reads_bind; [exact IH|]. intros bs. apply reads_ret.
Qed.

Lemma reads_list_items l : reads (list_items l).
Proof.
  unfold list_items, list_nodes. apply reads_bind; [reads|]. intros nodes.
  apply reads_traverse. intros node. apply reads_obj_from_listnode.
Qed.

Lemma list_build_step l x (h : heap) :
  list_at l h ->
  match (let* h0 := get in
         let* c := obj_copy (nesting h0) x in
         listnode_append l c) h with
  | Ok _ h' => list_at l h'
  | Jump _ => False
  | Abort _ => True
  end.
Proof.
  intros [nodes Hl]. rewrite (bind_step get _ h h h eq_refl).
  pose proof (obj_copy_extends (nesting h) x h) as E. unfold bind at 1.
  destruct (obj_copy (nesting h) x h) as [c h1| |]; try easy.
  pose proof (lookup_weaken _ _ _ _ Hl E) as Hl1.
  unfold listnode_append. rewrite (bind_step _ _ _ _ _ (load_some _ _ _ Hl1)).
  cbn [data]. rewrite (bind_step _ _ _ _ _ (listnode_new_spec c h1)).
  assert (Hl2 : <[fresh (dom h1) := mkObject 1 (ListNodeData (Some c))]> h1 !! l =
                Some (mkObject 1 (ListData nodes))).
  { rewrite lookup_insert_ne; [exact Hl1|].
    intros <-. rewrite fresh_not_live in Hl1. discriminate. }
  rewrite (set_data_live _ _ _ _ Hl2). eexists. apply lookup_insert_eq.
Qed.

Lemma list_build_loop l items :
  forall h : heap,
    list_at l h ->
    match for_each (fun x => let* h0 := get in
                             let* c := obj_copy (nesting h0) x in
                             listnode_append l c) items h with
    | Ok _ h' => list_at l h'
    | Jump _ => False
    | Abort _ => True
    end.
Proof.
  induction items as [|x items IH]; intros h Hl; cbn [for_each]; [exact Hl|].
  pose proof (list_build_step l x h Hl) as S1. unfold bind at 1.
  destruct ((let* h0 := get in _) h) as [[] h1| |]; try easy. now apply IH.
Qed.

Lemma allocates_list_build items : allocates (list_build items).
Proof.
  intros h. unfold list_build.
  rewrite (bind_step _ _ _ _ _ (obj_alloc_new LIST_T h ltac:(discriminate))).
  pose proof (list_build_loop (fresh (dom h)) items
                (<[fresh (dom h) := mkObject 1 (default_data LIST_T)]> h)
                ltac:(eexists; apply lookup_insert_eq)) as L.
  unfold bind at 1.
  destruct (for_each _ items _) as [[] h1| |]; try easy.
  destruct L as [nodes L]. cbn. split; [apply fresh_not_live|eauto].
Qed.

Lemma allocates_list_concat a b : allocates (list_concat a b).
Proof.
  unfold list_concat. apply allocates_after; [apply reads_list_items|]. intros xs.
  apply allocates_after; [apply reads_list_items|]. intros ys.
  apply allocates_list_build.
Qed.

Lemma allocates_list_repeat a b : allocates (list_repeat a b).
Proof.
  unfold list_repeat.
  apply allocates_after; [apply reads_sequence_and_count, reads_isList|]. intros x.
  apply allocates_after; [apply reads_list_items|]. intros xs.
  apply allocates_list_build.
Qed.

Lemma reference_binary_methods :
  Forall (fun f => forall a b, allocates (f a b)) binary_methods.
Proof.
  unfold binary_methods.
  repeat first [apply Forall_nil_2 | apply Forall_cons_2]; intros a b;
    first [ apply allocates_binary | apply allocates_str_concat | apply allocates_str_repeat
          | apply allocates_str_compare | apply allocates_list_concat
          | apply allocates_list_repeat | apply allocates_list_compare ].
Qed.

Lemma reference_unary_methods : Forall (fun f => forall a, allocates (f a)) unary_methods.
Proof.
  unfold unary_methods.
  repeat first [apply Forall_nil_2 | apply Forall_cons_2]; intros a; apply allocates_unary.
Qed.

Lemma read_number_abort op (h : heap) x : read_number op h = Abort x -> x = Fault.
Proof.
  unfold read_number, bind, load, ret, fault. destruct (h !! op) as [o|]; [|now intros [= <-]].
  destruct (data o); intros E; first [discriminate | now injection E as <-].
Qed.

Lemma binary_no_TypeError f a b (h : heap) : binary f a b h <> Abort (Raise TypeError).
Proof.
  unfold binary. intros E.
  destruct (read_number a h) as [x h1| |y] eqn:R1.
  - assert (h1 = h) as -> by exact (reads_Ok _ _ _ _ (reads_read_number a) R1).
    rewrite (bind_step _ _ _ _ _ R1) in E.
    destruct (read_number b h) as [z h1| |y] eqn:R2.
    + assert (h1 = h) as -> by exact (reads_Ok _ _ _ _ (reads_read_number b) R2).
      rewrite (bind_step _ _ _ _ _ R2) in E.
      destruct (f x z); [|discriminate].
      now rewrite (new_object_Ok _ h (number_data_not_none _)) in E.
    + pose proof (reads_read_number b h) as R. now rewrite R2 in R.
    + rewrite (bind_abort _ _ _ _ R2) in E. apply read_number_abort in R2. congruence.
  - pose proof (reads_read_number a h) as R. now rewrite R1 in R.
  - rewrite (bind_abort _ _ _ _ R1) in E. apply read_number_abort in R1. congruence.
Qed.

Lemma obj_as_str_abort op (h : heap) x :
  obj_as_str op h = Abort x -> x = Fault \/ x = Raise ValueError.
Proof.
  unfold obj_as_str. intros E.
  destruct (deref_listnode op h) as [a h1| |y] eqn:D.
  - assert (h1 = h) as -> by exact (reads_Ok _ _ _ _ (reads_deref_listnode op) D).
    rewrite (bind_step _ _ _ _ _ D) in E. unfold bind, load, ret, error in E.
    destruct (h !! a) as [o|]; [|left; now injection E as <-].
    destruct (data o); first [discriminate | right; now injection E as <-].
  - pose proof (reads_deref_listnode op h) as R. now rewrite D in R.
  - rewrite (bind_abort _ _ _ _ D) in E. apply deref_listnode_abort in D. left. congruence.
Qed.

Lemma str_compare_no_TypeError eq a b (h : heap) :
  str_compare eq a b h <> Abort (Raise TypeError).
Proof.
  unfold str_compare. intros E.
  destruct (obj_as_str a h) as [x h1| |y] eqn:R1.
  - assert (h1 = h) as -> by exact (reads_Ok _ _ _ _ (reads_obj_as_str a) R1).
    rewrite (bind_step _ _ _ _ _ R1) in E.
    destruct (obj_as_str b h) as [z h1| |y] eqn:R2.
    + assert (h1 = h) as -> by exact (reads_Ok _ _ _ _ (reads_obj_as_str b) R2).
      rewrite (bind_step _ _ _ _ _ R2) in E.
      now rewrite (new_object_Ok _ h) in E.
    + pose proof (reads_obj_as_str b h) as R. now rewrite R2 in R.
    + rewrite (bind_abort _ _ _ _ R2) in E.
      apply obj_as_str_abort in R2 as [-> | ->]; discriminate.
  - pose proof (reads_obj_as_str a h) as R. now rewrite R1 in R.
  - rewrite (bind_abort _ _ _ _ R1) in E.
    apply obj_as_str_abort in R1 as [-> | ->]; discriminate.
Qed.

Lemma list_compare_no_TypeError eq a b (h : heap) :
  list_compare eq a b h <> Abort (Raise TypeError).
Proof.
  unfold list_compare. rewrite (bind_step get _ h h h eq_refl).
  now rewrite (new_object_Ok _ h).
Qed.

Lemma admits_number (f : number -> number -> option number) :
  admits (binary f) number_type.
Proof. intros h a b t1 t2 _ _ _ _. apply binary_no_TypeError. Qed.

Lemma admits_str eq : admits (str_compare eq) (fun t => bool_decide (t = STR_T)).
Proof. intros h a b t1 t2 _ _ _ _. apply str_compare_no_TypeError. Qed.

Lemma admits_list eq : admits (list_compare eq) (fun t => bool_decide (t = LIST_T)).
Proof. intros h a b t1 t2 _ _ _ _. apply list_compare_no_TypeError. Qed.

(** ** Objects *)

Lemma sample_int : operand sample 2 2 INT_T.
Proof. apply operand_self; [|discriminate]. now exists (mkObject 1 (IntData 1)). Qed.

Lemma sample_empty : operand sample 3 3 STR_T.
Proof. apply operand_self; [|discriminate]. now exists (mkObject 1 (StrData EmptyString)). Qed.

Lemma sample_str : operand sample 4 4 STR_T.
Proof. apply operand_self; [|discriminate]. now exists (mkObject 1 (StrData "ab")). Qed.

Lemma sample_float : operand sample 5 5 FLOAT_T.
Proof. apply operand_self; [|discriminate]. eexists. split; reflexivity. Qed.

(** [1 in ""] has no result. *)
Lemma obj_in_empty_sequence_witness :
  operand sample 2 2 INT_T /\ operand sample 3 3 STR_T /\
  obj_in 2 2 3 sample = Ok None sample.
Proof.
  split; [exact sample_int|]. split; [exact sample_empty|].
  apply (proj2 (obj_in_empty_sequence 2 sample 2 3 2 3 INT_T STR_T sample_int sample_empty)
               eq_refl 0).
  - vm_compute. reflexivity.
  - lia.
Defined.

(** [1 == "ab"] is 0 and [1 != "ab"] is 1. *)
Lemma obj_eql_neq_never_TypeError_witness :
  obj_eql 2 2 4 sample =
    Ok (fresh (dom sample)) (<[fresh (dom sample) := mkObject 1 (IntData 0)]> sample) /\
  obj_neq 2 2 4 sample =
    Ok (fresh (dom sample)) (<[fresh (dom sample) := mkObject 1 (IntData 1)]> sample).
Proof.
  apply (proj1 (@obj_eql_neq_never_TypeError libc numbertype strtype listtype
                  2%nat sample 2%positive 4%positive
                  (admits_number (comparison Z.eqb PrimFloat.eqb))
                  (admits_str true) (admits_list true)
                  (admits_number (comparison (fun x y => negb (x =? y))
                                             (fun x y => negb (PrimFloat.eqb x y))))
                  (admits_str false) (admits_list false))
               2%positive 4%positive INT_T STR_T sample_int sample_str eq_refl).
Defined.




Lemma element_source : has_value 2 element 6 (VList [VInt 7]).
Proof.
  split; [exact I|]. exists (mkObject 1 (ListData [5%positive])). split; [reflexivity|].
  exists [VInt 7]. split; [reflexivity|]. constructor; [|constructor].
  split; [exact I|].
  exists (mkObject 1 (ListNodeData (Some 4%positive))), 4%positive.
  split; [reflexivity|]. split; [reflexivity|].
  split; [exact I|]. exists (mkObject 1 (IntData 7)). split; reflexivity.
Qed.

(** The assignment of the list [[7]] to the node: the node gets a copy in
    new cells. *)
Lemma obj_assign_listnode_deep_copy_witness :
  exists c h',
    obj_assign 3 3 6 element = Ok tt h' /\
    h' !! 3%positive = Some (mkObject 1 (ListNodeData (Some c))) /\
    new_in element c /\
    holds (new_in element) 2 h' c (VList [VInt 7]).
Proof.
  destruct (obj_assign_listnode_deep_copy 3 2 element (delete 2%positive element)
              3 (mkObject 1 (ListNodeData (Some 2%positive))) (Some 2%positive) 6
              (VList [VInt 7]))
    as (c & h' & A & B & C & D & _).
  - reflexivity.
  - reflexivity.
  - exact element_source.
  - lia.
  - vm_compute. reflexivity.
  - reflexivity.
  - exists c, h'. auto.
Defined.

(** ** Programs *)

Lemma arguments_arglist : arglist arguments 2 1 [3; 4; 5]%positive [6; 7; 8]%positive.
Proof.
  split.
  - reflexivity.
  - repeat constructor; eexists; split; reflexivity.
  - repeat constructor; eexists; reflexivity.
  - apply (bool_decide_unpack _). vm_compute. exact I.
Qed.


(** The reference environment has no module to import. *)
Lemma reference_import_quiet path : quiet (reader_import path).
Proof. intros s _. exact I. Qed.




(** ** Further runs: objects *)

(** ["ab" + 1] is passed to the concatenation of strings. *)
Lemma obj_add_dispatch_witness :
  operand sample 4 4 STR_T /\ operand sample 2 2 INT_T /\
  obj_add 4 2 sample = str_concat 4 2 sample.
Proof.
  split; [exact sample_str|]. split; [exact sample_int|].
  exact (obj_add_dispatch sample 4 2 4 2 STR_T INT_T sample_str sample_int).
Defined.

(** The string "ab" is assigned the int 1: it becomes "1", and no other
    object changes. *)
Lemma obj_assign_str_target_witness :
  obj_assign 1 4 2 sample = Ok tt (<[4%positive := mkObject 1 (StrData "1")]> sample).
Proof.
  exact (obj_assign_str_target 0 sample 4 2 (mkObject 1 (StrData "ab"))
           (mkObject 1 (IntData 1)) "ab" eq_refl eq_refl eq_refl
           (fun E : INT_T = STR_T => ltac:(discriminate E))).
Defined.

(** The int 1 is assigned the float 2.5: it is still an int. *)
Lemma obj_assign_keeps_type_witness :
  obj_assign 1 2 5 sample = Ok tt (heap_of (obj_assign 1 2 5 sample)) /\
  exists o, heap_of (obj_assign 1 2 5 sample) !! 2%positive = Some o /\
            type_of (data o) = INT_T.
Proof.
  assert (E : obj_assign 1 2 5 sample = Ok tt (heap_of (obj_assign 1 2 5 sample)))
    by (vm_compute; reflexivity).
  split; [exact E|].
  exact (obj_assign_keeps_type 1 sample _ 2 5 (mkObject 1 (IntData 1)) eq_refl
           ltac:(discriminate) E).
Defined.

(** The copy of the list [[7]] is a new list with count 1. *)
Lemma obj_copy_new_object_witness :
  exists c h',
    obj_copy 3 6 element = Ok c h' /\ element ⊆ h' /\ element !! c = None /\
    exists d, h' !! c = Some (mkObject 1 d) /\ type_of d = LIST_T.
Proof.
  assert (E : obj_copy 3 6 element =
              Ok (pointer_of (obj_copy 3 6 element)) (heap_of (obj_copy 3 6 element)))
    by (vm_compute; reflexivity).
  destruct (proj1 (obj_copy_new_object 3 6 element) _ _ E) as (S & N & d & L & _ & T).
  eexists _, _. split; [exact E|]. split; [exact S|]. split; [exact N|].
  exists d. split; [exact L|].
  apply (T LIST_T); [|discriminate]. eexists. split; reflexivity.
Defined.

(** The length of "ab" is 2, and the heap is as before. *)
Lemma obj_length_releases_result_witness :
  operand sample 4 4 STR_T /\ obj_length 1 4 sample = Ok 2 sample.
Proof.
  split; [exact sample_str|].
  apply (proj2 (obj_length_releases_result 0 sample 4 4 STR_T sample_str)
               6%positive 2 eq_refl).
  - vm_compute. reflexivity.
  - reflexivity.
Defined.

(** The last reference to none is given up, and none is still there;
    obj_alloc(NONE_T) and obj_decref cancel. *)
Lemma none_never_released_witness :
  obj_decref 1 none heap_init = Ok tt (<[none := mkObject 0 NoneData]> heap_init) /\
  (let* q := obj_alloc NONE_T in obj_decref 1 q) heap_init = Ok tt heap_init.
Proof.
  destruct (none_never_released 0 heap_init none none_object eq_refl eq_refl) as [A B].
  split; [exact A|exact (B eq_refl)].
Defined.

(** [1 in "ab"] has a result, and "ab" is not empty. *)
Lemma obj_in_result_iff_nonempty_witness :
  obj_in 3 2 4 sample = Ok (Some 7%positive) (heap_of (obj_in 3 2 4 sample)) /\
  exists b len h1,
    deref_listnode 4 sample = Ok b sample /\ obj_length 3 b sample = Ok len h1 /\ 0 < len.
Proof.
  assert (E : obj_in 3 2 4 sample = Ok (Some 7%positive) (heap_of (obj_in 3 2 4 sample)))
    by (vm_compute; reflexivity).
  split; [exact E|].
  destruct (obj_in_result_iff_nonempty 3 sample 2 4 _ _ E) as (b & len & h1 & D & L & I & _).
  exists b, len, h1. split; [exact D|]. split; [exact L|].
  destruct (Z_lt_le_dec 0 len) as [Hl|Hl]; [exact Hl|].
  discriminate (proj2 I Hl).
Defined.

(** ** Further runs: statements *)

(** The condition of [if 0]: the int 0 is released, and the result is
    false. *)
Lemma condition_takes_numbers_only_witness :
  condition 30 (function_call 30) at_if =
  (decref 30 (Some 2%positive) ;; ret false)
    (state_of (run_comma_expr (function_call 30) at_if)).
Proof.
  assert (E : run_comma_expr (function_call 30) at_if =
              Ok (Some 2%positive) (state_of (run_comma_expr (function_call 30) at_if)))
    by (vm_compute; reflexivity).
  assert (D : deref_listnode 2
                (objects (shared (state_of (run_comma_expr (function_call 30) at_if)))) =
              Ok 2%positive
                 (objects (shared (state_of (run_comma_expr (function_call 30) at_if)))))
    by (vm_compute; reflexivity).
  assert (L : objects (shared (state_of (run_comma_expr (function_call 30) at_if)))
                !! 2%positive = Some (mkObject 1 (IntData 0)))
    by (vm_compute; reflexivity).
  destruct (condition_takes_numbers_only 30 (function_call 30) at_if) as [_ W].
  destruct (W 2%positive (state_of (run_comma_expr (function_call 30) at_if))
              2%positive (mkObject 1 (IntData 0)) E D L) as (_ & W' & _).
  exact (W' 0 eq_refl).
Defined.

(** The definition of [f] in [call_program] is skipped: the cursor is at
    the print statement after it. *)
Lemma skip_function_skips_definition_witness :
  exists o u y,
    skip_function at_def = Ok tt (set_shared (set_cursor o u y (shared at_def)) at_def) /\
    at_tokens (set_cursor o u y (shared at_def))
      [(PRINT, EmptyString); (IDENTIFIER, "f"%string); (LPAR, EmptyString);
       (INT, "4"%string); (RPAR, EmptyString); (NEWLINE, EmptyString)].
Proof.
  destruct (skip_function_skips_definition at_def) as (_ & _ & W).
  apply (W "f"%string EmptyString
           [(IDENTIFIER, "a"%string); (RPAR, EmptyString)] EmptyString EmptyString
           [(RETURN, EmptyString); (IDENTIFIER, "a"%string); (OPERATOR "+", "+"%string);
            (INT, "1"%string); (NEWLINE, EmptyString)] EmptyString).
  - split; [reflexivity|]. split; reflexivity.
  - repeat constructor; discriminate.
  - split; [repeat split; discriminate|].
    repeat (apply balanced_plain; [repeat split; discriminate|]). apply balanced_nil.
Defined.

(** The block below [if 0] is executed: it ends at its DEDENT. *)
Lemma block_ends_at_dedent_witness :
  block 30 (statement 30) after_condition =
    Ok tt (state_of (block 30 (statement 30) after_condition)) /\
  (token (shared (state_of (block 30 (statement 30) after_condition))) = DEDENT \/
   token (shared (state_of (block 30 (statement 30) after_condition))) = ENDMARKER).
Proof.
  assert (E : block 30 (statement 30) after_condition =
              Ok tt (state_of (block 30 (statement 30) after_condition)))
    by (vm_compute; reflexivity).
  split; [exact E|]. exact (block_ends_at_dedent 30 (statement 30) _ _ E).
Defined.

(** After [break], the statement [print 1] of the block is skipped. *)
Lemma block_skips_after_break_witness :
  exists o,
    block_loop (statement 30) 1 at_break =
      Ok tt (set_shared (set_cursor o DEDENT EmptyString
                                    (shared (state_of (statement 30 at_break))))
                        (state_of (statement 30 at_break))) /\
    at_tokens (set_cursor o DEDENT EmptyString (shared (state_of (statement 30 at_break))))
              [(DEDENT, EmptyString)].
Proof.
  apply (block_skips_after_break (statement 30) 0 at_break
           (state_of (statement 30 at_break)) NEWLINE EmptyString
           [(PRINT, EmptyString); (INT, "1"%string); (NEWLINE, EmptyString)]
           EmptyString []).
  - vm_compute. reflexivity.
  - vm_compute. reflexivity.
  - vm_compute. split; [reflexivity|]. split; reflexivity.
  - discriminate.
  - discriminate.
  - repeat (apply balanced_plain; [repeat split; discriminate|]). apply balanced_nil.
Defined.

(** [if 0] with an [else]: the first block is skipped, and the statement
    goes on with the block after the [else]. *)
Lemma if_stmnt_runs_one_branch_witness :
  exists o u y,
    at_tokens (set_cursor o u y (shared after_condition))
      [(NEWLINE, EmptyString); (INDENT, EmptyString); (PRINT, EmptyString);
       (INT, "2"%string); (NEWLINE, EmptyString); (DEDENT, EmptyString)] /\
    if_stmnt 30 (statement 30) (function_call 30) at_if =
    (block 30 (statement 30) ;; expect DEDENT)
      (set_shared (set_cursor o u y (shared after_condition)) after_condition).
Proof.
  assert (E : condition 30 (function_call 30) at_if = Ok false after_condition)
    by (vm_compute; reflexivity).
  destruct (proj1 (if_stmnt_runs_one_branch 30 (statement 30) (function_call 30)
                     at_if false after_condition E) eq_refl
              EmptyString EmptyString
              [(PRINT, EmptyString); (INT, "1"%string); (NEWLINE, EmptyString)]
              EmptyString
              [(ELSE, EmptyString); (NEWLINE, EmptyString); (INDENT, EmptyString);
               (PRINT, EmptyString); (INT, "2"%string); (NEWLINE, EmptyString);
               (DEDENT, EmptyString)])
    as (o & u & y & _ & _ & B).
  - vm_compute. split; [reflexivity|]. split; reflexivity.
  - split; [repeat split; discriminate|].
    repeat (apply balanced_plain; [repeat split; discriminate|]). apply balanced_nil.
  - exact (B EmptyString _ eq_refl).
Defined.

(** The call [f(4)]: the return statement of [f] has jumped, the call has
    returned, and the return slot is empty. *)
Lemma return_never_escapes_a_call_witness :
  function_call 30 call_addr call_state =
    Ok (value_of (function_call 30 call_addr call_state))
       (state_of (function_call 30 call_addr call_state)) /\
  return_value (state_of (function_call 30 call_addr call_state)) = None.
Proof.
  assert (E : return_value call_state = None) by (vm_compute; reflexivity).
  assert (R : function_call 30 call_addr call_state =
              Ok (value_of (function_call 30 call_addr call_state))
                 (state_of (function_call 30 call_addr call_state)))
    by (vm_compute; reflexivity).
  split; [exact R|].
  destruct (return_never_escapes_a_call reference_import_quiet 30 call_state E) as [F _].
  specialize (F call_addr). rewrite R in F. exact F.
Defined.

(** The pre-scan of [call_program] declares [f], bound to the position
    of the parameters of its definition, and rewinds the reader. *)
Lemma function_declaration_registers_witness :
  exists s' p,
    function_declaration 30 (start call_program []) = Ok tt s' /\
    offset (shared s') = 0%nat /\
    levels (shared s') = [[("f"%string, Some p)]] /\
    Forall2 (registered (shared s')) (definitions call_items) [p].
Proof.
  assert (Hok : Forall item_ok call_items).
  { repeat constructor; discriminate. }
  assert (Hd : NoDup (defined call_items))
    by (apply (bool_decide_unpack _); vm_compute; exact I).
  assert (Hf : Forall (fun f => frame_lookup f [] = None) (defined call_items))
    by (repeat constructor).
  destruct (function_declaration_registers 30 (start call_program []) call_items [] []
              eq_refl ltac:(discriminate) Hok eq_refl Hd Hf ltac:(cbn; lia))
    as (s' & ps & E & O & _ & _ & L & R).
  cbn [definitions call_items] in R.
  apply Forall2_cons_inv_l in R as (p & ps' & Rp & R' & ->).
  apply Forall2_nil_inv_l in R' as ->.
  exists s', p. split; [exact E|]. split; [exact O|]. split; [exact L|].
  constructor; [exact Rp|constructor].
Defined.

(** The formal parameters [(a, a)]: NameError. *)
Lemma pop_arguments_repeated_formal_witness :
  pop_arguments 3 2 repeated_formals = Abort (Raise NameError).
Proof.
  apply (pop_arguments_repeated_formal 3 2 1 repeated_formals [[]] ["a"%string] "a"
           [] [3; 4; 5]%positive [6; 7; 8]%positive EmptyString EmptyString
           [(NEWLINE, EmptyString)]).
  - split; [reflexivity|]. split; reflexivity.
  - reflexivity.
  - apply (bool_decide_unpack _). vm_compute. exact I.
  - constructor.
  - exact arguments_arglist.
  - cbn. lia.
  - cbn. lia.
Defined.

(** ** Further runs: the queue of live objects *)

Lemma three_queued_is : ObjectQueue.queue_is three_queued [2; 3; 4]%positive.
Proof.
  split; [apply (bool_decide_unpack _); vm_compute; exact I|].
  split; [reflexivity|]. split; [reflexivity|].
  cbn. repeat split; reflexivity.
Defined.

(** Object 5 is queued behind 2, 3 and 4. *)
Lemma enqueue_appends_witness :
  exists q', ObjectQueue._enqueue 5 three_queued = Ok tt q' /\
             ObjectQueue.queue_is q' [2; 3; 4; 5]%positive.
Proof.
  assert (N : 5%positive ∉ [2; 3; 4]%positive)
    by (apply (bool_decide_unpack _); vm_compute; exact I).
  assert (A : is_Some (ObjectQueue.links three_queued !! 5%positive))
    by (eexists; reflexivity).
  destruct (enqueue_appends three_queued [2; 3; 4]%positive 5 three_queued_is N A)
    as (q' & E & Q & _).
  exists q'. split; [exact E|exact Q].
Defined.

(** Object 3 leaves the queue: 2 and 4 are left, linked to each other. *)
Lemma dequeue_removes_witness :
  exists q', ObjectQueue._dequeue 3 three_queued = Ok tt q' /\
             ObjectQueue.queue_is q' [2; 4]%positive.
Proof.
  destruct (dequeue_removes three_queued [2]%positive 3 [4]%positive three_queued_is)
    as (q' & E & Q & _).
  exists q'. split; [exact E|exact Q].
Defined.

End Examples.
